(** * DSS manager: wire codec, registry and request dispatcher

    A shallow embedding of [common.py], [manager.py] and of the request
    encoders of [user.py] and [disk.py], together with the properties the
    specification states about them.

    Conventions.
    - A Python [int] is a [Z].  A [bytes] object is a [list byte].
    - A Python [str] is the list of its code points ([pystr]).
    - A Python [dict] is an association list in insertion order, because
      [Registry.allocate_disks] depends on the iteration order of
      [self.disks.values()].
    - A function that may raise returns a [result]; the exception classes
      that can occur are the constructors of [exn].
    - [Registry] methods run under [self.lock]; every method is one atomic
      state transition here, and so is the [with reg.lock:] block of
      [handle_conn].
    - The transport ([recv_exact], the header handling of [recv_msg] and
      [send_msg]) is represented by the frames a connection delivers and
      the frames written to it; a send never fails.  Logging ([trace]) is
      left out. *)

From Stdlib Require Import String Ascii DecimalString.
From Stdlib.Strings Require Import Byte.
From Stdlib Require Import ZArith List Lia Bool Sorted Recdef.
Import ListNotations.
Open Scope Z_scope.

(* ===================================================================== *)
(** ** Python values *)

Definition bytes := list byte.
Definition pystr := list Z.

(** An ASCII literal of the source as a [pystr]. *)
Definition lit (s : String.string) : pystr :=
  map (fun a => Z.of_N (Ascii.N_of_ascii a)) (String.list_ascii_of_string s).
Arguments lit s%_string.

(** [len(x)] as a Python int. *)
Definition len {A} (l : list A) : Z := Z.of_nat (length l).

(** [not x] for a str or a list: true on the empty one. *)
Definition py_not {A} (l : list A) : bool :=
  match l with [] => true | _ :: _ => false end.

(** [not x] for a value that is [None] or a list. *)
Definition py_not_opt {A} (o : option (list A)) : bool :=
  match o with None => true | Some l => py_not l end.

(** [l[:n]]: the first [n] items for [n >= 0], all but the last [-n] items
    for [n < 0]. *)
Definition slice_to {A} (l : list A) (n : Z) : list A :=
  if n <? 0 then firstn (length l - Z.to_nat (- n)) l
  else firstn (Z.to_nat n) l.

(** [l[a:a+n]] for naturals [a], [n] (never raises). *)
Definition slice {A} (l : list A) (a n : nat) : list A :=
  firstn n (skipn a l).

(** The integer value of a byte and its inverse. *)
Definition byte_val (b : byte) : Z := Z.of_N (Byte.to_N b).

Definition byte_of_Z (z : Z) : byte :=
  match Byte.of_N (Z.to_N (z mod 256)) with
  | Some b => b
  | None => x00
  end.

(* ===================================================================== *)
(** ** Exceptions *)

(** The exception classes that the modelled code can raise.  All of them
    derive from [Exception]; [UnicodeDecodeError] and [UnicodeEncodeError]
    derive from [ValueError], [ConnectionError] from [OSError]. *)
Inductive exn : Type :=
| ValueError (msg : pystr)            (* raise ValueError("...") *)
| UnicodeDecodeError (obj : bytes)    (* bytes.decode("utf-8") *)
| UnicodeEncodeError (obj : pystr)    (* str.encode("utf-8") *)
| StructError (width : nat)           (* struct.error: value or buffer does not fit *)
| IndexError                          (* data[i] out of range *)
| ConnectionError (msg : pystr).      (* raised by recv_exact *)

(** [except (ConnectionError, OSError)]. *)
Definition is_OSError (e : exn) : bool :=
  match e with ConnectionError _ => true | _ => false end.

(** [except Exception]. *)
Definition is_Exception (e : exn) : bool := true.

Inductive result (A : Type) : Type :=
| Ok (a : A)
| Err (e : exn).
Arguments Ok {A} a.
Arguments Err {A} e.

Definition rbind {A B} (r : result A) (k : A -> result B) : result B :=
  match r with Ok a => k a | Err e => Err e end.

Declare Scope result_scope.
Delimit Scope result_scope with res.
Notation "x <- r ;; k" := (rbind r (fun x => k))
  (at level 61, r at next level, right associativity) : result_scope.

Fixpoint rmap {A B} (f : A -> result B) (l : list A) : result (list B) :=
  match l with
  | [] => Ok []
  | a :: l' =>
      match f a with
      | Err e => Err e
      | Ok b => match rmap f l' with Err e => Err e | Ok bs => Ok (b :: bs) end
      end
  end.

(* ===================================================================== *)
(** ** [struct]: big-endian fixed-width integers *)

Definition be_value (bs : bytes) : Z :=
  fold_left (fun acc b => acc * 256 + byte_val b) bs 0.

Fixpoint be_bytes (w : nat) (x : Z) : bytes :=
  match w with
  | O => []
  | S w' => byte_of_Z (x / 256 ^ Z.of_nat w') :: be_bytes w' x
  end.

(** [struct.pack(">B"|">H"|">I"|">Q", x)]: [struct.error] when [x] does not
    fit the field. *)
Definition struct_pack (w : nat) (x : Z) : result bytes :=
  if (0 <=? x) && (x <? 256 ^ Z.of_nat w) then Ok (be_bytes w x)
  else Err (StructError w).

(** [struct.unpack_from(fmt, data, off)[0]]: [struct.error] when fewer than
    [w] bytes are left at [off]. *)
Definition struct_unpack_from (w : nat) (data : bytes) (off : nat) : result Z :=
  if (length data <? off + w)%nat then Err (StructError w)
  else Ok (be_value (slice data off w)).

(** [data[i]] on a bytes object, for [i >= 0]. *)
Definition bytes_index (data : bytes) (i : nat) : result Z :=
  match nth_error data i with
  | Some b => Ok (byte_val b)
  | None => Err IndexError
  end.

(* ===================================================================== *)
(** ** The UTF-8 codec of [str.encode] and [bytes.decode]

    Strict UTF-8 as CPython implements it: shortest form only, no
    surrogates, nothing above U+10FFFF. *)

Definition utf8_encode_cp (c : Z) : option bytes :=
  if c <? 0 then None
  else if c <? 0x80 then Some [byte_of_Z c]
  else if c <? 0x800 then
    Some [byte_of_Z (0xC0 + c / 64); byte_of_Z (0x80 + c mod 64)]
  else if c <? 0x10000 then
    if (0xD800 <=? c) && (c <=? 0xDFFF) then None
    else Some [byte_of_Z (0xE0 + c / 4096);
               byte_of_Z (0x80 + (c / 64) mod 64);
               byte_of_Z (0x80 + c mod 64)]
  else if c <? 0x110000 then
    Some [byte_of_Z (0xF0 + c / 262144);
          byte_of_Z (0x80 + (c / 4096) mod 64);
          byte_of_Z (0x80 + (c / 64) mod 64);
          byte_of_Z (0x80 + c mod 64)]
  else None.

Fixpoint utf8_encode (s : pystr) : option bytes :=
  match s with
  | [] => Some []
  | c :: s' =>
      match utf8_encode_cp c, utf8_encode s' with
      | Some b, Some bs => Some (b ++ bs)
      | _, _ => None
      end
  end.

Definition is_cont (b : byte) : bool :=
  (0x80 <=? byte_val b) && (byte_val b <? 0xC0).

Fixpoint utf8_decode (bs : bytes) : option pystr :=
  match bs with
  | [] => Some []
  | b0 :: r0 =>
      if byte_val b0 <? 0x80 then
        option_map (cons (byte_val b0)) (utf8_decode r0)
      else if byte_val b0 <? 0xC0 then None
      else if byte_val b0 <? 0xE0 then
        match r0 with
        | b1 :: r1 =>
            let c := (byte_val b0 - 0xC0) * 64 + (byte_val b1 - 0x80) in
            if is_cont b1 && (0x80 <=? c)
            then option_map (cons c) (utf8_decode r1) else None
        | _ => None
        end
      else if byte_val b0 <? 0xF0 then
        match r0 with
        | b1 :: b2 :: r2 =>
            let c := (byte_val b0 - 0xE0) * 4096 + (byte_val b1 - 0x80) * 64
                     + (byte_val b2 - 0x80) in
            if is_cont b1 && is_cont b2 && (0x800 <=? c)
               && negb ((0xD800 <=? c) && (c <=? 0xDFFF))
            then option_map (cons c) (utf8_decode r2) else None
        | _ => None
        end
      else if byte_val b0 <? 0xF8 then
        match r0 with
        | b1 :: b2 :: b3 :: r3 =>
            let c := (byte_val b0 - 0xF0) * 262144 + (byte_val b1 - 0x80) * 4096
                     + (byte_val b2 - 0x80) * 64 + (byte_val b3 - 0x80) in
            if is_cont b1 && is_cont b2 && is_cont b3 && (0x10000 <=? c)
               && (c <? 0x110000)
            then option_map (cons c) (utf8_decode r3) else None
        | _ => None
        end
      else None
  end.

(** [s.encode("utf-8")]. *)
Definition str_encode (s : pystr) : result bytes :=
  match utf8_encode s with
  | Some b => Ok b
  | None => Err (UnicodeEncodeError s)
  end.

(** [b.decode("utf-8")]. *)
Definition bytes_decode (b : bytes) : result pystr :=
  match utf8_decode b with
  | Some s => Ok s
  | None => Err (UnicodeDecodeError b)
  end.

(* ===================================================================== *)
(** ** common.py: constants *)

Definition PROTO_VERSION : Z := 1.

Module MsgType.
Definition REGISTER_USER_REQ : Z := 0x10.
Definition REGISTER_USER_RESP : Z := 0x11.
Definition REGISTER_DISK_REQ : Z := 0x20.
Definition REGISTER_DISK_RESP : Z := 0x21.
Definition CONFIGURE_DSS_REQ : Z := 0x30.
Definition CONFIGURE_DSS_RESP : Z := 0x31.
Definition DEREGISTER_USER_REQ : Z := 0x40.
Definition DEREGISTER_USER_RESP : Z := 0x41.
Definition DEREGISTER_DISK_REQ : Z := 0x50.
Definition DEREGISTER_DISK_RESP : Z := 0x51.
Definition ERROR_RESP : Z := 0x7F.
End MsgType.

Inductive Status : Type :=
| OK | INVALID_ARGUMENT | ALREADY_REGISTERED | NOT_REGISTERED
| INSUFFICIENT_RESOURCES | INTERNAL_ERROR.

(** [int(status)]. *)
Definition int_of_status (s : Status) : Z :=
  match s with
  | OK => 0
  | INVALID_ARGUMENT => 1
  | ALREADY_REGISTERED => 2
  | NOT_REGISTERED => 3
  | INSUFFICIENT_RESOURCES => 4
  | INTERNAL_ERROR => 5
  end.

(* ===================================================================== *)
(** ** common.py: packing helpers *)

Definition pack_u8 (x : Z) : result bytes := struct_pack 1 x.
Definition pack_u16 (x : Z) : result bytes := struct_pack 2 x.
Definition pack_u32 (x : Z) : result bytes := struct_pack 4 x.
Definition pack_u64 (x : Z) : result bytes := struct_pack 8 x.

Definition pack_str (s : pystr) : result bytes :=
  (b <- str_encode s ;;
   if len b >? 0xFFFF then Err (ValueError (lit "string too long"))
   else
     h <- pack_u16 (len b) ;;
     Ok (h ++ b))%res.

Definition pack_u32_list (values : list Z) : result bytes :=
  if len values >? 0xFFFF then Err (ValueError (lit "list too long"))
  else
    (h <- pack_u16 (len values) ;;
     items <- rmap pack_u32 values ;;
     Ok (concat (h :: items)))%res.

(* ===================================================================== *)
(** ** common.py: the unpacking cursor

    A [Cursor] method is a function from the cursor to either an exception
    or a value and the advanced cursor; [data] never changes. *)

Record Cursor : Type := mkCursor { data : bytes; off : nat }.

Definition new_Cursor (d : bytes) : Cursor := mkCursor d 0.

Definition M (A : Type) : Type := Cursor -> result (A * Cursor).

Definition mret {A} (a : A) : M A := fun c => Ok (a, c).

Definition mbind {A B} (m : M A) (k : A -> M B) : M B :=
  fun c => match m c with
           | Ok (a, c') => k a c'
           | Err e => Err e
           end.

Definition mlift {A} (f : Cursor -> result A) : M A :=
  fun c => match f c with Ok a => Ok (a, c) | Err e => Err e end.

Definition advance (n : nat) : M unit :=
  fun c => Ok (tt, mkCursor (data c) (off c + n)).

Declare Scope cursor_scope.
Delimit Scope cursor_scope with cur.
Notation "x <- m ;; k" := (mbind m (fun x => k))
  (at level 61, m at next level, right associativity) : cursor_scope.
Notation "m ;; k" := (mbind m (fun _ => k))
  (at level 61, right associativity) : cursor_scope.

Module Cursor.

Definition need (n : nat) : M unit :=
  fun c => if (length (data c) <? off c + n)%nat
           then Err (ValueError (lit "truncated payload"))
           else Ok (tt, c).

Definition u8 : M Z :=
  (need 1 ;;
   v <- mlift (fun c => bytes_index (data c) (off c)) ;;
   advance 1 ;;
   mret v)%cur.

Definition u16 : M Z :=
  (need 2 ;;
   v <- mlift (fun c => struct_unpack_from 2 (data c) (off c)) ;;
   advance 2 ;;
   mret v)%cur.

Definition u32 : M Z :=
  (need 4 ;;
   v <- mlift (fun c => struct_unpack_from 4 (data c) (off c)) ;;
   advance 4 ;;
   mret v)%cur.

Definition u64 : M Z :=
  (need 8 ;;
   v <- mlift (fun c => struct_unpack_from 8 (data c) (off c)) ;;
   advance 8 ;;
   mret v)%cur.

Definition str : M pystr :=
  (n <- u16 ;;
   need (Z.to_nat n) ;;
   s <- mlift (fun c => bytes_decode (slice (data c) (off c) (Z.to_nat n))) ;;
   advance (Z.to_nat n) ;;
   mret s)%cur.

(** [for _ in range(n): out.append(self.u32())]. *)
Fixpoint u32_loop (n : nat) : M (list Z) :=
  match n with
  | O => mret []
  | S n' => (v <- u32 ;; vs <- u32_loop n' ;; mret (v :: vs))%cur
  end.

Definition u32_list : M (list Z) :=
  (n <- u16 ;; u32_loop (Z.to_nat n))%cur.

End Cursor.

(** Running a decoder on a fresh cursor and keeping only the value. *)
Definition run_cursor {A} (m : M A) (pb : bytes) : result A :=
  match m (new_Cursor pb) with
  | Ok (a, _) => Ok a
  | Err e => Err e
  end.

(* ===================================================================== *)
(** ** user.py and disk.py: request encoders *)

Definition radd (a b : result bytes) : result bytes :=
  (x <- a ;; y <- b ;; Ok (x ++ y))%res.
Infix "+++" := radd (at level 60, right associativity).

Definition enc_register_user_req (name : pystr) (listen_port : Z) : result bytes :=
  pack_str name +++ pack_u16 listen_port.

Definition enc_configure_req (n : Z) (policy constraints_json : pystr) : result bytes :=
  pack_u16 n +++ pack_str policy +++ pack_str constraints_json.

Definition enc_deregister_user_req (user_id : Z) : result bytes :=
  pack_u32 user_id.

Definition enc_register_disk_req (name : pystr) (listen_port capacity : Z)
    (zone : pystr) : result bytes :=
  pack_str name +++ pack_u16 listen_port +++ pack_u64 capacity +++ pack_str zone.

Definition enc_deregister_disk_req (disk_id : Z) : result bytes :=
  pack_u32 disk_id.

(** user.py and disk.py: response decoders. *)

Definition dec_register_user_resp (pb : bytes) : result (Z * Z) :=
  run_cursor
    (status <- Cursor.u8 ;;
     uid <- Cursor.u32 ;;
     mret (status, uid))%cur pb.

Definition dec_register_disk_resp (pb : bytes) : result (Z * Z) :=
  run_cursor
    (status <- Cursor.u8 ;;
     did <- Cursor.u32 ;;
     mret (status, did))%cur pb.

Definition dec_configure_resp (pb : bytes) : result (Z * Z * list Z) :=
  run_cursor
    (status <- Cursor.u8 ;;
     dss_id <- Cursor.u32 ;;
     ids <- Cursor.u32_list ;;
     mret (status, dss_id, ids))%cur pb.

(** [c = Cursor(pb); status = c.u8(); msg = c.str()] on an ERROR_RESP. *)
Definition dec_error_resp (pb : bytes) : result (Z * pystr) :=
  run_cursor
    (status <- Cursor.u8 ;;
     msg <- Cursor.str ;;
     mret (status, msg))%cur pb.

(* ===================================================================== *)
(** ** manager.py: the registry *)

(** A [dict] with integer keys, in insertion order. *)
Definition dict (V : Type) : Type := list (Z * V).

(** [d[k] = v]: replaces the value in place when [k] is present, appends
    otherwise. *)
Fixpoint dict_set {V} (k : Z) (v : V) (d : dict V) : dict V :=
  match d with
  | [] => [(k, v)]
  | (k', v') :: d' =>
      if k' =? k then (k, v) :: d' else (k', v') :: dict_set k v d'
  end.

(** [d.pop(k, None)]: the removed value if any, and the dict without [k]. *)
Fixpoint dict_pop {V} (k : Z) (d : dict V) : option V * dict V :=
  match d with
  | [] => (None, [])
  | (k', v') :: d' =>
      if k' =? k then (Some v', d')
      else let (r, d'') := dict_pop k d' in (r, (k', v') :: d'')
  end.

Definition dict_get {V} (k : Z) (d : dict V) : option V :=
  match find (fun kv => fst kv =? k) d with
  | Some kv => Some (snd kv)
  | None => None
  end.

Definition dict_keys {V} (d : dict V) : list Z := map fst d.
Definition dict_values {V} (d : dict V) : list V := map snd d.

Record user_rec : Type := mkUser {
  user_id : Z; user_name : pystr; user_addr : pystr; user_port : Z;
  user_status : pystr }.

Record disk_rec : Type := mkDisk {
  disk_id : Z; disk_name : pystr; disk_addr : pystr; disk_port : Z;
  capacity : Z; zone : pystr; disk_status : pystr }.

Record Registry : Type := mkRegistry {
  next_user_id : Z;
  next_disk_id : Z;
  next_dss_id : Z;
  users : dict user_rec;
  disks : dict disk_rec }.

(** [Registry.__init__]. *)
Definition new_Registry : Registry := mkRegistry 1 1 1 [] [].

Definition register_user (name addr : pystr) (port : Z) (r : Registry)
    : Z * Registry :=
  let uid := next_user_id r in
  (uid,
   mkRegistry (next_user_id r + 1) (next_disk_id r) (next_dss_id r)
     (dict_set uid (mkUser uid name addr port (lit "READY")) (users r))
     (disks r)).

Definition deregister_user (uid : Z) (r : Registry) : bool * Registry :=
  let (v, us) := dict_pop uid (users r) in
  (match v with Some _ => true | None => false end,
   mkRegistry (next_user_id r) (next_disk_id r) (next_dss_id r) us (disks r)).

Definition register_disk (name addr : pystr) (port capacity_bytes : Z)
    (zone : pystr) (r : Registry) : Z * Registry :=
  let did := next_disk_id r in
  (did,
   mkRegistry (next_user_id r) (next_disk_id r + 1) (next_dss_id r)
     (users r)
     (dict_set did (mkDisk did name addr port capacity_bytes zone (lit "READY"))
        (disks r))).

Definition deregister_disk (did : Z) (r : Registry) : bool * Registry :=
  let (v, ds) := dict_pop did (disks r) in
  (match v with Some _ => true | None => false end,
   mkRegistry (next_user_id r) (next_disk_id r) (next_dss_id r) (users r) ds).

(** [None] is the failure signal. *)
Definition allocate_disks (n : Z) (r : Registry) : option (list Z) * Registry :=
  let ready := map disk_id (dict_values (disks r)) in
  if len ready <? n then (None, r)
  else (Some (slice_to ready n), r).

(** The [with reg.lock:] block of [handle_conn] that mints a DSS id. *)
Definition mint_dss_id (r : Registry) : Z * Registry :=
  (next_dss_id r,
   mkRegistry (next_user_id r) (next_disk_id r) (next_dss_id r + 1)
     (users r) (disks r)).

(* ===================================================================== *)
(** ** manager.py: response encoders and request decoders *)

Definition enc_register_user_resp (status : Status) (uid : Z) : result bytes :=
  pack_u8 (int_of_status status) +++ pack_u32 uid.

Definition enc_register_disk_resp (status : Status) (did : Z) : result bytes :=
  pack_u8 (int_of_status status) +++ pack_u32 did.

(** [disk_ids or []]. *)
Definition or_empty (disk_ids : option (list Z)) : list Z :=
  match disk_ids with
  | Some (x :: l) => x :: l
  | _ => []
  end.

Definition enc_configure_resp (status : Status) (dss_id : Z)
    (disk_ids : option (list Z)) : result bytes :=
  pack_u8 (int_of_status status) +++ pack_u32 dss_id
    +++ pack_u32_list (or_empty disk_ids).

Definition enc_simple_status (status : Status) : result bytes :=
  pack_u8 (int_of_status status).

Definition enc_error (status : Status) (msg : pystr) : result bytes :=
  pack_u8 (int_of_status status) +++ pack_str msg.

(** Each decoder builds [c = Cursor(pb)] and reads its fields in order;
    the sequence of reads is named so that it can be run at any cursor. *)

Definition read_register_user_req : M (pystr * Z) :=
  (name <- Cursor.str ;;
   listen_port <- Cursor.u16 ;;
   mret (name, listen_port))%cur.

Definition dec_register_user_req (pb : bytes) : result (pystr * Z) :=
  run_cursor read_register_user_req pb.

Definition read_register_disk_req : M (pystr * Z * Z * pystr) :=
  (name <- Cursor.str ;;
   listen_port <- Cursor.u16 ;;
   capacity <- Cursor.u64 ;;
   zone <- Cursor.str ;;
   mret (name, listen_port, capacity, zone))%cur.

Definition dec_register_disk_req (pb : bytes) : result (pystr * Z * Z * pystr) :=
  run_cursor read_register_disk_req pb.

Definition read_configure_req : M (Z * pystr * pystr) :=
  (n <- Cursor.u16 ;;
   policy <- Cursor.str ;;
   constraints_json <- Cursor.str ;;
   mret (n, policy, constraints_json))%cur.

Definition dec_configure_req (pb : bytes) : result (Z * pystr * pystr) :=
  run_cursor read_configure_req pb.

Definition dec_deregister_user_req (pb : bytes) : result Z :=
  run_cursor Cursor.u32 pb.

Definition dec_deregister_disk_req (pb : bytes) : result Z :=
  run_cursor Cursor.u32 pb.

(* ===================================================================== *)
(** ** manager.py: the request dispatcher

    [recv_msg] and [send_msg] are the transport boundary: the dispatcher
    receives and sends frames (message type, transaction id, payload).  The
    handler code runs against the shared registry [reg] and the socket; both
    are threaded through the monad [H], in which an exception leaves the
    effects that happened before it in place. *)

Record frame : Type := mkFrame { msg_type : Z; txn_id : Z; payload : bytes }.

Record world : Type := mkWorld {
  reg : Registry;          (* the module-level [reg = Registry()] *)
  sent : list frame }.     (* what [send_msg] wrote to the connection, in order *)

Definition H (A : Type) : Type := world -> world * result A.

Definition hret {A} (a : A) : H A := fun w => (w, Ok a).

Definition hbind {A B} (m : H A) (k : A -> H B) : H B :=
  fun w => match m w with
           | (w', Ok a) => k a w'
           | (w', Err e) => (w', Err e)
           end.

Definition hraise {A} (e : exn) : H A := fun w => (w, Err e).

Definition hlift {A} (r : result A) : H A := fun w => (w, r).

(** [try: body except Exception as e: handler(e)]. *)
Definition try_except {A} (body : H A) (handler : exn -> H A) : H A :=
  fun w => match body w with
           | (w', Ok a) => (w', Ok a)
           | (w', Err e) => if is_Exception e then handler e w' else (w', Err e)
           end.

(** A call to a [Registry] method on [reg]. *)
Definition on_reg {A} (f : Registry -> A * Registry) : H A :=
  fun w => let (a, r') := f (reg w) in (mkWorld r' (sent w), Ok a).

Definition send_msg (mt txn : Z) (pb : bytes) : H unit :=
  fun w => (mkWorld (reg w) (sent w ++ [mkFrame mt txn pb]), Ok tt).

Declare Scope handler_scope.
Delimit Scope handler_scope with hdl.
Notation "x <- m ;; k" := (hbind m (fun x => k))
  (at level 61, m at next level, right associativity) : handler_scope.
Notation "m ;; k" := (hbind m (fun _ => k))
  (at level 61, right associativity) : handler_scope.

(** How a connection thread ends: [except (ConnectionError, OSError)] logs
    BYE; any other exception leaves [handle_conn] uncaught.  [conn.close()]
    runs in both cases. *)
Inductive outcome : Type :=
| Bye
| Uncaught (e : exn).

(** [f"{n}"] for an int. *)
Definition str_of_int (n : Z) : pystr :=
  lit (NilZero.string_of_int (Z.to_int n)).

Section Dispatcher.

(** [str(e)] for the exceptions raised inside the Python library
    ([UnicodeDecodeError], [struct.error], ...): text chosen by CPython,
    not by this repository. *)
Variable lib_text : exn -> pystr.

(** [str(e)]. *)
Definition exn_str (e : exn) : pystr :=
  match e with
  | ValueError m => m
  | ConnectionError m => m
  | _ => lib_text e
  end.

Definition reply_error (txn : Z) (e : exn) : H unit :=
  (pb <- hlift (enc_error INVALID_ARGUMENT (exn_str e)) ;;
   send_msg MsgType.ERROR_RESP txn pb)%hdl.

Definition handle_register_user (addr0 : pystr) (txn : Z) (pb : bytes) : H unit :=
  try_except
    (req <- hlift (dec_register_user_req pb) ;;
     let '(name, listen_port) := req in
     (if py_not name || (listen_port <=? 0)
      then hraise (ValueError (lit "missing name/port")) else hret tt) ;;
     uid <- on_reg (register_user name addr0 listen_port) ;;
     out <- hlift (enc_register_user_resp OK uid) ;;
     send_msg MsgType.REGISTER_USER_RESP txn out)%hdl
    (reply_error txn).

Definition handle_deregister_user (txn : Z) (pb : bytes) : H unit :=
  (uid <- hlift (dec_deregister_user_req pb) ;;
   ok <- on_reg (deregister_user uid) ;;
   out <- hlift (enc_simple_status (if ok : bool then OK else NOT_REGISTERED)) ;;
   send_msg MsgType.DEREGISTER_USER_RESP txn out)%hdl.

Definition handle_register_disk (addr0 : pystr) (txn : Z) (pb : bytes) : H unit :=
  try_except
    (req <- hlift (dec_register_disk_req pb) ;;
     let '(name, listen_port, cap, zone) := req in
     (if py_not name || (listen_port <=? 0) || (cap <=? 0)
      then hraise (ValueError (lit "bad disk args")) else hret tt) ;;
     did <- on_reg (register_disk name addr0 listen_port cap zone) ;;
     out <- hlift (enc_register_disk_resp OK did) ;;
     send_msg MsgType.REGISTER_DISK_RESP txn out)%hdl
    (reply_error txn).

Definition handle_deregister_disk (txn : Z) (pb : bytes) : H unit :=
  (did <- hlift (dec_deregister_disk_req pb) ;;
   ok <- on_reg (deregister_disk did) ;;
   out <- hlift (enc_simple_status (if ok : bool then OK else NOT_REGISTERED)) ;;
   send_msg MsgType.DEREGISTER_DISK_RESP txn out)%hdl.

Definition handle_configure_dss (txn : Z) (pb : bytes) : H unit :=
  (req <- hlift (dec_configure_req pb) ;;
   let '(n, policy, constraints_json) := req in
   if n <=? 0 then
     out <- hlift (enc_configure_resp INVALID_ARGUMENT 0 (Some [])) ;;
     send_msg MsgType.CONFIGURE_DSS_RESP txn out
   else
     disks <- on_reg (allocate_disks n) ;;
     if py_not_opt disks then
       out <- hlift (enc_configure_resp INSUFFICIENT_RESOURCES 0 (Some [])) ;;
       send_msg MsgType.CONFIGURE_DSS_RESP txn out
     else
       dss_id <- on_reg mint_dss_id ;;
       out <- hlift (enc_configure_resp OK dss_id disks) ;;
       send_msg MsgType.CONFIGURE_DSS_RESP txn out)%hdl.

(** The body of the [while True] loop after [recv_msg] returned [f];
    [addr0] is [addr[0]], the peer host. *)
Definition handle_msg (addr0 : pystr) (f : frame) : H unit :=
  let mt := msg_type f in
  if mt =? MsgType.REGISTER_USER_REQ then
    handle_register_user addr0 (txn_id f) (payload f)
  else if mt =? MsgType.DEREGISTER_USER_REQ then
    handle_deregister_user (txn_id f) (payload f)
  else if mt =? MsgType.REGISTER_DISK_REQ then
    handle_register_disk addr0 (txn_id f) (payload f)
  else if mt =? MsgType.DEREGISTER_DISK_REQ then
    handle_deregister_disk (txn_id f) (payload f)
  else if mt =? MsgType.CONFIGURE_DSS_REQ then
    handle_configure_dss (txn_id f) (payload f)
  else
    (out <- hlift (enc_error INVALID_ARGUMENT
                     (lit "unknown msg_type " ++ str_of_int mt)) ;;
     send_msg MsgType.ERROR_RESP (txn_id f) out)%hdl.

(** The [while True] loop on a connection that delivers the frames
    [incoming] and is then closed by the peer, at which point [recv_exact]
    raises [ConnectionError("socket closed")]. *)
Fixpoint serve_loop (addr0 : pystr) (incoming : list frame) : H unit :=
  match incoming with
  | [] => hraise (ConnectionError (lit "socket closed"))
  | f :: rest => (handle_msg addr0 f ;; serve_loop addr0 rest)%hdl
  end.

Definition handle_conn (addr0 : pystr) (incoming : list frame) (w : world)
    : world * outcome :=
  match serve_loop addr0 incoming w with
  | (w', Err e) => (w', if is_OSError e then Bye else Uncaught e)
  | (w', Ok _) => (w', Bye)
  end.

End Dispatcher.

(* ===================================================================== *)
(** ** Histories of registry operations

    The registry is only ever changed by its five methods and by the
    [with reg.lock:] block that mints a DSS id; a history is a sequence of
    such calls, made by any number of connections in the order in which they
    took the lock. *)

Inductive reg_op : Type :=
| RegisterUser (name addr : pystr) (port : Z)
| DeregisterUser (uid : Z)
| RegisterDisk (name addr : pystr) (port capacity_bytes : Z) (zone : pystr)
| DeregisterDisk (did : Z)
| AllocateDisks (n : Z)
| MintDssId.

(** The registry after one call. *)
Definition apply_op (op : reg_op) (r : Registry) : Registry :=
  match op with
  | RegisterUser name addr port => snd (register_user name addr port r)
  | DeregisterUser uid => snd (deregister_user uid r)
  | RegisterDisk name addr port cap zone => snd (register_disk name addr port cap zone r)
  | DeregisterDisk did => snd (deregister_disk did r)
  | AllocateDisks n => snd (allocate_disks n r)
  | MintDssId => snd (mint_dss_id r)
  end.

Definition run_ops (ops : list reg_op) (r : Registry) : Registry :=
  fold_left (fun r op => apply_op op r) ops r.

(** The ids that the [register_user] calls of a history return, in order. *)
Fixpoint user_ids (ops : list reg_op) (r : Registry) : list Z :=
  match ops with
  | [] => []
  | RegisterUser name addr port :: rest =>
      let (uid, r') := register_user name addr port r in uid :: user_ids rest r'
  | op :: rest => user_ids rest (apply_op op r)
  end.

(** The ids that the [register_disk] calls of a history return, in order. *)
Fixpoint disk_ids (ops : list reg_op) (r : Registry) : list Z :=
  match ops with
  | [] => []
  | RegisterDisk name addr port cap zone :: rest =>
      let (did, r') := register_disk name addr port cap zone r in
      did :: disk_ids rest r'
  | op :: rest => disk_ids rest (apply_op op r)
  end.

Definition is_register_user (op : reg_op) : bool :=
  match op with RegisterUser _ _ _ => true | _ => false end.

Definition is_register_disk (op : reg_op) : bool :=
  match op with RegisterDisk _ _ _ _ _ => true | _ => false end.

(** [[a; a+1; ...; a+n-1]]. *)
Definition count_from (a : Z) (n : nat) : list Z :=
  map (fun i => a + Z.of_nat i) (seq 0 n).

(** A key is registered when the dict holds a record for it. *)
Definition registered {V} (k : Z) (d : dict V) : Prop := In k (dict_keys d).

(** What holds of the registry after every history. *)
Record registry_inv (r : Registry) : Prop := mkInv {
  inv_next_user : 1 <= next_user_id r;
  inv_next_disk : 1 <= next_disk_id r;
  inv_next_dss : 1 <= next_dss_id r;
  inv_users_sorted : StronglySorted Z.lt (dict_keys (users r));
  inv_disks_sorted : StronglySorted Z.lt (dict_keys (disks r));
  inv_users_below : Forall (fun k => 1 <= k < next_user_id r) (dict_keys (users r));
  inv_disks_below : Forall (fun k => 1 <= k < next_disk_id r) (dict_keys (disks r));
  inv_user_key : Forall (fun kv => user_id (snd kv) = fst kv) (users r);
  inv_disk_key : Forall (fun kv => disk_id (snd kv) = fst kv) (disks r) }.

(* ===================================================================== *)
(** ** Vocabulary of the statements *)

Definition truncated : exn := ValueError (lit "truncated payload").

(** The behaviour shared by the fixed-width reads: check, decode [w] bytes
    big-endian at the offset, advance by [w]. *)
Definition read_fixed (w : nat) : M Z :=
  fun c => if (length (data c) <? off c + w)%nat then Err truncated
           else Ok (be_value (slice (data c) (off c) w),
                    mkCursor (data c) (off c + w)).

(** A read is bounds-safe when it either fails with the truncated-payload
    error or a decoding error of the bytes it was allowed to look at, or
    succeeds on the same buffer with an offset that moved forward and is
    still inside the buffer.  [IndexError] and [struct.error], which an
    unchecked access past the end would raise, are excluded. *)
Definition bounds_safe {A} (m : M A) : Prop :=
  forall c, (off c <= length (data c))%nat ->
    match m c with
    | Ok (_, c') =>
        data c' = data c /\ (off c <= off c' <= length (data c))%nat
    | Err e => e = truncated \/ exists b, e = UnicodeDecodeError b
    end.

(** If a read succeeds on [d], then on any prefix of [d] that still holds
    all the bytes it consumed it gives the same answer, and on any shorter
    prefix it fails with the truncated-payload error. *)
Definition prefix_stable {A} (m : M A) : Prop :=
  forall d o v c', (o <= length d)%nat -> m (mkCursor d o) = Ok (v, c') ->
    forall k, (o <= k)%nat ->
      ((off c' <= k)%nat ->
       m (mkCursor (firstn k d) o) = Ok (v, mkCursor (firstn k d) (off c'))) /\
      ((k < off c')%nat -> m (mkCursor (firstn k d) o) = Err truncated).

Definition status_byte (s : Status) : bytes := [byte_of_Z (int_of_status s)].

(** The payload of a failed configure: status, [dss_id = 0], no disk ids. *)
Definition configure_failure (s : Status) : bytes :=
  status_byte s ++ be_bytes 4 0 ++ be_bytes 2 0.

(** The ids [allocate_disks n] picks when it succeeds with [n >= 1]. *)
Definition first_disks (n : Z) (r : Registry) : list Z :=
  firstn (Z.to_nat n) (map disk_id (dict_values (disks r))).

(** Histories that drive a counter up: [n] users registered and deregistered
    one after the other, and [n] DSS ids minted. *)
Fixpoint churn_users (a : Z) (n : nat) : list reg_op :=
  match n with
  | O => []
  | S n' =>
      RegisterUser (lit "u") (lit "h") 1 :: DeregisterUser a :: churn_users (a + 1) n'
  end.

Definition mint_many (n : nat) : list reg_op := repeat MintDssId n.

(** [n] disks registered and deregistered one after the other, from disk
    id [a] on. *)
Fixpoint churn_disks (a : Z) (n : nat) : list reg_op :=
  match n with
  | O => []
  | S n' =>
      RegisterDisk (lit "d") (lit "h") 9000 1 [] :: DeregisterDisk a
        :: churn_disks (a + 1) n'
  end.

(** The world after an ERROR_RESP with status INVALID_ARGUMENT and the
    packed message [b] was sent and nothing else happened. *)
Definition error_reply (w : world) (txn : Z) (b : bytes) : world :=
  mkWorld (reg w)
    (sent w ++ [mkFrame MsgType.ERROR_RESP txn (status_byte INVALID_ARGUMENT ++ b)]).

(* ===================================================================== *)
(** ** common.py: socket I/O

    The receiving side of a connection is the sequence of chunks in which
    the network hands over the peer's bytes, each holding at least one
    byte; once the sequence is used up the peer has closed the connection.
    [sock.recv(n)] returns the next chunk, or its first [n] bytes if it is
    longer, and [b""] on a closed connection.  [sock.sendall] appends to
    the bytes written so far and does not fail. *)

Definition chunk : Type := (byte * bytes)%type.

Definition chunk_bytes (c : chunk) : bytes := fst c :: snd c.

Record socket : Type := mkSocket {
  inbox : list chunk;      (* what recv will return, in order *)
  outbox : bytes }.        (* what sendall has written *)

(** All the bytes still to be received. *)
Definition stream (chunks : list chunk) : bytes :=
  concat (map chunk_bytes chunks).

Module Wire.

(** [sock.recv(n)]. *)
Definition recv (sock : socket) (n : nat) : bytes * socket :=
  match inbox sock with
  | [] => ([], sock)
  | c :: rest =>
      if (length (chunk_bytes c) <=? n)%nat
      then (chunk_bytes c, mkSocket rest (outbox sock))
      else
        (firstn n (chunk_bytes c),
         mkSocket (match skipn n (chunk_bytes c) with
                   | [] => rest
                   | b :: bs => (b, bs) :: rest
                   end)
           (outbox sock))
  end.

(** [sock.sendall(b)]. *)
Definition sendall (sock : socket) (b : bytes) : socket :=
  mkSocket (inbox sock) (outbox sock ++ b).

(** The [while remaining > 0] loop of [recv_exact]; [bufs] is the list of
    chunks received so far.  Every iteration receives at least one byte or
    raises, so [remaining] decreases. *)
Function recv_loop (sock : socket) (remaining : nat) (bufs : list bytes)
    {measure id remaining} : result bytes * socket :=
  match remaining with
  | O => (Ok (concat bufs), sock)
  | S _ =>
      match recv sock remaining with
      | ([], sock') => (Err (ConnectionError (lit "socket closed")), sock')
      | (b :: bs, sock') =>
          recv_loop sock' (remaining - length (b :: bs)) (bufs ++ [b :: bs])
      end
  end.
Proof. intros. unfold id. simpl. lia. Defined.

Definition recv_exact (sock : socket) (n : nat) : result bytes * socket :=
  recv_loop sock n [].

(** [HEADER = struct.Struct(">BBII")]. *)
Definition HEADER_size : nat := 10.

Definition HEADER_pack (version mt txn plen : Z) : result bytes :=
  if (0 <=? version) && (version <? 256) && (0 <=? mt) && (mt <? 256)
     && (0 <=? txn) && (txn <? 2 ^ 32) && (0 <=? plen) && (plen <? 2 ^ 32)
  then Ok (be_bytes 1 version ++ be_bytes 1 mt ++ be_bytes 4 txn ++ be_bytes 4 plen)
  else Err (StructError HEADER_size).

Definition HEADER_unpack (hdr : bytes) : result (Z * Z * Z * Z) :=
  if (length hdr =? HEADER_size)%nat
  then Ok (be_value (slice hdr 0 1), be_value (slice hdr 1 1),
           be_value (slice hdr 2 4), be_value (slice hdr 6 4))
  else Err (StructError HEADER_size).

Definition send_msg (sock : socket) (mt txn : Z) (pb : bytes)
    : result unit * socket :=
  match HEADER_pack PROTO_VERSION mt txn (len pb) with
  | Ok hdr => (Ok tt, sendall sock (hdr ++ pb))
  | Err e => (Err e, sock)
  end.

Definition recv_msg (sock : socket) : result frame * socket :=
  match recv_exact sock HEADER_size with
  | (Err e, sock1) => (Err e, sock1)
  | (Ok hdr, sock1) =>
      match HEADER_unpack hdr with
      | Err e => (Err e, sock1)
      | Ok (version, mt, txn, payload_len) =>
          if negb (version =? PROTO_VERSION) then
            (Err (ValueError (lit "bad protocol version " ++ str_of_int version)),
             sock1)
          else if payload_len =? 0 then (Ok (mkFrame mt txn []), sock1)
          else
            match recv_exact sock1 (Z.to_nat payload_len) with
            | (Err e, sock2) => (Err e, sock2)
            | (Ok pb, sock2) => (Ok (mkFrame mt txn pb), sock2)
            end
      end
  end.

End Wire.

(* ===================================================================== *)
(** ** Vocabulary of the further properties *)

(** The message types [handle_conn] can answer a request type with. *)
Definition reply_types (req : Z) : list Z :=
  if req =? MsgType.REGISTER_USER_REQ
  then [MsgType.REGISTER_USER_RESP; MsgType.ERROR_RESP]
  else if req =? MsgType.DEREGISTER_USER_REQ then [MsgType.DEREGISTER_USER_RESP]
  else if req =? MsgType.REGISTER_DISK_REQ
  then [MsgType.REGISTER_DISK_RESP; MsgType.ERROR_RESP]
  else if req =? MsgType.DEREGISTER_DISK_REQ then [MsgType.DEREGISTER_DISK_RESP]
  else if req =? MsgType.CONFIGURE_DSS_REQ then [MsgType.CONFIGURE_DSS_RESP]
  else [MsgType.ERROR_RESP].

(** The largest payload the dispatcher sends: status, DSS id and 65535
    disk ids. *)
Definition max_reply_payload : Z := 1 + 4 + 2 + 4 * 65535.

(** [fr] answers the request [f]. *)
Definition answers (f fr : frame) : Prop :=
  txn_id fr = txn_id f /\
  In (msg_type fr) (reply_types (msg_type f)) /\
  len (payload fr) <= max_reply_payload.

(** The five request types of [handle_conn]. *)
Definition request_types : list Z :=
  [MsgType.REGISTER_USER_REQ; MsgType.DEREGISTER_USER_REQ;
   MsgType.REGISTER_DISK_REQ; MsgType.DEREGISTER_DISK_REQ;
   MsgType.CONFIGURE_DSS_REQ].

(** [f"unknown msg_type {msg_type}"]. *)
Definition unknown_text (mt : Z) : pystr :=
  lit "unknown msg_type " ++ str_of_int mt.


(** [r] does not raise an [OSError]. *)
Definition no_OSError {A} (r : result A) : Prop :=
  forall e, r = Err e -> is_OSError e = false.

(** What one iteration of the loop does to the connection. *)
Definition one_reply (f : frame) (w : world) (r : world * result unit) : Prop :=
  match snd r with
  | Ok _ => exists fr, sent (fst r) = sent w ++ [fr] /\ answers f fr
  | Err e => sent (fst r) = sent w /\ is_OSError e = false
  end.


(** What the clients' decoders make of a reply: an ERROR_RESP decodes to
    INVALID_ARGUMENT and a text, a register response to OK and an id, a
    deregister response is the single byte OK or NOT_REGISTERED, and a
    configure response decodes either to OK with a non-empty list of disks
    or to a failure status with DSS id 0 and no disks. *)
Definition reply_decodes (fr : frame) : Prop :=
  let mt := msg_type fr in
  let pb := payload fr in
  if mt =? MsgType.ERROR_RESP then
    exists msg, dec_error_resp pb = Ok (int_of_status INVALID_ARGUMENT, msg)
  else if mt =? MsgType.REGISTER_USER_RESP then
    exists uid, dec_register_user_resp pb = Ok (int_of_status OK, uid)
  else if mt =? MsgType.REGISTER_DISK_RESP then
    exists did, dec_register_disk_resp pb = Ok (int_of_status OK, did)
  else if (mt =? MsgType.DEREGISTER_USER_RESP)
          || (mt =? MsgType.DEREGISTER_DISK_RESP) then
    exists s, In s [OK; NOT_REGISTERED] /\ pb = status_byte s /\
              run_cursor Cursor.u8 pb = Ok (int_of_status s)
  else if mt =? MsgType.CONFIGURE_DSS_RESP then
    exists s dss ids,
      dec_configure_resp pb = Ok (int_of_status s, dss, ids) /\
      (s = OK /\ ids <> [] \/
       In s [INVALID_ARGUMENT; INSUFFICIENT_RESOURCES] /\ dss = 0 /\ ids = [])
  else False.

(** One iteration of the loop sends, if it ends normally, one reply the
    client can decode. *)
Definition decodable_reply (w : world) (r : world * result unit) : Prop :=
  match snd r with
  | Ok _ => exists fr, sent (fst r) = sent w ++ [fr] /\ reply_decodes fr
  | Err _ => True
  end.

(* ===================================================================== *)
(** * Properties *)

(** ** Bytes and big-endian integers *)

Lemma byte_val_range (b : byte) : 0 <= byte_val b < 256.
Proof.
  unfold byte_val. pose proof (Byte.to_N_bounded b) as Hb.
  lia.
Qed.

Lemma byte_val_of_Z (z : Z) : 0 <= z < 256 -> byte_val (byte_of_Z z) = z.
Proof.
  intros Hz. unfold byte_val, byte_of_Z.
  rewrite Z.mod_small by lia.
  destruct (Byte.of_N (Z.to_N z)) as [b|] eqn:E.
  - apply Byte.to_of_N in E. rewrite E. lia.
  - apply Byte.of_N_None_iff in E. lia.
Qed.

Lemma byte_val_of_Z_mod (z : Z) : byte_val (byte_of_Z z) = z mod 256.
Proof.
  unfold byte_of_Z.
  pose proof (Z.mod_pos_bound z 256 ltac:(lia)) as Hm.
  rewrite <- (Z.mod_mod z 256) by lia.
  fold (byte_of_Z (z mod 256)).
  rewrite byte_val_of_Z; [ now rewrite Z.mod_mod by lia | lia ].
Qed.

Lemma byte_of_Z_val (b : byte) : byte_of_Z (byte_val b) = b.
Proof.
  unfold byte_of_Z. pose proof (byte_val_range b) as Hb.
  rewrite Z.mod_small by lia. unfold byte_val.
  rewrite N2Z.id, Byte.of_to_N. reflexivity.
Qed.

Lemma be_bytes_length (w : nat) (x : Z) : length (be_bytes w x) = w.
Proof. induction w; simpl; congruence. Qed.

Lemma be_fold (w : nat) (x acc : Z) :
  fold_left (fun a b => a * 256 + byte_val b) (be_bytes w x) acc
  = acc * 256 ^ Z.of_nat w + x mod 256 ^ Z.of_nat w.
Proof.
  revert acc. induction w as [|w IH]; intros acc.
  - simpl. rewrite Z.mod_1_r. lia.
  - cbn [be_bytes fold_left]. rewrite IH, byte_val_of_Z_mod.
    rewrite Nat2Z.inj_succ, Z.pow_succ_r by lia.
    assert (Hp : 0 < 256 ^ Z.of_nat w) by (apply Z.pow_pos_nonneg; lia).
    rewrite (Z.mul_comm 256 (256 ^ Z.of_nat w)).
    rewrite (Z.rem_mul_r x (256 ^ Z.of_nat w) 256) by lia.
    lia.
Qed.

Lemma be_value_bytes (w : nat) (x : Z) :
  0 <= x < 256 ^ Z.of_nat w -> be_value (be_bytes w x) = x.
Proof.
  intros Hx. unfold be_value. rewrite be_fold, Z.mod_small by lia. lia.
Qed.

Lemma be_value_range (bs : bytes) : 0 <= be_value bs < 256 ^ len bs.
Proof.
  unfold be_value, len.
  assert (G : forall l acc n, 0 <= acc < 256 ^ Z.of_nat n ->
            0 <= fold_left (fun a b => a * 256 + byte_val b) l acc
              < 256 ^ Z.of_nat (n + length l)).
  { induction l as [|b l IH]; intros acc n Hacc; simpl.
    - now rewrite Nat.add_0_r.
    - replace (n + S (length l))%nat with (S n + length l)%nat by lia.
      apply IH. pose proof (byte_val_range b).
      rewrite Nat2Z.inj_succ, Z.pow_succ_r by lia. lia. }
  apply (G bs 0 0%nat). simpl. lia.
Qed.

Lemma struct_pack_ok (w : nat) (x : Z) :
  0 <= x < 256 ^ Z.of_nat w -> struct_pack w x = Ok (be_bytes w x).
Proof.
  intros [H0 H1]. unfold struct_pack.
  apply Z.leb_le in H0. apply Z.ltb_lt in H1. now rewrite H0, H1.
Qed.

Lemma struct_pack_inv (w : nat) (x : Z) (b : bytes) :
  struct_pack w x = Ok b -> 0 <= x < 256 ^ Z.of_nat w /\ b = be_bytes w x.
Proof.
  unfold struct_pack.
  destruct (0 <=? x) eqn:H0; destruct (x <? 256 ^ Z.of_nat w) eqn:H1;
    simpl; intros E; inversion E.
  apply Z.leb_le in H0. apply Z.ltb_lt in H1. auto.
Qed.

(** ** UTF-8: decoding inverts encoding *)

Ltac zdm := Z.div_mod_to_equations; lia.

Ltac split_tests :=
  repeat match goal with
    | |- context [?a <? ?b] => destruct (Z.ltb_spec a b); try zdm
    | |- context [?a <=? ?b] => destruct (Z.leb_spec a b); try zdm
    end.

Lemma Some_eq {A} (a b : A) : Some a = Some b -> a = b.
Proof. congruence. Qed.

Lemma utf8_decode_cons1 (b0 : byte) (r : bytes) :
  byte_val b0 < 0x80 ->
  utf8_decode (b0 :: r) = option_map (cons (byte_val b0)) (utf8_decode r).
Proof.
  intros H. cbn [utf8_decode].
  destruct (Z.ltb_spec (byte_val b0) 0x80); [reflexivity | lia].
Qed.

Lemma utf8_cp_roundtrip (c : Z) (b rest : bytes) :
  utf8_encode_cp c = Some b ->
  utf8_decode (b ++ rest) = option_map (cons c) (utf8_decode rest).
Proof.
  unfold utf8_encode_cp.
  destruct (Z.ltb_spec c 0); [discriminate|].
  destruct (Z.ltb_spec c 0x80).
  { intros E; apply Some_eq in E; subst b. cbn [app].
    rewrite utf8_decode_cons1; rewrite byte_val_of_Z by lia; auto. }
  destruct (Z.ltb_spec c 0x800).
  { intros E; apply Some_eq in E; subst b. cbn [app utf8_decode].
    unfold is_cont.
    rewrite !byte_val_of_Z by zdm.
    split_tests. cbn [andb]. f_equal. f_equal. zdm. }
  destruct (Z.ltb_spec c 0x10000).
  { destruct (Z.leb_spec 0xD800 c); destruct (Z.leb_spec c 0xDFFF);
      cbn [andb]; try discriminate;
      (intros E; apply Some_eq in E; subst b; cbn [app utf8_decode];
       unfold is_cont; rewrite !byte_val_of_Z by zdm;
       replace ((0xE0 + c / 4096 - 0xE0) * 4096
                + (0x80 + (c / 64) mod 64 - 0x80) * 64
                + (0x80 + c mod 64 - 0x80)) with c by zdm;
       split_tests; cbn [andb negb]; reflexivity). }
  destruct (Z.ltb_spec c 0x110000); [|discriminate].
  intros E; apply Some_eq in E; subst b. cbn [app utf8_decode].
  unfold is_cont. rewrite !byte_val_of_Z by zdm.
  replace ((0xF0 + c / 262144 - 0xF0) * 262144
           + (0x80 + (c / 4096) mod 64 - 0x80) * 4096
           + (0x80 + (c / 64) mod 64 - 0x80) * 64
           + (0x80 + c mod 64 - 0x80)) with c by zdm.
  split_tests. cbn [andb]. reflexivity.
Qed.

Lemma utf8_roundtrip (s : pystr) (b : bytes) :
  utf8_encode s = Some b -> utf8_decode b = Some s.
Proof.
  revert b. induction s as [|c s IH]; intros b; simpl.
  - intros E; inversion E. reflexivity.
  - destruct (utf8_encode_cp c) as [bc|] eqn:Ec; [|discriminate].
    destruct (utf8_encode s) as [bs|] eqn:Es; [|discriminate].
    intros E; apply Some_eq in E; subst b.
    rewrite (utf8_cp_roundtrip _ _ _ Ec), (IH bs eq_refl). reflexivity.
Qed.

Lemma str_roundtrip (s : pystr) (b : bytes) :
  str_encode s = Ok b -> bytes_decode b = Ok s.
Proof.
  unfold str_encode, bytes_decode.
  destruct (utf8_encode s) as [b'|] eqn:E; intros H; inversion H; subst.
  now rewrite (utf8_roundtrip _ _ E).
Qed.

(** ** The cursor: what each read does *)



Lemma unpack_fixed (w : nat) (c : Cursor) :
  (Cursor.need w ;;
   v <- mlift (fun c => struct_unpack_from w (data c) (off c)) ;;
   advance w ;;
   mret v)%cur c = read_fixed w c.
Proof.
  unfold mbind, Cursor.need, mlift, struct_unpack_from, advance, mret, read_fixed.
  destruct (length (data c) <? off c + w)%nat eqn:E; [reflexivity|].
  rewrite E. reflexivity.
Qed.

Lemma u16_fixed (c : Cursor) : Cursor.u16 c = read_fixed 2 c.
Proof. apply unpack_fixed. Qed.

Lemma u32_fixed (c : Cursor) : Cursor.u32 c = read_fixed 4 c.
Proof. apply unpack_fixed. Qed.

Lemma u64_fixed (c : Cursor) : Cursor.u64 c = read_fixed 8 c.
Proof. apply unpack_fixed. Qed.

Lemma nth_error_slice1 {A} (l : list A) (i : nat) (a : A) :
  nth_error l i = Some a -> slice l i 1 = [a].
Proof.
  unfold slice. revert l. induction i as [|i IH]; intros [|x l]; simpl; try discriminate.
  - intros [= ->]. reflexivity.
  - apply IH.
Qed.

Lemma u8_fixed (c : Cursor) : Cursor.u8 c = read_fixed 1 c.
Proof.
  unfold Cursor.u8, mbind, Cursor.need, mlift, bytes_index, advance, mret, read_fixed.
  destruct (length (data c) <? off c + 1)%nat eqn:E; [reflexivity|].
  apply Nat.ltb_ge in E.
  destruct (nth_error (data c) (off c)) as [b|] eqn:Hn.
  - rewrite (nth_error_slice1 _ _ _ Hn). unfold be_value. simpl. reflexivity.
  - apply nth_error_None in Hn. lia.
Qed.

Lemma str_unfold (c : Cursor) :
  Cursor.str c =
  match read_fixed 2 c with
  | Err e => Err e
  | Ok (n, c1) =>
      if (length (data c1) <? off c1 + Z.to_nat n)%nat then Err truncated
      else match bytes_decode (slice (data c1) (off c1) (Z.to_nat n)) with
           | Ok s => Ok (s, mkCursor (data c1) (off c1 + Z.to_nat n))
           | Err e => Err e
           end
  end.
Proof.
  unfold Cursor.str, mbind. rewrite u16_fixed.
  destruct (read_fixed 2 c) as [[n c1]|e]; [|reflexivity].
  unfold Cursor.need, mlift, advance, mret.
  destruct (length (data c1) <? off c1 + Z.to_nat n)%nat; [reflexivity|].
  destruct (bytes_decode _); reflexivity.
Qed.

Lemma u32_list_unfold (c : Cursor) :
  Cursor.u32_list c =
  match read_fixed 2 c with
  | Err e => Err e
  | Ok (n, c1) => Cursor.u32_loop (Z.to_nat n) c1
  end.
Proof.
  unfold Cursor.u32_list, mbind. rewrite u16_fixed.
  destruct (read_fixed 2 c) as [[n c1]|e]; reflexivity.
Qed.

Lemma u32_loop_unfold (n : nat) (c : Cursor) :
  Cursor.u32_loop (S n) c =
  match read_fixed 4 c with
  | Err e => Err e
  | Ok (v, c1) =>
      match Cursor.u32_loop n c1 with
      | Err e => Err e
      | Ok (vs, c2) => Ok (v :: vs, c2)
      end
  end.
Proof.
  cbn [Cursor.u32_loop]. unfold mbind. rewrite u32_fixed.
  destruct (read_fixed 4 c) as [[v c1]|e]; [|reflexivity].
  destruct (Cursor.u32_loop n c1) as [[vs c2]|e]; reflexivity.
Qed.

(** *** Bounds safety *)


Lemma read_fixed_safe (w : nat) : bounds_safe (read_fixed w).
Proof.
  intros c Hc. unfold read_fixed.
  destruct (length (data c) <? off c + w)%nat eqn:E; [now left|].
  apply Nat.ltb_ge in E. simpl. split; [reflexivity | lia].
Qed.

Lemma mret_safe {A} (a : A) : bounds_safe (mret a).
Proof. intros c Hc. simpl. split; [reflexivity | lia]. Qed.

Lemma mbind_safe {A B} (m : M A) (k : A -> M B) :
  bounds_safe m -> (forall a, bounds_safe (k a)) -> bounds_safe (mbind m k).
Proof.
  intros Hm Hk c Hc. unfold mbind. specialize (Hm c Hc).
  destruct (m c) as [[a c1]|e]; [|exact Hm].
  destruct Hm as [Hd Ho].
  assert (Hc1 : (off c1 <= length (data c1))%nat) by (rewrite Hd; lia).
  specialize (Hk a c1 Hc1).
  destruct (k a c1) as [[b c2]|e]; [|exact Hk].
  destruct Hk as [Hd2 Ho2]. rewrite Hd in *. split; [congruence | lia].
Qed.

Lemma safe_ext {A} (m m' : M A) :
  (forall c, m c = m' c) -> bounds_safe m' -> bounds_safe m.
Proof. intros E H c Hc. rewrite E. now apply H. Qed.

Lemma u8_safe : bounds_safe Cursor.u8.
Proof. eapply safe_ext; [apply u8_fixed | apply read_fixed_safe]. Qed.

Lemma u16_safe : bounds_safe Cursor.u16.
Proof. eapply safe_ext; [apply u16_fixed | apply read_fixed_safe]. Qed.

Lemma u32_safe : bounds_safe Cursor.u32.
Proof. eapply safe_ext; [apply u32_fixed | apply read_fixed_safe]. Qed.

Lemma u64_safe : bounds_safe Cursor.u64.
Proof. eapply safe_ext; [apply u64_fixed | apply read_fixed_safe]. Qed.

Lemma str_safe : bounds_safe Cursor.str.
Proof.
  intros c Hc. rewrite str_unfold.
  pose proof (read_fixed_safe 2 c Hc) as H2.
  destruct (read_fixed 2 c) as [[n c1]|e]; [|exact H2].
  destruct H2 as [Hd Ho].
  destruct (length (data c1) <? off c1 + Z.to_nat n)%nat eqn:E; [now left|].
  apply Nat.ltb_ge in E.
  unfold bytes_decode. destruct (utf8_decode _).
  - simpl. rewrite Hd in *. split; [reflexivity | lia].
  - right. eauto.
Qed.

Lemma u32_loop_safe (n : nat) : bounds_safe (Cursor.u32_loop n).
Proof.
  induction n as [|n IH]; cbn [Cursor.u32_loop].
  - apply mret_safe.
  - apply mbind_safe; [apply u32_safe|]. intros v.
    apply mbind_safe; [apply IH|]. intros vs. apply mret_safe.
Qed.

Lemma u32_list_safe : bounds_safe Cursor.u32_list.
Proof.
  unfold Cursor.u32_list. apply mbind_safe; [apply u16_safe|].
  intros n. apply u32_loop_safe.
Qed.

(** *** Reading back what the packing helpers wrote *)

Lemma slice_at {A} (d : list A) (o : nat) (b post : list A) :
  skipn o d = b ++ post -> slice d o (length b) = b.
Proof.
  intros H. unfold slice. rewrite H, firstn_app, Nat.sub_diag, firstn_all.
  simpl. apply app_nil_r.
Qed.

Lemma skipn_at_length {A} (d : list A) (o : nat) (b post : list A) :
  skipn o d = b ++ post -> (length d - o = length b + length post)%nat.
Proof.
  intros H. apply (f_equal (@length A)) in H.
  rewrite length_skipn, length_app in H. exact H.
Qed.

Lemma skipn_next {A} (d : list A) (o : nat) (b post : list A) :
  skipn o d = b ++ post -> skipn (o + length b) d = post.
Proof.
  intros H. rewrite Nat.add_comm, <- skipn_skipn, H, skipn_app, Nat.sub_diag, skipn_all.
  reflexivity.
Qed.

Lemma read_fixed_at (w : nat) (d : bytes) (o : nat) (x : Z) (post : bytes) :
  (0 < w)%nat -> 0 <= x < 256 ^ Z.of_nat w ->
  skipn o d = be_bytes w x ++ post ->
  read_fixed w (mkCursor d o) = Ok (x, mkCursor d (o + w)).
Proof.
  intros Hw Hx H. unfold read_fixed. cbn [data off].
  pose proof (skipn_at_length _ _ _ _ H) as Hl. rewrite be_bytes_length in Hl.
  destruct (Nat.ltb_spec (length d) (o + w)); [lia|].
  pose proof (slice_at _ _ _ _ H) as Hs. rewrite be_bytes_length in Hs.
  rewrite Hs, be_value_bytes by assumption. reflexivity.
Qed.

Ltac pow_consts :=
  change (2 ^ 32) with 4294967296 in *;
  change (256 ^ Z.of_nat 1) with 256 in *;
  change (256 ^ Z.of_nat 2) with 65536 in *;
  change (256 ^ Z.of_nat 4) with 4294967296 in *;
  change (256 ^ Z.of_nat 8) with 18446744073709551616 in *.

Lemma pack_str_inv (s : pystr) (b : bytes) :
  pack_str s = Ok b ->
  exists bs, str_encode s = Ok bs /\ len bs <= 0xFFFF /\ b = be_bytes 2 (len bs) ++ bs.
Proof.
  unfold pack_str, rbind. destruct (str_encode s) as [bs|e]; [|discriminate].
  destruct (Z.gtb_spec (len bs) 0xFFFF); [discriminate|].
  unfold pack_u16. rewrite struct_pack_ok by (unfold len in *; pow_consts; lia).
  intros E. apply f_equal with (f := fun r => match r with Ok x => x | Err _ => [] end) in E.
  exists bs. repeat split; auto.
Qed.

Lemma pack_str_ok (s : pystr) (bs : bytes) :
  str_encode s = Ok bs -> len bs <= 0xFFFF ->
  pack_str s = Ok (be_bytes 2 (len bs) ++ bs).
Proof.
  intros E Hl. unfold pack_str, rbind. rewrite E.
  destruct (Z.gtb_spec (len bs) 0xFFFF); [lia|].
  unfold pack_u16. rewrite struct_pack_ok by (unfold len in *; pow_consts; lia).
  reflexivity.
Qed.

Lemma str_read_at (d : bytes) (o : nat) (s : pystr) (b post : bytes) :
  pack_str s = Ok b -> skipn o d = b ++ post ->
  Cursor.str (mkCursor d o) = Ok (s, mkCursor d (o + length b)).
Proof.
  intros Hp H. destruct (pack_str_inv _ _ Hp) as (bs & He & Hl & ->).
  rewrite <- app_assoc in H.
  rewrite str_unfold.
  assert (Hr : 0 <= len bs < 256 ^ Z.of_nat 2) by (unfold len in *; pow_consts; lia).
  rewrite (read_fixed_at 2 d o (len bs) (bs ++ post) ltac:(lia) Hr H).
  cbn [data off].
  pose proof (skipn_next _ _ _ _ H) as H2. rewrite be_bytes_length in H2.
  pose proof (skipn_at_length _ _ _ _ H2) as Hl2.
  unfold len. rewrite Nat2Z.id.
  pose proof (skipn_at_length _ _ _ _ H) as Hl1.
  rewrite be_bytes_length, length_app in Hl1.
  destruct (Nat.ltb_spec (length d) (o + 2 + length bs)); [lia|].
  rewrite (slice_at _ _ _ _ H2), (str_roundtrip _ _ He).
  rewrite length_app, be_bytes_length. do 2 f_equal. f_equal. lia.
Qed.

Lemma rmap_pack_u32_ok (xs : list Z) :
  Forall (fun x => 0 <= x < 2 ^ 32) xs ->
  rmap pack_u32 xs = Ok (map (be_bytes 4) xs).
Proof.
  induction 1 as [|x xs Hx _ IH]; simpl; [reflexivity|].
  unfold pack_u32 at 1. rewrite struct_pack_ok by (pow_consts; lia).
  rewrite IH. reflexivity.
Qed.

Lemma rmap_pack_u32_inv (xs : list Z) (items : list bytes) :
  rmap pack_u32 xs = Ok items ->
  Forall (fun x => 0 <= x < 2 ^ 32) xs /\ items = map (be_bytes 4) xs.
Proof.
  revert items. induction xs as [|x xs IH]; simpl; intros items.
  - intros [= <-]. auto.
  - unfold pack_u32 at 1. destruct (struct_pack 4 x) as [b|e] eqn:E; [|discriminate].
    destruct (rmap pack_u32 xs) as [bs|e]; [|discriminate].
    intros [= <-]. destruct (IH bs eq_refl) as [HF ->].
    apply struct_pack_inv in E. destruct E as [Hx ->].
    split; [constructor; [pow_consts; lia | exact HF] | reflexivity].
Qed.

Lemma u32_loop_read_at (xs : list Z) (d : bytes) (o : nat) (post : bytes) :
  Forall (fun x => 0 <= x < 2 ^ 32) xs ->
  skipn o d = concat (map (be_bytes 4) xs) ++ post ->
  Cursor.u32_loop (length xs) (mkCursor d o)
  = Ok (xs, mkCursor d (o + 4 * length xs)).
Proof.
  intros HF. revert o. induction HF as [|x xs Hx _ IH]; intros o H.
  - simpl. unfold mret. do 3 f_equal. lia.
  - cbn [length]. rewrite u32_loop_unfold.
    cbn [map concat] in H. rewrite <- app_assoc in H.
    assert (Hr : 0 <= x < 256 ^ Z.of_nat 4) by (pow_consts; lia).
    rewrite (read_fixed_at 4 d o x _ ltac:(lia) Hr H).
    pose proof (skipn_next _ _ _ _ H) as H2. rewrite be_bytes_length in H2.
    rewrite (IH _ H2). do 3 f_equal. lia.
Qed.

Lemma concat_be4_length (xs : list Z) :
  length (concat (map (be_bytes 4) xs)) = (4 * length xs)%nat.
Proof.
  induction xs as [|x xs IH]; [reflexivity|].
  cbn [map concat length]. rewrite length_app, be_bytes_length, IH. lia.
Qed.

Lemma pack_u32_list_inv (xs : list Z) (b : bytes) :
  pack_u32_list xs = Ok b ->
  len xs <= 0xFFFF /\ Forall (fun x => 0 <= x < 2 ^ 32) xs /\
  b = be_bytes 2 (len xs) ++ concat (map (be_bytes 4) xs).
Proof.
  unfold pack_u32_list.
  destruct (Z.gtb_spec (len xs) 0xFFFF); [discriminate|].
  unfold rbind, pack_u16.
  rewrite struct_pack_ok by (unfold len in *; pow_consts; lia).
  destruct (rmap pack_u32 xs) as [items|e] eqn:E; [|discriminate].
  destruct (rmap_pack_u32_inv _ _ E) as [HF ->].
  intros [= <-]. repeat split; auto.
Qed.

Lemma pack_u32_list_ok (xs : list Z) :
  len xs <= 0xFFFF -> Forall (fun x => 0 <= x < 2 ^ 32) xs ->
  pack_u32_list xs = Ok (be_bytes 2 (len xs) ++ concat (map (be_bytes 4) xs)).
Proof.
  intros Hl HF. unfold pack_u32_list.
  destruct (Z.gtb_spec (len xs) 0xFFFF); [lia|].
  unfold rbind, pack_u16.
  rewrite struct_pack_ok by (unfold len in *; pow_consts; lia).
  rewrite (rmap_pack_u32_ok _ HF). reflexivity.
Qed.

Lemma u32_list_read_at (d : bytes) (o : nat) (xs : list Z) (b post : bytes) :
  pack_u32_list xs = Ok b -> skipn o d = b ++ post ->
  Cursor.u32_list (mkCursor d o) = Ok (xs, mkCursor d (o + length b)).
Proof.
  intros Hp H. destruct (pack_u32_list_inv _ _ Hp) as (Hl & HF & ->).
  rewrite <- app_assoc in H.
  rewrite u32_list_unfold.
  assert (Hr : 0 <= len xs < 256 ^ Z.of_nat 2) by (unfold len in *; pow_consts; lia).
  rewrite (read_fixed_at 2 d o (len xs) _ ltac:(lia) Hr H).
  pose proof (skipn_next _ _ _ _ H) as H2. rewrite be_bytes_length in H2.
  unfold len at 1. rewrite Nat2Z.id, (u32_loop_read_at _ _ _ _ HF H2).
  rewrite length_app, be_bytes_length, concat_be4_length.
  do 3 f_equal. lia.
Qed.

Lemma fixed_read_at (w : nat) (d : bytes) (o : nat) (x : Z) (b post : bytes) :
  (0 < w)%nat -> struct_pack w x = Ok b -> skipn o d = b ++ post ->
  read_fixed w (mkCursor d o) = Ok (x, mkCursor d (o + length b)).
Proof.
  intros Hw Hp H. apply struct_pack_inv in Hp. destruct Hp as [Hx ->].
  rewrite be_bytes_length. now apply read_fixed_at with (post := post).
Qed.

(** *** Decoding a shortened buffer *)


Lemma slice_firstn {A} (d : list A) (o w k : nat) :
  (o + w <= k)%nat -> slice (firstn k d) o w = slice d o w.
Proof.
  intros H. unfold slice.
  rewrite !firstn_skipn_comm, firstn_firstn. f_equal. f_equal. lia.
Qed.

Lemma read_fixed_stable (w : nat) : prefix_stable (read_fixed w).
Proof.
  intros d o v c' Ho. unfold read_fixed. cbn [data off].
  destruct (Nat.ltb_spec (length d) (o + w)); [discriminate|].
  intros [= <- <-] k Hk. cbn [off]. rewrite length_firstn. split; intros Hc.
  - destruct (Nat.ltb_spec (Nat.min k (length d)) (o + w)); [lia|].
    now rewrite slice_firstn.
  - destruct (Nat.ltb_spec (Nat.min k (length d)) (o + w)); [reflexivity | lia].
Qed.

Lemma mret_stable {A} (a : A) : prefix_stable (mret a).
Proof.
  intros d o v c' Ho. unfold mret. intros [= <- <-] k Hk. cbn [off].
  split; [reflexivity | lia].
Qed.

Lemma mbind_stable {A B} (m : M A) (k : A -> M B) :
  bounds_safe m -> prefix_stable m ->
  (forall a, bounds_safe (k a)) -> (forall a, prefix_stable (k a)) ->
  prefix_stable (mbind m k).
Proof.
  intros Sm Pm Sk Pk d o v c' Ho. unfold mbind.
  pose proof (Sm (mkCursor d o) Ho) as S1.
  destruct (m (mkCursor d o)) as [[a [d1 o1]]|e] eqn:E1; [|discriminate].
  cbn [data off] in S1. destruct S1 as [-> Ho1].
  intros E2 K HK.
  pose proof (Sk a (mkCursor d o1) ltac:(cbn; lia)) as S2. rewrite E2 in S2.
  cbn [data off] in S2. destruct S2 as [_ Ho2].
  destruct (Pm d o a _ Ho E1 K HK) as [P1 P1'].
  cbn [off] in P1, P1'.
  destruct (Nat.le_gt_cases o1 K) as [H1|H1].
  - rewrite (P1 H1).
    destruct (Pk a d o1 v c' ltac:(lia) E2 K H1) as [P2 P2'].
    split; assumption.
  - rewrite (P1' H1). split; [lia | reflexivity].
Qed.

Lemma stable_ext {A} (m m' : M A) :
  (forall c, m c = m' c) -> prefix_stable m' -> prefix_stable m.
Proof.
  intros E H d o v c' Ho Hm k Hk. rewrite !E. rewrite E in Hm.
  now apply H.
Qed.

Lemma u16_stable : prefix_stable Cursor.u16.
Proof. eapply stable_ext; [apply u16_fixed | apply read_fixed_stable]. Qed.

Lemma u32_stable : prefix_stable Cursor.u32.
Proof. eapply stable_ext; [apply u32_fixed | apply read_fixed_stable]. Qed.

Lemma u64_stable : prefix_stable Cursor.u64.
Proof. eapply stable_ext; [apply u64_fixed | apply read_fixed_stable]. Qed.

Lemma str_stable : prefix_stable Cursor.str.
Proof.
  intros d o v c' Ho. rewrite str_unfold.
  pose proof (read_fixed_safe 2 (mkCursor d o) Ho) as S1.
  destruct (read_fixed 2 (mkCursor d o)) as [[n [d1 o1]]|e] eqn:E1; [|discriminate].
  cbn [data off] in *. destruct S1 as [-> Ho1].
  destruct (Nat.ltb_spec (length d) (o1 + Z.to_nat n)); [discriminate|].
  destruct (bytes_decode (slice d o1 (Z.to_nat n))) as [s|e] eqn:Ed; [|discriminate].
  intros [= <- <-] K HK. cbn [off].
  rewrite str_unfold.
  destruct (read_fixed_stable 2 d o n _ Ho E1 K HK) as [P1 P1']. cbn [off] in P1, P1'.
  destruct (Nat.le_gt_cases o1 K) as [H1|H1].
  - rewrite (P1 H1). cbn [data off]. rewrite length_firstn. split; intros Hc.
    + destruct (Nat.ltb_spec (Nat.min K (length d)) (o1 + Z.to_nat n)); [lia|].
      rewrite slice_firstn by lia. now rewrite Ed.
    + destruct (Nat.ltb_spec (Nat.min K (length d)) (o1 + Z.to_nat n));
        [reflexivity | lia].
  - rewrite (P1' H1). split; [lia | reflexivity].
Qed.

Lemma read_register_user_req_ok :
  bounds_safe read_register_user_req /\ prefix_stable read_register_user_req.
Proof.
  unfold read_register_user_req. split.
  - apply mbind_safe; [apply str_safe|]; intros name.
    apply mbind_safe; [apply u16_safe|]; intros port. apply mret_safe.
  - apply mbind_stable; [apply str_safe | apply str_stable | |]; intros name.
    + apply mbind_safe; [apply u16_safe|]; intros port. apply mret_safe.
    + apply mbind_stable;
        [apply u16_safe | apply u16_stable | |]; intros port;
        [apply mret_safe | apply mret_stable].
Qed.

Ltac behaved :=
  repeat first
    [ apply mret_safe | apply mret_stable
    | apply str_safe | apply str_stable
    | apply u16_safe | apply u16_stable
    | apply u32_safe | apply u32_stable
    | apply u64_safe | apply u64_stable
    | apply mbind_safe | apply mbind_stable
    | intro ].

Lemma read_register_disk_req_ok :
  bounds_safe read_register_disk_req /\ prefix_stable read_register_disk_req.
Proof. unfold read_register_disk_req. split; behaved. Qed.

Lemma read_configure_req_ok :
  bounds_safe read_configure_req /\ prefix_stable read_configure_req.
Proof. unfold read_configure_req. split; behaved. Qed.

(** A decoder that consumed the whole payload fails with the
    truncated-payload error once the last byte is removed. *)
Lemma cut_last_byte {A} (m : M A) (p : bytes) (v : A) :
  prefix_stable m ->
  p <> [] ->
  m (new_Cursor p) = Ok (v, mkCursor p (length p)) ->
  run_cursor m (removelast p) = Err truncated.
Proof.
  intros Pm Hp E. unfold run_cursor, new_Cursor in *.
  rewrite removelast_firstn_len.
  assert (Hlen : (0 < length p)%nat) by (destruct p; [congruence | simpl; lia]).
  destruct (Pm p 0%nat v _ ltac:(lia) E (Nat.pred (length p)) ltac:(lia)) as [_ P].
  cbn [off] in P. rewrite P by lia. reflexivity.
Qed.

(** The request encoders write exactly what the matching decoder reads. *)

Lemma radd_inv (a b : result bytes) (p : bytes) :
  a +++ b = Ok p -> exists x y, a = Ok x /\ b = Ok y /\ p = x ++ y.
Proof.
  unfold radd, rbind. destruct a as [x|e]; [|discriminate].
  destruct b as [y|e]; [|discriminate]. intros [= <-]. eauto.
Qed.

Lemma pack_length (w : nat) (x : Z) (b : bytes) :
  struct_pack w x = Ok b -> length b = w.
Proof.
  intros H. apply struct_pack_inv in H. destruct H as [_ ->].
  apply be_bytes_length.
Qed.

Lemma register_user_req_exact (name : pystr) (listen_port : Z) (p : bytes) :
  enc_register_user_req name listen_port = Ok p ->
  read_register_user_req (new_Cursor p)
  = Ok ((name, listen_port), mkCursor p (length p)).
Proof.
  unfold enc_register_user_req. intros H.
  destruct (radd_inv _ _ _ H) as (b1 & b2 & H1 & H2 & ->).
  unfold read_register_user_req, mbind, new_Cursor.
  rewrite (str_read_at (b1 ++ b2) 0 name b1 b2 H1 eq_refl).
  rewrite u16_fixed.
  rewrite (fixed_read_at 2 (b1 ++ b2) (0 + length b1) listen_port b2 []
             ltac:(lia) H2).
  - unfold mret. rewrite length_app. reflexivity.
  - rewrite Nat.add_0_l, skipn_app, Nat.sub_diag, skipn_all. simpl.
    now rewrite app_nil_r.
Qed.

Lemma register_disk_req_exact (name : pystr) (listen_port cap : Z) (zone : pystr)
    (p : bytes) :
  enc_register_disk_req name listen_port cap zone = Ok p ->
  read_register_disk_req (new_Cursor p)
  = Ok ((name, listen_port, cap, zone), mkCursor p (length p)).
Proof.
  unfold enc_register_disk_req. intros H.
  destruct (radd_inv _ _ _ H) as (b1 & r1 & H1 & H' & ->). clear H.
  destruct (radd_inv _ _ _ H') as (b2 & r2 & H2 & H'' & ->). clear H'.
  destruct (radd_inv _ _ _ H'') as (b3 & b4 & H3 & H4 & ->). clear H''.
  set (p := b1 ++ b2 ++ b3 ++ b4).
  assert (S1 : skipn 0 p = b1 ++ b2 ++ b3 ++ b4) by reflexivity.
  pose proof (skipn_next _ _ _ _ S1) as S2.
  pose proof (skipn_next _ _ _ _ S2) as S3.
  pose proof (skipn_next _ _ _ _ S3) as S4.
  rewrite <- (app_nil_r b4) in S4.
  unfold read_register_disk_req, mbind, new_Cursor.
  rewrite (str_read_at _ _ _ _ _ H1 S1).
  rewrite u16_fixed, (fixed_read_at 2 _ _ _ _ _ ltac:(lia) H2 S2).
  rewrite u64_fixed, (fixed_read_at 8 _ _ _ _ _ ltac:(lia) H3 S3).
  rewrite (str_read_at _ _ _ _ _ H4 S4).
  unfold mret, p. rewrite !length_app. do 3 f_equal. lia.
Qed.

Lemma configure_req_exact (n : Z) (policy constraints_json : pystr) (p : bytes) :
  enc_configure_req n policy constraints_json = Ok p ->
  read_configure_req (new_Cursor p)
  = Ok ((n, policy, constraints_json), mkCursor p (length p)).
Proof.
  unfold enc_configure_req. intros H.
  destruct (radd_inv _ _ _ H) as (b1 & r1 & H1 & H' & ->). clear H.
  destruct (radd_inv _ _ _ H') as (b2 & b3 & H2 & H3 & ->). clear H'.
  set (p := b1 ++ b2 ++ b3).
  assert (S1 : skipn 0 p = b1 ++ b2 ++ b3) by reflexivity.
  pose proof (skipn_next _ _ _ _ S1) as S2.
  pose proof (skipn_next _ _ _ _ S2) as S3.
  rewrite <- (app_nil_r b3) in S3.
  unfold read_configure_req, mbind, new_Cursor.
  rewrite u16_fixed, (fixed_read_at 2 _ _ _ _ _ ltac:(lia) H1 S1).
  rewrite (str_read_at _ _ _ _ _ H2 S2).
  rewrite (str_read_at _ _ _ _ _ H3 S3).
  unfold mret, p. rewrite !length_app. do 3 f_equal. lia.
Qed.

Lemma u32_req_exact (x : Z) (p : bytes) :
  pack_u32 x = Ok p ->
  Cursor.u32 (new_Cursor p) = Ok (x, mkCursor p (length p)).
Proof.
  intros H. unfold new_Cursor.
  assert (S1 : skipn 0 p = p ++ []) by (now rewrite app_nil_r).
  rewrite u32_fixed, (fixed_read_at 4 _ _ _ _ _ ltac:(lia) H S1).
  reflexivity.
Qed.

Lemma pack_nonempty (w : nat) (x : Z) (b : bytes) :
  (0 < w)%nat -> struct_pack w x = Ok b -> b <> [].
Proof.
  intros Hw H E. apply pack_length in H. subst b. simpl in H. lia.
Qed.

Lemma pack_str_nonempty (s : pystr) (b : bytes) : pack_str s = Ok b -> b <> [].
Proof.
  intros H E. destruct (pack_str_inv _ _ H) as (bs & _ & _ & ->).
  discriminate.
Qed.

Lemma app_nonempty_l {A} (a b : list A) : a <> [] -> a ++ b <> [].
Proof. destruct a; [congruence | discriminate]. Qed.

Lemma register_user_req_cut (name : pystr) (listen_port : Z) (p : bytes) :
  enc_register_user_req name listen_port = Ok p ->
  dec_register_user_req (removelast p) = Err truncated.
Proof.
  intros H. unfold dec_register_user_req.
  apply cut_last_byte with (v := (name, listen_port)).
  - apply read_register_user_req_ok.
  - unfold enc_register_user_req in H.
    destruct (radd_inv _ _ _ H) as (b1 & b2 & H1 & _ & ->).
    apply app_nonempty_l, (pack_str_nonempty _ _ H1).
  - now apply register_user_req_exact.
Qed.

Lemma register_disk_req_cut (name : pystr) (listen_port cap : Z) (zone : pystr)
    (p : bytes) :
  enc_register_disk_req name listen_port cap zone = Ok p ->
  dec_register_disk_req (removelast p) = Err truncated.
Proof.
  intros H. unfold dec_register_disk_req.
  apply cut_last_byte with (v := (name, listen_port, cap, zone)).
  - apply read_register_disk_req_ok.
  - unfold enc_register_disk_req in H.
    destruct (radd_inv _ _ _ H) as (b1 & b2 & H1 & _ & ->).
    apply app_nonempty_l, (pack_str_nonempty _ _ H1).
  - now apply register_disk_req_exact.
Qed.

Lemma configure_req_cut (n : Z) (policy constraints_json : pystr) (p : bytes) :
  enc_configure_req n policy constraints_json = Ok p ->
  dec_configure_req (removelast p) = Err truncated.
Proof.
  intros H. unfold dec_configure_req.
  apply cut_last_byte with (v := (n, policy, constraints_json)).
  - apply read_configure_req_ok.
  - unfold enc_configure_req in H.
    destruct (radd_inv _ _ _ H) as (b1 & b2 & H1 & _ & ->).
    apply app_nonempty_l, (pack_nonempty 2 _ _ ltac:(lia) H1).
  - now apply configure_req_exact.
Qed.

Lemma u32_req_cut (x : Z) (p : bytes) :
  pack_u32 x = Ok p -> run_cursor Cursor.u32 (removelast p) = Err truncated.
Proof.
  intros H. apply cut_last_byte with (v := x).
  - apply u32_stable.
  - apply (pack_nonempty 4 _ _ ltac:(lia) H).
  - now apply u32_req_exact.
Qed.

(** ** The registry *)

Lemma dict_set_fresh {V} (k : Z) (v : V) (d : dict V) :
  Forall (fun k' => k' < k) (dict_keys d) -> dict_set k v d = d ++ [(k, v)].
Proof.
  induction d as [|[k' v'] d IH]; simpl; intros H; [reflexivity|].
  inversion H; subst.
  destruct (Z.eqb_spec k' k); [lia|]. now rewrite IH.
Qed.

Lemma dict_pop_incl {V} (k : Z) (d : dict V) :
  incl (snd (dict_pop k d)) d.
Proof.
  induction d as [|[k' v'] d IH]; simpl; [apply incl_refl|].
  destruct (k' =? k); [apply incl_tl, incl_refl|].
  destruct (dict_pop k d) as [r d'']. simpl in *.
  apply incl_cons; [now left | now apply incl_tl].
Qed.

Lemma dict_pop_sorted {V} (k : Z) (d : dict V) :
  StronglySorted Z.lt (dict_keys d) ->
  StronglySorted Z.lt (dict_keys (snd (dict_pop k d))).
Proof.
  induction d as [|[k' v'] d IH]; simpl; intros H; [constructor|].
  inversion H as [|? ? Hs Hf]; subst.
  destruct (k' =? k); [exact Hs|].
  specialize (IH Hs).
  destruct (dict_pop k d) as [r d''] eqn:E. simpl in *.
  constructor; [exact IH|].
  rewrite Forall_forall in *. intros x Hx. apply Hf.
  unfold dict_keys in *. apply in_map_iff in Hx. destruct Hx as ([a b] & <- & Hin).
  apply in_map_iff. exists (a, b). split; [reflexivity|].
  pose proof (dict_pop_incl k d) as Hi. rewrite E in Hi. now apply Hi.
Qed.

Lemma dict_pop_found {V} (k : Z) (d : dict V) :
  (exists v, fst (dict_pop k d) = Some v) <-> registered k d.
Proof.
  unfold registered, dict_keys.
  induction d as [|[k' v'] d IH]; simpl.
  - split; [intros [v Hv]; discriminate | tauto].
  - destruct (Z.eqb_spec k' k).
    + split; [intros _; now left | intros _; now exists v'].
    + destruct (dict_pop k d) as [r d'']. simpl in *. rewrite IH. tauto.
Qed.

Lemma dict_pop_absent {V} (k : Z) (d : dict V) :
  ~ registered k d -> dict_pop k d = (None, d).
Proof.
  unfold registered, dict_keys.
  induction d as [|[k' v'] d IH]; simpl; intros H; [reflexivity|].
  destruct (Z.eqb_spec k' k); [tauto|].
  rewrite IH by tauto. reflexivity.
Qed.

Lemma dict_pop_removed {V} (k : Z) (d : dict V) :
  StronglySorted Z.lt (dict_keys d) -> ~ registered k (snd (dict_pop k d)).
Proof.
  unfold registered, dict_keys.
  induction d as [|[k' v'] d IH]; simpl; intros H; [tauto|].
  inversion H as [|? ? Hs Hf]; subst.
  destruct (Z.eqb_spec k' k).
  - subst. intros Hin. rewrite Forall_forall in Hf. specialize (Hf _ Hin). lia.
  - specialize (IH Hs). destruct (dict_pop k d) as [r d'']. simpl in *.
    intros [E|Hin]; [congruence | tauto].
Qed.

Lemma dict_pop_others {V} (k k' : Z) (d : dict V) :
  k' <> k -> dict_get k' (snd (dict_pop k d)) = dict_get k' d.
Proof.
  intros Hk. unfold dict_get.
  induction d as [|[k0 v0] d IH]; simpl; [reflexivity|].
  destruct (Z.eqb_spec k0 k).
  - subst. destruct (Z.eqb_spec k k'); [congruence | reflexivity].
  - destruct (dict_pop k d) as [r d'']. simpl in *.
    destruct (k0 =? k'); [reflexivity | exact IH].
Qed.

Lemma sorted_snoc (l : list Z) (k : Z) :
  StronglySorted Z.lt l -> Forall (fun x => x < k) l ->
  StronglySorted Z.lt (l ++ [k]).
Proof.
  induction 1 as [|a l Hs IH Hf]; intros Hk; simpl.
  - repeat constructor.
  - inversion Hk; subst. constructor; [now apply IH|].
    apply Forall_app. split; [exact Hf | now repeat constructor].
Qed.

Lemma Forall_below_weaken (l : list Z) (a b : Z) :
  a <= b -> Forall (fun k => 1 <= k < a) l -> Forall (fun k => 1 <= k < b) l.
Proof. intros Hab. apply Forall_impl. intros; lia. Qed.

Lemma new_Registry_inv : registry_inv new_Registry.
Proof. constructor; simpl; try lia; constructor. Qed.

Lemma Forall_incl {A} (P : A -> Prop) (l l' : list A) :
  incl l l' -> Forall P l' -> Forall P l.
Proof. intros Hi H. rewrite Forall_forall in *. auto. Qed.

Lemma keys_incl {V} (d d' : dict V) : incl d d' -> incl (dict_keys d) (dict_keys d').
Proof. apply incl_map. Qed.

Lemma apply_op_inv (op : reg_op) (r : Registry) :
  registry_inv r -> registry_inv (apply_op op r).
Proof.
  intros [Hu Hd Hs Us Ds Ub Db Uk Dk].
  destruct op as [name addr port|uid|name addr port cap zone|did|n|]; simpl.
  - assert (Hf : Forall (fun k' => k' < next_user_id r) (dict_keys (users r)))
      by (revert Ub; apply Forall_impl; intros; lia).
    constructor; simpl; try lia; auto; rewrite ?dict_set_fresh by exact Hf.
    + unfold dict_keys. rewrite map_app. now apply sorted_snoc.
    + unfold dict_keys. rewrite map_app. apply Forall_app. split.
      * revert Ub. apply Forall_below_weaken. lia.
      * repeat constructor; simpl; lia.
    + apply Forall_app. split; [exact Uk | now repeat constructor].
  - unfold deregister_user.
    pose proof (dict_pop_sorted uid (users r) Us) as S.
    pose proof (dict_pop_incl uid (users r)) as I.
    destruct (dict_pop uid (users r)) as [v us]. simpl in *.
    constructor; simpl; auto.
    + exact (Forall_incl _ _ _ (keys_incl _ _ I) Ub).
    + exact (Forall_incl _ _ _ I Uk).
  - assert (Hf : Forall (fun k' => k' < next_disk_id r) (dict_keys (disks r)))
      by (revert Db; apply Forall_impl; intros; lia).
    constructor; simpl; try lia; auto; rewrite ?dict_set_fresh by exact Hf.
    + unfold dict_keys. rewrite map_app. now apply sorted_snoc.
    + unfold dict_keys. rewrite map_app. apply Forall_app. split.
      * revert Db. apply Forall_below_weaken. lia.
      * repeat constructor; simpl; lia.
    + apply Forall_app. split; [exact Dk | now repeat constructor].
  - unfold deregister_disk.
    pose proof (dict_pop_sorted did (disks r) Ds) as S.
    pose proof (dict_pop_incl did (disks r)) as I.
    destruct (dict_pop did (disks r)) as [v ds]. simpl in *.
    constructor; simpl; auto.
    + exact (Forall_incl _ _ _ (keys_incl _ _ I) Db).
    + exact (Forall_incl _ _ _ I Dk).
  - unfold allocate_disks. destruct (_ <? n); simpl; now constructor.
  - constructor; simpl; auto; lia.
Qed.

Lemma run_ops_inv (ops : list reg_op) (r : Registry) :
  registry_inv r -> registry_inv (run_ops ops r).
Proof.
  unfold run_ops. revert r. induction ops as [|op ops IH]; simpl; intros r H.
  - exact H.
  - apply IH, apply_op_inv, H.
Qed.

Lemma run_ops_app (a b : list reg_op) (r : Registry) :
  run_ops (a ++ b) r = run_ops b (run_ops a r).
Proof. unfold run_ops. apply fold_left_app. Qed.


(** *** Ids handed out by registrations *)

Lemma count_from_S (a : Z) (n : nat) :
  count_from a (S n) = a :: count_from (a + 1) n.
Proof.
  unfold count_from. cbn [seq map]. f_equal; [lia|].
  rewrite <- seq_shift, map_map. apply map_ext. intros i. lia.
Qed.

Lemma count_from_lower (a : Z) (n : nat) :
  Forall (fun x => a <= x) (count_from a n).
Proof.
  revert a. induction n as [|n IH]; intros a; [constructor|].
  rewrite count_from_S. constructor; [lia|].
  specialize (IH (a + 1)). revert IH. apply Forall_impl. intros; lia.
Qed.

Lemma count_from_upper (a : Z) (n : nat) (x : Z) :
  In x (count_from a n) -> x < a + Z.of_nat n.
Proof.
  unfold count_from. rewrite in_map_iff. intros (i & <- & Hi).
  apply in_seq in Hi. lia.
Qed.

Lemma count_from_sorted (a : Z) (n : nat) :
  StronglySorted Z.lt (count_from a n).
Proof.
  revert a. induction n as [|n IH]; intros a; [constructor|].
  rewrite count_from_S. constructor; [apply IH|].
  pose proof (count_from_lower (a + 1) n) as H. revert H.
  apply Forall_impl. intros; lia.
Qed.

Lemma sorted_NoDup (l : list Z) : StronglySorted Z.lt l -> NoDup l.
Proof.
  induction 1 as [|a l Hs IH Hf]; constructor; [|exact IH].
  intros Hin. rewrite Forall_forall in Hf. specialize (Hf a Hin). lia.
Qed.

Lemma next_user_id_other (op : reg_op) (r : Registry) :
  is_register_user op = false -> next_user_id (apply_op op r) = next_user_id r.
Proof.
  destruct op; simpl; try discriminate; intros _; try reflexivity.
  - unfold deregister_user. destruct (dict_pop _ _). reflexivity.
  - unfold deregister_disk. destruct (dict_pop _ _). reflexivity.
  - unfold allocate_disks. destruct (_ <? _); reflexivity.
Qed.

Lemma next_disk_id_other (op : reg_op) (r : Registry) :
  is_register_disk op = false -> next_disk_id (apply_op op r) = next_disk_id r.
Proof.
  destruct op; simpl; try discriminate; intros _; try reflexivity.
  - unfold deregister_user. destruct (dict_pop _ _). reflexivity.
  - unfold deregister_disk. destruct (dict_pop _ _). reflexivity.
  - unfold allocate_disks. destruct (_ <? _); reflexivity.
Qed.

Lemma user_ids_count (ops : list reg_op) (r : Registry) :
  user_ids ops r
  = count_from (next_user_id r) (length (filter is_register_user ops)).
Proof.
  revert r. induction ops as [|op ops IH]; intros r; [reflexivity|].
  destruct op; cbn [user_ids filter is_register_user length];
    try (rewrite IH, next_user_id_other by reflexivity; reflexivity).
  unfold register_user. rewrite IH, count_from_S. reflexivity.
Qed.

Lemma disk_ids_count (ops : list reg_op) (r : Registry) :
  disk_ids ops r
  = count_from (next_disk_id r) (length (filter is_register_disk ops)).
Proof.
  revert r. induction ops as [|op ops IH]; intros r; [reflexivity|].
  destruct op; cbn [disk_ids filter is_register_disk length];
    try (rewrite IH, next_disk_id_other by reflexivity; reflexivity).
  unfold register_disk. rewrite IH, count_from_S. reflexivity.
Qed.

Lemma next_user_id_run (ops : list reg_op) (r : Registry) :
  next_user_id (run_ops ops r)
  = next_user_id r + Z.of_nat (length (filter is_register_user ops)).
Proof.
  unfold run_ops. revert r. induction ops as [|op ops IH]; intros r.
  - simpl. lia.
  - cbn [fold_left filter]. rewrite IH.
    destruct (is_register_user op) eqn:E.
    + destruct op; try discriminate. cbn [apply_op register_user snd next_user_id length].
      lia.
    + now rewrite next_user_id_other.
Qed.

Lemma next_disk_id_run (ops : list reg_op) (r : Registry) :
  next_disk_id (run_ops ops r)
  = next_disk_id r + Z.of_nat (length (filter is_register_disk ops)).
Proof.
  unfold run_ops. revert r. induction ops as [|op ops IH]; intros r.
  - simpl. lia.
  - cbn [fold_left filter]. rewrite IH.
    destruct (is_register_disk op) eqn:E.
    + destruct op; try discriminate. cbn [apply_op register_disk snd next_disk_id length].
      lia.
    + now rewrite next_disk_id_other.
Qed.

Lemma counters_grow (op : reg_op) (r : Registry) :
  next_user_id r <= next_user_id (apply_op op r) /\
  next_disk_id r <= next_disk_id (apply_op op r) /\
  next_dss_id r <= next_dss_id (apply_op op r).
Proof.
  destruct op; simpl; try lia.
  - unfold deregister_user. destruct (dict_pop _ _). simpl. lia.
  - unfold deregister_disk. destruct (dict_pop _ _). simpl. lia.
  - unfold allocate_disks. destruct (_ <? _); simpl; lia.
Qed.

Lemma counters_grow_run (ops : list reg_op) (r : Registry) :
  next_user_id r <= next_user_id (run_ops ops r) /\
  next_disk_id r <= next_disk_id (run_ops ops r) /\
  next_dss_id r <= next_dss_id (run_ops ops r).
Proof.
  unfold run_ops. revert r. induction ops as [|op ops IH]; intros r; simpl; [lia|].
  pose proof (counters_grow op r). specialize (IH (apply_op op r)). lia.
Qed.

Lemma deregister_user_true (uid : Z) (r : Registry) :
  fst (deregister_user uid r) = true <-> registered uid (users r).
Proof.
  unfold deregister_user. rewrite <- dict_pop_found.
  destruct (dict_pop uid (users r)) as [[v|] us]; simpl.
  - split; eauto.
  - split; [discriminate | intros [v Hv]; discriminate].
Qed.

Lemma deregister_disk_true (did : Z) (r : Registry) :
  fst (deregister_disk did r) = true <-> registered did (disks r).
Proof.
  unfold deregister_disk. rewrite <- dict_pop_found.
  destruct (dict_pop did (disks r)) as [[v|] ds]; simpl.
  - split; eauto.
  - split; [discriminate | intros [v Hv]; discriminate].
Qed.

Lemma user_id_not_reissued (r : Registry) (K : Z) (post : list reg_op) :
  registry_inv r -> registered K (users r) ->
  ~ In K (user_ids post (snd (deregister_user K r))).
Proof.
  intros I HK Hin. rewrite user_ids_count in Hin.
  pose proof (count_from_lower (next_user_id (snd (deregister_user K r)))
                (length (filter is_register_user post))) as L.
  rewrite Forall_forall in L. specialize (L K Hin).
  change (snd (deregister_user K r)) with (apply_op (DeregisterUser K) r) in L.
  rewrite (next_user_id_other (DeregisterUser K) r eq_refl) in L.
  pose proof (inv_users_below r I) as B. rewrite Forall_forall in B.
  specialize (B K HK). lia.
Qed.

Lemma disk_id_not_reissued (r : Registry) (K : Z) (post : list reg_op) :
  registry_inv r -> registered K (disks r) ->
  ~ In K (disk_ids post (snd (deregister_disk K r))).
Proof.
  intros I HK Hin. rewrite disk_ids_count in Hin.
  pose proof (count_from_lower (next_disk_id (snd (deregister_disk K r)))
                (length (filter is_register_disk post))) as L.
  rewrite Forall_forall in L. specialize (L K Hin).
  change (snd (deregister_disk K r)) with (apply_op (DeregisterDisk K) r) in L.
  rewrite (next_disk_id_other (DeregisterDisk K) r eq_refl) in L.
  pose proof (inv_disks_below r I) as B. rewrite Forall_forall in B.
  specialize (B K HK). lia.
Qed.

(** *** Allocation *)

Lemma sorted_same_members (l l' : list Z) :
  StronglySorted Z.lt l -> StronglySorted Z.lt l' ->
  (forall k, In k l <-> In k l') -> l = l'.
Proof.
  intros Hl. revert l'. induction Hl as [|a l Hs IH Hf]; intros l' Hl' Hm.
  - destruct l' as [|b l']; [reflexivity|].
    exfalso. apply (proj2 (Hm b)). now left.
  - destruct Hl' as [|b l' Hs' Hf'].
    + exfalso. apply (proj1 (Hm a)). now left.
    + rewrite Forall_forall in Hf, Hf'.
      assert (a = b).
      { destruct (proj1 (Hm a) (or_introl eq_refl)) as [E|Ha]; [auto|].
        destruct (proj2 (Hm b) (or_introl eq_refl)) as [E|Hb]; [auto|].
        specialize (Hf _ Hb). specialize (Hf' _ Ha). lia. }
      subst b. f_equal. apply IH; [exact Hs'|].
      intros k. split; intros Hk.
      * destruct (proj1 (Hm k) (or_intror Hk)) as [E|H']; [|exact H'].
        subst k. specialize (Hf _ Hk). lia.
      * destruct (proj2 (Hm k) (or_intror Hk)) as [E|H']; [|exact H'].
        subst k. specialize (Hf' _ Hk). lia.
Qed.

Lemma ready_is_keys (d : dict disk_rec) :
  Forall (fun kv => disk_id (snd kv) = fst kv) d ->
  map disk_id (dict_values d) = dict_keys d.
Proof.
  unfold dict_values, dict_keys. induction 1 as [|kv d Hk _ IH]; simpl; [reflexivity|].
  now rewrite Hk, IH.
Qed.

Lemma allocate_disks_sorted (r : Registry) (ds : list Z) (n : Z) :
  registry_inv r ->
  StronglySorted Z.lt ds -> (forall k, In k ds <-> registered k (disks r)) ->
  (1 <= n <= len ds ->
   allocate_disks n r = (Some (firstn (Z.to_nat n) ds), r)) /\
  (len ds < n -> allocate_disks n r = (None, r)).
Proof.
  intros I Hs Hm.
  assert (E : map disk_id (dict_values (disks r)) = ds).
  { rewrite (ready_is_keys _ (inv_disk_key r I)). symmetry.
    apply sorted_same_members; [exact Hs | apply (inv_disks_sorted r I) | exact Hm]. }
  unfold allocate_disks. rewrite E. split; intros Hn.
  - destruct (Z.ltb_spec (len ds) n); [lia|].
    unfold slice_to. destruct (Z.ltb_spec n 0); [lia | reflexivity].
  - destruct (Z.ltb_spec (len ds) n); [reflexivity | lia].
Qed.

Lemma allocate_disks_frame (n : Z) (r : Registry) : snd (allocate_disks n r) = r.
Proof. unfold allocate_disks. destruct (_ <? n); reflexivity. Qed.

(** ** The dispatcher *)

Lemma read_fixed_range (w : nat) (c : Cursor) (v : Z) (c' : Cursor) :
  read_fixed w c = Ok (v, c') -> 0 <= v < 256 ^ Z.of_nat w.
Proof.
  unfold read_fixed. destruct (Nat.ltb_spec (length (data c)) (off c + w));
    [discriminate|].
  intros [= <- _].
  pose proof (be_value_range (slice (data c) (off c) w)) as R.
  assert (L : len (slice (data c) (off c) w) = Z.of_nat w).
  { unfold len, slice. rewrite length_firstn, length_skipn. lia. }
  now rewrite L in R.
Qed.

Lemma dec_register_user_req_range (pb : bytes) (name : pystr) (port : Z) :
  dec_register_user_req pb = Ok (name, port) -> 0 <= port < 65536.
Proof.
  unfold dec_register_user_req, run_cursor, read_register_user_req, mbind, mret.
  destruct (Cursor.str _) as [[nm c1]|e]; [|discriminate].
  rewrite u16_fixed. destruct (read_fixed 2 c1) as [[v c2]|e] eqn:E; [|discriminate].
  intros [= _ <-]. apply read_fixed_range in E. pow_consts. exact E.
Qed.

Lemma dec_register_disk_req_range (pb : bytes) (name : pystr) (port cap : Z)
    (zone : pystr) :
  dec_register_disk_req pb = Ok (name, port, cap, zone) ->
  0 <= port < 65536 /\ 0 <= cap < 2 ^ 64.
Proof.
  unfold dec_register_disk_req, run_cursor, read_register_disk_req, mbind, mret.
  destruct (Cursor.str _) as [[nm c1]|e]; [|discriminate].
  rewrite u16_fixed. destruct (read_fixed 2 c1) as [[v c2]|e] eqn:E; [|discriminate].
  rewrite u64_fixed. destruct (read_fixed 8 c2) as [[v8 c3]|e] eqn:E8; [|discriminate].
  destruct (Cursor.str c3) as [[z c4]|e]; [|discriminate].
  intros [= _ <- <- _]. apply read_fixed_range in E. apply read_fixed_range in E8.
  pow_consts. change (2 ^ 64) with 18446744073709551616. split; assumption.
Qed.

Lemma dec_configure_req_range (pb : bytes) (n : Z) (policy cj : pystr) :
  dec_configure_req pb = Ok (n, policy, cj) -> 0 <= n < 65536.
Proof.
  unfold dec_configure_req, run_cursor, read_configure_req, mbind, mret.
  rewrite u16_fixed.
  destruct (read_fixed 2 _) as [[v c1]|e] eqn:E; [|discriminate].
  destruct (Cursor.str c1) as [[p c2]|e]; [|discriminate].
  destruct (Cursor.str c2) as [[q c3]|e]; [|discriminate].
  intros [= <- _ _]. apply read_fixed_range in E. pow_consts. exact E.
Qed.

Lemma short_u32 (pb : bytes) :
  (length pb < 4)%nat -> run_cursor Cursor.u32 pb = Err truncated.
Proof.
  intros H. unfold run_cursor. rewrite u32_fixed. unfold read_fixed, new_Cursor.
  cbn [data off]. destruct (Nat.ltb_spec (length pb) (0 + 4)); [reflexivity | lia].
Qed.

Lemma short_configure (pb : bytes) :
  (length pb < 2)%nat -> dec_configure_req pb = Err truncated.
Proof.
  intros H. unfold dec_configure_req, run_cursor, read_configure_req, mbind.
  rewrite u16_fixed. unfold read_fixed, new_Cursor.
  cbn [data off]. destruct (Nat.ltb_spec (length pb) (0 + 2)); [reflexivity | lia].
Qed.

Lemma short_str (pb : bytes) :
  (length pb < 2)%nat -> Cursor.str (new_Cursor pb) = Err truncated.
Proof.
  intros H. rewrite str_unfold. unfold read_fixed, new_Cursor.
  cbn [data off]. destruct (Nat.ltb_spec (length pb) (0 + 2)); [reflexivity | lia].
Qed.

Lemma short_register_user (pb : bytes) :
  (length pb < 2)%nat -> dec_register_user_req pb = Err truncated.
Proof.
  intros H. unfold dec_register_user_req, run_cursor, read_register_user_req, mbind.
  now rewrite short_str.
Qed.

Lemma short_register_disk (pb : bytes) :
  (length pb < 2)%nat -> dec_register_disk_req pb = Err truncated.
Proof.
  intros H. unfold dec_register_disk_req, run_cursor, read_register_disk_req, mbind.
  now rewrite short_str.
Qed.

(** An iteration that ends normally is followed by the next [recv_msg];
    one that raises ends the loop. *)
Lemma handle_conn_continue (lib_text : exn -> pystr) (addr0 : pystr) (f : frame)
    (rest : list frame) (w w' : world) :
  handle_msg lib_text addr0 f w = (w', Ok tt) ->
  handle_conn lib_text addr0 (f :: rest) w = handle_conn lib_text addr0 rest w'.
Proof.
  intros H. unfold handle_conn. cbn [serve_loop]. unfold hbind. now rewrite H.
Qed.

Lemma handle_conn_raise (lib_text : exn -> pystr) (addr0 : pystr) (f : frame)
    (rest : list frame) (w w' : world) (e : exn) :
  handle_msg lib_text addr0 f w = (w', Err e) ->
  handle_conn lib_text addr0 (f :: rest) w
  = (w', if is_OSError e then Bye else Uncaught e).
Proof.
  intros H. unfold handle_conn. cbn [serve_loop]. unfold hbind. now rewrite H.
Qed.

(** *** DEREGISTER_USER_REQ and DEREGISTER_DISK_REQ *)


Lemma handle_deregister_user_ok (txn : Z) (pb : bytes) (uid : Z) (w : world) :
  dec_deregister_user_req pb = Ok uid ->
  handle_deregister_user txn pb w
  = (mkWorld (snd (deregister_user uid (reg w)))
       (sent w ++ [mkFrame MsgType.DEREGISTER_USER_RESP txn
                     (status_byte (if fst (deregister_user uid (reg w))
                                   then OK else NOT_REGISTERED))]),
     Ok tt).
Proof.
  intros H. unfold handle_deregister_user, hbind, hlift, on_reg, send_msg.
  rewrite H. destruct (deregister_user uid (reg w)) as [[|] r']; reflexivity.
Qed.

Lemma handle_deregister_disk_ok (txn : Z) (pb : bytes) (did : Z) (w : world) :
  dec_deregister_disk_req pb = Ok did ->
  handle_deregister_disk txn pb w
  = (mkWorld (snd (deregister_disk did (reg w)))
       (sent w ++ [mkFrame MsgType.DEREGISTER_DISK_RESP txn
                     (status_byte (if fst (deregister_disk did (reg w))
                                   then OK else NOT_REGISTERED))]),
     Ok tt).
Proof.
  intros H. unfold handle_deregister_disk, hbind, hlift, on_reg, send_msg.
  rewrite H. destruct (deregister_disk did (reg w)) as [[|] r']; reflexivity.
Qed.

Lemma handle_deregister_user_err (txn : Z) (pb : bytes) (e : exn) (w : world) :
  dec_deregister_user_req pb = Err e ->
  handle_deregister_user txn pb w = (w, Err e).
Proof.
  intros H. unfold handle_deregister_user, hbind, hlift. now rewrite H.
Qed.

Lemma handle_deregister_disk_err (txn : Z) (pb : bytes) (e : exn) (w : world) :
  dec_deregister_disk_req pb = Err e ->
  handle_deregister_disk txn pb w = (w, Err e).
Proof.
  intros H. unfold handle_deregister_disk, hbind, hlift. now rewrite H.
Qed.

Lemma registry_eta (r : Registry) :
  mkRegistry (next_user_id r) (next_disk_id r) (next_dss_id r) (users r) (disks r) = r.
Proof. destruct r; reflexivity. Qed.

Lemma deregister_user_absent (uid : Z) (r : Registry) :
  ~ registered uid (users r) -> deregister_user uid r = (false, r).
Proof.
  intros H. unfold deregister_user. rewrite (dict_pop_absent _ _ H).
  now rewrite registry_eta.
Qed.

Lemma deregister_disk_absent (did : Z) (r : Registry) :
  ~ registered did (disks r) -> deregister_disk did r = (false, r).
Proof.
  intros H. unfold deregister_disk. rewrite (dict_pop_absent _ _ H).
  now rewrite registry_eta.
Qed.

Lemma deregister_user_effect (uid : Z) (r : Registry) :
  let r' := snd (deregister_user uid r) in
  users r' = snd (dict_pop uid (users r)) /\ disks r' = disks r /\
  next_user_id r' = next_user_id r /\ next_disk_id r' = next_disk_id r /\
  next_dss_id r' = next_dss_id r.
Proof.
  unfold deregister_user. destruct (dict_pop uid (users r)); simpl. auto.
Qed.

Lemma deregister_disk_effect (did : Z) (r : Registry) :
  let r' := snd (deregister_disk did r) in
  disks r' = snd (dict_pop did (disks r)) /\ users r' = users r /\
  next_user_id r' = next_user_id r /\ next_disk_id r' = next_disk_id r /\
  next_dss_id r' = next_dss_id r.
Proof.
  unfold deregister_disk. destruct (dict_pop did (disks r)); simpl. auto.
Qed.

(** *** CONFIGURE_DSS_REQ *)


Lemma enc_configure_failure (s : Status) :
  enc_configure_resp s 0 (Some []) = Ok (configure_failure s).
Proof. destruct s; reflexivity. Qed.

Lemma or_empty_some (ids : list Z) : or_empty (Some ids) = ids.
Proof. destruct ids; reflexivity. Qed.

Lemma pack_status (s : Status) : pack_u8 (int_of_status s) = Ok (status_byte s).
Proof. destruct s; reflexivity. Qed.

Lemma enc_configure_resp_ok (s : Status) (dss : Z) (ids : list Z) :
  0 <= dss < 2 ^ 32 -> len ids <= 0xFFFF ->
  Forall (fun x => 0 <= x < 2 ^ 32) ids ->
  enc_configure_resp s dss (Some ids)
  = Ok (status_byte s ++ be_bytes 4 dss
          ++ be_bytes 2 (len ids) ++ concat (map (be_bytes 4) ids)).
Proof.
  intros Hd Hl HF. unfold enc_configure_resp, radd, rbind.
  rewrite pack_status, or_empty_some. unfold pack_u32.
  rewrite struct_pack_ok by (pow_consts; lia).
  rewrite pack_u32_list_ok by assumption. reflexivity.
Qed.

Lemma dec_configure_resp_enc (s : Status) (dss : Z) (ids : list Z) (pb : bytes) :
  enc_configure_resp s dss (Some ids) = Ok pb ->
  dec_configure_resp pb = Ok (int_of_status s, dss, ids).
Proof.
  unfold enc_configure_resp. intros H.
  destruct (radd_inv _ _ _ H) as (b1 & r1 & H1 & H' & ->). clear H.
  destruct (radd_inv _ _ _ H') as (b2 & b3 & H2 & H3 & ->). clear H'.
  rewrite or_empty_some in H3.
  set (p := b1 ++ b2 ++ b3).
  assert (S1 : skipn 0 p = b1 ++ b2 ++ b3) by reflexivity.
  pose proof (skipn_next _ _ _ _ S1) as S2.
  pose proof (skipn_next _ _ _ _ S2) as S3.
  rewrite <- (app_nil_r b3) in S3.
  unfold dec_configure_resp, run_cursor, mbind, new_Cursor.
  rewrite u8_fixed, (fixed_read_at 1 _ _ _ _ _ ltac:(lia) H1 S1).
  rewrite u32_fixed, (fixed_read_at 4 _ _ _ _ _ ltac:(lia) H2 S2).
  rewrite (u32_list_read_at _ _ _ _ _ H3 S3). reflexivity.
Qed.

Lemma handle_configure_err (txn : Z) (pb : bytes) (e : exn) (w : world) :
  dec_configure_req pb = Err e -> handle_configure_dss txn pb w = (w, Err e).
Proof.
  intros H. unfold handle_configure_dss, hbind, hlift. now rewrite H.
Qed.

Lemma handle_configure_invalid (txn : Z) (pb : bytes) (n : Z) (policy cj : pystr)
    (w : world) :
  dec_configure_req pb = Ok (n, policy, cj) -> n <= 0 ->
  handle_configure_dss txn pb w
  = (mkWorld (reg w)
       (sent w ++ [mkFrame MsgType.CONFIGURE_DSS_RESP txn
                     (configure_failure INVALID_ARGUMENT)]),
     Ok tt).
Proof.
  intros H Hn. unfold handle_configure_dss, hbind, hlift. rewrite H.
  destruct (Z.leb_spec n 0); [|lia].
  rewrite enc_configure_failure. reflexivity.
Qed.

Lemma ready_length (r : Registry) :
  len (map disk_id (dict_values (disks r))) = len (disks r).
Proof. unfold len, dict_values. now rewrite !length_map. Qed.

Lemma handle_configure_insufficient (txn : Z) (pb : bytes) (n : Z)
    (policy cj : pystr) (w : world) :
  dec_configure_req pb = Ok (n, policy, cj) -> 0 < n -> len (disks (reg w)) < n ->
  handle_configure_dss txn pb w
  = (mkWorld (reg w)
       (sent w ++ [mkFrame MsgType.CONFIGURE_DSS_RESP txn
                     (configure_failure INSUFFICIENT_RESOURCES)]),
     Ok tt).
Proof.
  intros H Hn Hm. unfold handle_configure_dss, hbind, hlift, on_reg. rewrite H.
  destruct (Z.leb_spec n 0); [lia|].
  unfold allocate_disks. rewrite ready_length.
  destruct (Z.ltb_spec (len (disks (reg w))) n); [|lia].
  cbn [py_not_opt]. rewrite enc_configure_failure. destruct w; reflexivity.
Qed.


Lemma allocate_disks_enough (n : Z) (r : Registry) :
  0 < n -> n <= len (disks r) ->
  allocate_disks n r = (Some (first_disks n r), r) /\
  len (first_disks n r) = n /\ py_not (first_disks n r) = false.
Proof.
  intros Hn Hm. unfold allocate_disks, first_disks. rewrite ready_length.
  destruct (Z.ltb_spec (len (disks r)) n); [lia|].
  unfold slice_to. destruct (Z.ltb_spec n 0); [lia|].
  pose proof (ready_length r) as L. unfold len in *.
  set (ready := map disk_id (dict_values (disks r))) in *.
  split; [reflexivity|]. split.
  - rewrite length_firstn. lia.
  - destruct ready as [|x l]; [simpl in L; lia|].
    destruct (Z.to_nat n) eqn:E; [lia | reflexivity].
Qed.

Lemma handle_configure_enough (txn : Z) (pb : bytes) (n : Z) (policy cj : pystr)
    (w : world) :
  dec_configure_req pb = Ok (n, policy, cj) -> 0 < n -> n <= len (disks (reg w)) ->
  handle_configure_dss txn pb w
  = match enc_configure_resp OK (next_dss_id (reg w))
            (Some (first_disks n (reg w))) with
    | Ok out =>
        (mkWorld (snd (mint_dss_id (reg w)))
           (sent w ++ [mkFrame MsgType.CONFIGURE_DSS_RESP txn out]), Ok tt)
    | Err e => (mkWorld (snd (mint_dss_id (reg w))) (sent w), Err e)
    end.
Proof.
  intros H Hn Hm. unfold handle_configure_dss, hbind, hlift, on_reg. rewrite H.
  destruct (Z.leb_spec n 0); [lia|].
  destruct (allocate_disks_enough n (reg w) Hn Hm) as (E & _ & Hne).
  rewrite E. cbn [py_not_opt sent reg]. rewrite Hne.
  unfold mint_dss_id at 1. cbn [sent reg].
  destruct (enc_configure_resp _ _ _); reflexivity.
Qed.

(** *** REGISTER_USER_REQ and REGISTER_DISK_REQ *)

Lemma reply_error_ok (lib_text : exn -> pystr) (txn : Z) (e : exn) (b : bytes)
    (w : world) :
  pack_str (exn_str lib_text e) = Ok b ->
  reply_error lib_text txn e w
  = (mkWorld (reg w)
       (sent w ++ [mkFrame MsgType.ERROR_RESP txn
                     (status_byte INVALID_ARGUMENT ++ b)]),
     Ok tt).
Proof.
  intros H. unfold reply_error, hbind, hlift, enc_error, radd, rbind.
  rewrite pack_status, H. reflexivity.
Qed.

Lemma handle_register_user_unfold (lib_text : exn -> pystr) (addr0 : pystr)
    (txn : Z) (pb : bytes) (w : world) :
  handle_register_user lib_text addr0 txn pb w
  = match dec_register_user_req pb with
    | Err e => reply_error lib_text txn e w
    | Ok (name, listen_port) =>
        if py_not name || (listen_port <=? 0)
        then reply_error lib_text txn (ValueError (lit "missing name/port")) w
        else
          let w1 := mkWorld (snd (register_user name addr0 listen_port (reg w)))
                      (sent w) in
          match enc_register_user_resp OK (next_user_id (reg w)) with
          | Ok out =>
              (mkWorld (reg w1)
                 (sent w ++ [mkFrame MsgType.REGISTER_USER_RESP txn out]), Ok tt)
          | Err e => reply_error lib_text txn e w1
          end
    end.
Proof.
  unfold handle_register_user, try_except, hbind, hlift.
  destruct (dec_register_user_req pb) as [[name port]|e]; [|reflexivity].
  destruct (py_not name || (port <=? 0)); [reflexivity|].
  unfold hret, on_reg, register_user. cbn [fst snd reg sent].
  destruct (enc_register_user_resp OK (next_user_id (reg w))); reflexivity.
Qed.

Lemma handle_register_disk_unfold (lib_text : exn -> pystr) (addr0 : pystr)
    (txn : Z) (pb : bytes) (w : world) :
  handle_register_disk lib_text addr0 txn pb w
  = match dec_register_disk_req pb with
    | Err e => reply_error lib_text txn e w
    | Ok (name, listen_port, cap, zone) =>
        if py_not name || (listen_port <=? 0) || (cap <=? 0)
        then reply_error lib_text txn (ValueError (lit "bad disk args")) w
        else
          let w1 := mkWorld (snd (register_disk name addr0 listen_port cap zone
                                    (reg w)))
                      (sent w) in
          match enc_register_disk_resp OK (next_disk_id (reg w)) with
          | Ok out =>
              (mkWorld (reg w1)
                 (sent w ++ [mkFrame MsgType.REGISTER_DISK_RESP txn out]), Ok tt)
          | Err e => reply_error lib_text txn e w1
          end
    end.
Proof.
  unfold handle_register_disk, try_except, hbind, hlift.
  destruct (dec_register_disk_req pb) as [[[[name port] cap] zone]|e]; [|reflexivity].
  destruct (py_not name || (port <=? 0) || (cap <=? 0)); [reflexivity|].
  unfold hret, on_reg, register_disk. cbn [fst snd reg sent].
  destruct (enc_register_disk_resp OK (next_disk_id (reg w))); reflexivity.
Qed.

Lemma enc_id_resp_ok (id : Z) :
  0 <= id < 2 ^ 32 ->
  enc_register_user_resp OK id = Ok (status_byte OK ++ be_bytes 4 id) /\
  enc_register_disk_resp OK id = Ok (status_byte OK ++ be_bytes 4 id).
Proof.
  intros H. unfold enc_register_user_resp, enc_register_disk_resp, radd, rbind.
  rewrite pack_status. unfold pack_u32.
  rewrite struct_pack_ok by (pow_consts; lia). auto.
Qed.

Lemma dec_id_resp_enc (s : Status) (id : Z) (pb : bytes) :
  pack_u8 (int_of_status s) +++ pack_u32 id = Ok pb ->
  dec_register_user_resp pb = Ok (int_of_status s, id) /\
  dec_register_disk_resp pb = Ok (int_of_status s, id).
Proof.
  intros H.
  destruct (radd_inv _ _ _ H) as (b1 & b2 & H1 & H2 & ->). clear H.
  set (p := b1 ++ b2).
  assert (S1 : skipn 0 p = b1 ++ b2) by reflexivity.
  pose proof (skipn_next _ _ _ _ S1) as S2.
  rewrite <- (app_nil_r b2) in S2.
  unfold dec_register_user_resp, dec_register_disk_resp, run_cursor, mbind, new_Cursor.
  rewrite u8_fixed, (fixed_read_at 1 _ _ _ _ _ ltac:(lia) H1 S1).
  rewrite u32_fixed, (fixed_read_at 4 _ _ _ _ _ ltac:(lia) H2 S2). auto.
Qed.

(** The errors a request decoder can raise. *)
Lemma run_cursor_error {A} (m : M A) (pb : bytes) (e : exn) :
  bounds_safe m -> run_cursor m pb = Err e ->
  e = truncated \/ exists b, e = UnicodeDecodeError b.
Proof.
  intros S. unfold run_cursor.
  pose proof (S (new_Cursor pb) ltac:(simpl; lia)) as H.
  destruct (m (new_Cursor pb)) as [[a c]|e']; [discriminate|].
  intros [= <-]. exact H.
Qed.

Lemma pack_truncated_text :
  exists b, pack_str (lit "truncated payload") = Ok b.
Proof. eexists. vm_compute. reflexivity. Qed.

Lemma decode_error_text (lib_text : exn -> pystr) (e : exn) :
  (forall obj, exists b, pack_str (lib_text (UnicodeDecodeError obj)) = Ok b) ->
  e = truncated \/ (exists b, e = UnicodeDecodeError b) ->
  exists b, pack_str (exn_str lib_text e) = Ok b.
Proof.
  intros Ht [->|[obj ->]].
  - exact pack_truncated_text.
  - apply Ht.
Qed.

Lemma dict_get_set {V} (k : Z) (v : V) (d : dict V) :
  dict_get k (dict_set k v d) = Some v.
Proof.
  unfold dict_get. induction d as [|[k' v'] d IH]; simpl.
  - now rewrite Z.eqb_refl.
  - destruct (Z.eqb_spec k' k) as [->|Hne]; simpl.
    + now rewrite Z.eqb_refl.
    + destruct (Z.eqb_spec k' k); [congruence | exact IH].
Qed.

(** ** Every registry the dispatcher produces comes from a history *)

Lemma reply_error_reg (lib_text : exn -> pystr) (txn : Z) (e : exn) (w : world) :
  reg (fst (reply_error lib_text txn e w)) = reg w.
Proof.
  unfold reply_error, hbind, hlift, send_msg.
  destruct (enc_error _ _); reflexivity.
Qed.

Lemma handle_msg_history (lib_text : exn -> pystr) (addr0 : pystr) (f : frame)
    (w : world) :
  exists ops, reg (fst (handle_msg lib_text addr0 f w)) = run_ops ops (reg w).
Proof.
  unfold handle_msg.
  destruct (msg_type f =? MsgType.REGISTER_USER_REQ).
  { rewrite handle_register_user_unfold.
    destruct (dec_register_user_req (payload f)) as [[name port]|e].
    - destruct (py_not name || (port <=? 0)).
      + exists []. apply reply_error_reg.
      + exists [RegisterUser name addr0 port]. cbv zeta.
        destruct (enc_register_user_resp _ _); [reflexivity|].
        now rewrite reply_error_reg.
    - exists []. apply reply_error_reg. }
  destruct (msg_type f =? MsgType.DEREGISTER_USER_REQ).
  { destruct (dec_deregister_user_req (payload f)) as [uid|e] eqn:Hd.
    - exists [DeregisterUser uid].
      now rewrite (handle_deregister_user_ok _ _ _ _ Hd).
    - exists []. now rewrite (handle_deregister_user_err _ _ _ _ Hd). }
  destruct (msg_type f =? MsgType.REGISTER_DISK_REQ).
  { rewrite handle_register_disk_unfold.
    destruct (dec_register_disk_req (payload f)) as [[[[name port] cap] zone]|e].
    - destruct (py_not name || (port <=? 0) || (cap <=? 0)).
      + exists []. apply reply_error_reg.
      + exists [RegisterDisk name addr0 port cap zone]. cbv zeta.
        destruct (enc_register_disk_resp _ _); [reflexivity|].
        now rewrite reply_error_reg.
    - exists []. apply reply_error_reg. }
  destruct (msg_type f =? MsgType.DEREGISTER_DISK_REQ).
  { destruct (dec_deregister_disk_req (payload f)) as [did|e] eqn:Hd.
    - exists [DeregisterDisk did].
      now rewrite (handle_deregister_disk_ok _ _ _ _ Hd).
    - exists []. now rewrite (handle_deregister_disk_err _ _ _ _ Hd). }
  destruct (msg_type f =? MsgType.CONFIGURE_DSS_REQ).
  { destruct (dec_configure_req (payload f)) as [[[n policy] cj]|e] eqn:Hd.
    - destruct (Z.le_gt_cases n 0) as [Hn|Hn].
      + exists []. now rewrite (handle_configure_invalid _ _ _ _ _ w Hd Hn).
      + destruct (Z.lt_ge_cases (len (disks (reg w))) n) as [Hm|Hm].
        * exists [AllocateDisks n].
          rewrite (handle_configure_insufficient _ _ _ _ _ w Hd Hn Hm).
          cbn [fst reg run_ops fold_left apply_op].
          now rewrite allocate_disks_frame.
        * exists [AllocateDisks n; MintDssId].
          rewrite (handle_configure_enough _ _ _ _ _ w Hd Hn Hm).
          cbn [run_ops fold_left apply_op]. rewrite allocate_disks_frame.
          destruct (enc_configure_resp _ _ _); reflexivity.
    - exists []. now rewrite (handle_configure_err _ _ _ _ Hd). }
  exists []. unfold hbind, hlift, send_msg.
  destruct (enc_error _ _); reflexivity.
Qed.

Lemma serve_loop_history (lib_text : exn -> pystr) (addr0 : pystr)
    (incoming : list frame) (w : world) :
  exists ops, reg (fst (serve_loop lib_text addr0 incoming w)) = run_ops ops (reg w).
Proof.
  revert w. induction incoming as [|f rest IH]; intros w.
  - exists []. reflexivity.
  - cbn [serve_loop]. unfold hbind.
    destruct (handle_msg_history lib_text addr0 f w) as [ops1 H1].
    destruct (handle_msg lib_text addr0 f w) as [w1 [[]|e]]; cbn [fst] in *.
    + destruct (IH w1) as [ops2 H2]. exists (ops1 ++ ops2).
      now rewrite run_ops_app, <- H1.
    + exists ops1. exact H1.
Qed.

(** Whatever frames a connection delivers, the registry it leaves behind is
    the result of a history of registry calls, so it satisfies
    [registry_inv] whenever the registry it started from does. *)
Lemma handle_conn_history (lib_text : exn -> pystr) (addr0 : pystr)
    (incoming : list frame) (w : world) :
  exists ops, reg (fst (handle_conn lib_text addr0 incoming w)) = run_ops ops (reg w).
Proof.
  unfold handle_conn.
  destruct (serve_loop_history lib_text addr0 incoming w) as [ops H].
  exists ops. destruct (serve_loop _ _ _ _) as [w' [u|e]]; exact H.
Qed.

(** ** Further lemmas used by the claims *)

(** The boundary cases of the round trip: a 65535-byte string and a
    65535-element list. *)
Lemma ascii_encode (n : nat) :
  str_encode (repeat 0x61 n) = Ok (repeat x61 n).
Proof.
  unfold str_encode.
  assert (E : utf8_encode (repeat 0x61 n) = Some (repeat x61 n)).
  { induction n as [|n IH]; [reflexivity|].
    cbn [repeat utf8_encode]. rewrite IH. reflexivity. }
  now rewrite E.
Qed.

Example str_round_trip_max :
  exists p, pack_str (repeat 0x61 (Z.to_nat 65535)) = Ok p /\
    len p = 65537 /\
    run_cursor Cursor.str p = Ok (repeat 0x61 (Z.to_nat 65535)).
Proof.
  assert (N : Z.of_nat (Z.to_nat 65535) = 65535) by (apply Z2Nat.id; lia).
  generalize dependent (Z.to_nat 65535). intros n N.
  assert (L : len (repeat x61 n) = 65535)
    by (unfold len; rewrite repeat_length; exact N).
  pose proof (pack_str_ok _ _ (ascii_encode n) ltac:(lia)) as Hp.
  eexists. split; [exact Hp|]. split.
  - unfold len in *. rewrite length_app, be_bytes_length. lia.
  - unfold run_cursor, new_Cursor.
    rewrite (str_read_at _ 0%nat _ _ [] Hp) by (now rewrite app_nil_r).
    reflexivity.
Qed.

Example u32_list_round_trip_max :
  exists p, pack_u32_list (repeat 7 (Z.to_nat 65535)) = Ok p /\
    run_cursor Cursor.u32_list p = Ok (repeat 7 (Z.to_nat 65535)).
Proof.
  assert (N : Z.of_nat (Z.to_nat 65535) = 65535) by (apply Z2Nat.id; lia).
  generalize dependent (Z.to_nat 65535). intros n N.
  assert (L : len (repeat 7 n) = 65535)
    by (unfold len; rewrite repeat_length; exact N).
  assert (F : Forall (fun x => 0 <= x < 2 ^ 32) (repeat 7 n)).
  { apply Forall_forall. intros x Hx. apply repeat_spec in Hx. subst x.
    split; [discriminate | reflexivity]. }
  pose proof (pack_u32_list_ok (repeat 7 n) ltac:(lia) F) as Hp.
  eexists. split; [exact Hp|].
  unfold run_cursor, new_Cursor.
  rewrite (u32_list_read_at _ 0%nat _ _ [] Hp) by (now rewrite app_nil_r).
  reflexivity.
Qed.

Lemma read_fixed_short (w : nat) (c : Cursor) :
  (length (data c) < off c + w)%nat -> read_fixed w c = Err truncated.
Proof.
  intros H. unfold read_fixed.
  destruct (Nat.ltb_spec (length (data c)) (off c + w)); [reflexivity | lia].
Qed.

Lemma read_fixed_ok_inv (w : nat) (c : Cursor) (v : Z) (c1 : Cursor) :
  read_fixed w c = Ok (v, c1) ->
  data c1 = data c /\ off c1 = (off c + w)%nat /\
  (off c + w <= length (data c))%nat.
Proof.
  unfold read_fixed.
  destruct (Nat.ltb_spec (length (data c)) (off c + w)); [discriminate|].
  intros [= _ <-]. cbn. auto.
Qed.

Lemma str_short (c : Cursor) (n : Z) (c1 : Cursor) :
  Cursor.u16 c = Ok (n, c1) ->
  (length (data c) < off c + 2 + Z.to_nat n)%nat ->
  Cursor.str c = Err truncated.
Proof.
  rewrite u16_fixed, str_unfold. intros H Hl. rewrite H.
  destruct (read_fixed_ok_inv _ _ _ _ H) as (Hd & Ho & _).
  rewrite Hd, Ho.
  destruct (Nat.ltb_spec (length (data c)) (off c + 2 + Z.to_nat n));
    [reflexivity | lia].
Qed.

Lemma u32_loop_short (n : nat) (c : Cursor) :
  (off c <= length (data c))%nat ->
  (length (data c) < off c + 4 * n)%nat ->
  Cursor.u32_loop n c = Err truncated.
Proof.
  revert c. induction n as [|n IH]; intros c Hc H; [lia|].
  rewrite u32_loop_unfold.
  destruct (read_fixed 4 c) as [[v c1]|e] eqn:E.
  - destruct (read_fixed_ok_inv _ _ _ _ E) as (Hd & Ho & Hl).
    rewrite IH by (rewrite Hd, Ho; lia). reflexivity.
  - unfold read_fixed in E.
    destruct (Nat.ltb_spec (length (data c)) (off c + 4)); congruence.
Qed.

Lemma u32_list_short (c : Cursor) (n : Z) (c1 : Cursor) :
  Cursor.u16 c = Ok (n, c1) ->
  (length (data c) < off c + 2 + 4 * Z.to_nat n)%nat ->
  Cursor.u32_list c = Err truncated.
Proof.
  rewrite u16_fixed, u32_list_unfold. intros H Hl. rewrite H.
  destruct (read_fixed_ok_inv _ _ _ _ H) as (Hd & Ho & Hle).
  destruct (Nat.eq_dec (Z.to_nat n) 0) as [E0|E0]; [lia|].
  apply u32_loop_short; rewrite Hd, Ho; lia.
Qed.

Lemma read_fixed_error (w : nat) (c : Cursor) (e : exn) :
  read_fixed w c = Err e -> e = truncated.
Proof.
  unfold read_fixed. destruct (_ <? _)%nat; [|discriminate].
  now intros [= <-].
Qed.

Lemma u32_loop_error (n : nat) (c : Cursor) (e : exn) :
  Cursor.u32_loop n c = Err e -> e = truncated.
Proof.
  revert c. induction n as [|n IH]; intros c; [discriminate|].
  rewrite u32_loop_unfold.
  destruct (read_fixed 4 c) as [[v c1]|e1] eqn:E1.
  - destruct (Cursor.u32_loop n c1) as [[vs c2]|e2] eqn:E2; [discriminate|].
    intros [= <-]. exact (IH _ E2).
  - intros [= <-]. exact (read_fixed_error _ _ _ E1).
Qed.

Lemma u32_list_error (c : Cursor) (e : exn) :
  Cursor.u32_list c = Err e -> e = truncated.
Proof.
  rewrite u32_list_unfold.
  destruct (read_fixed 2 c) as [[n c1]|e1] eqn:E1.
  - apply u32_loop_error.
  - intros [= <-]. exact (read_fixed_error _ _ _ E1).
Qed.

Lemma short_str_bind {A} (k : pystr -> M A) :
  mbind Cursor.str k (new_Cursor []) = Err truncated.
Proof. unfold mbind. rewrite short_str by (simpl; lia). reflexivity. Qed.

Lemma exact_nonempty {A} (m : M A) (p : bytes) (v : A) :
  m (new_Cursor []) = Err truncated ->
  m (new_Cursor p) = Ok (v, mkCursor p (length p)) -> p <> [].
Proof. intros H0 H ->. rewrite H0 in H. discriminate. Qed.

Lemma pack_str_too_long (s : pystr) (b : bytes) :
  str_encode s = Ok b -> 65535 < len b ->
  pack_str s = Err (ValueError (lit "string too long")).
Proof.
  intros E H. unfold pack_str, rbind. rewrite E.
  destruct (Z.gtb_spec (len b) 0xFFFF); [reflexivity | lia].
Qed.

Lemma pack_u32_list_too_long (xs : list Z) :
  65535 < len xs -> pack_u32_list xs = Err (ValueError (lit "list too long")).
Proof.
  intros H. unfold pack_u32_list.
  destruct (Z.gtb_spec (len xs) 0xFFFF); [reflexivity | lia].
Qed.

Lemma rmap_pack_u32_err (xs : list Z) :
  ~ Forall (fun x => 0 <= x < 2 ^ 32) xs ->
  rmap pack_u32 xs = Err (StructError 4).
Proof.
  induction xs as [|x xs IH]; intros HF.
  - exfalso. apply HF. constructor.
  - cbn [rmap]. unfold pack_u32 at 1.
    destruct (struct_pack 4 x) as [b|e] eqn:E.
    + apply struct_pack_inv in E. destruct E as [Hx _].
      rewrite IH; [reflexivity|].
      intros HF'. apply HF. constructor; [pow_consts; lia | exact HF'].
    + unfold struct_pack in E.
      destruct ((0 <=? x) && (x <? 256 ^ Z.of_nat 4)); [discriminate E|].
      congruence.
Qed.

Lemma pack_u32_list_bad_element (xs : list Z) :
  len xs <= 65535 -> ~ Forall (fun x => 0 <= x < 2 ^ 32) xs ->
  pack_u32_list xs = Err (StructError 4).
Proof.
  intros Hl HF. unfold pack_u32_list.
  destruct (Z.gtb_spec (len xs) 0xFFFF); [lia|].
  unfold rbind, pack_u16.
  rewrite struct_pack_ok by (unfold len in *; pow_consts; lia).
  now rewrite rmap_pack_u32_err.
Qed.

Lemma pack_str_unencodable (s : pystr) (e : exn) :
  str_encode s = Err e -> pack_str s = Err e /\ e = UnicodeEncodeError s.
Proof.
  intros E. split; [unfold pack_str, rbind; now rewrite E|].
  unfold str_encode in E. destruct (utf8_encode s); congruence.
Qed.

Lemma run_churn_disks (n : nat) (a u s : Z) (us : dict user_rec) (d0 : disk_rec) :
  1 < a ->
  run_ops (churn_disks a n) (mkRegistry u a s us [(1, d0)])
  = mkRegistry u (a + Z.of_nat n) s us [(1, d0)].
Proof.
  unfold run_ops. revert a. induction n as [|n IH]; intros a Ha.
  - cbn [churn_disks fold_left]. now rewrite Z.add_0_r.
  - cbn [churn_disks fold_left apply_op].
    unfold register_disk, deregister_disk.
    cbn [snd next_user_id next_disk_id next_dss_id users disks dict_set dict_pop].
    assert (N : (1 =? a) = false) by (apply Z.eqb_neq; lia).
    rewrite N. cbn [dict_pop]. rewrite ?N, ?Z.eqb_refl. cbn [snd].
    rewrite IH by lia. f_equal. lia.
Qed.

Lemma dec_error_resp_enc (s : Status) (msg : pystr) (b : bytes) :
  pack_str msg = Ok b ->
  dec_error_resp (status_byte s ++ b) = Ok (int_of_status s, msg).
Proof.
  intros Hb.
  set (p := status_byte s ++ b).
  assert (S1 : skipn 0 p = status_byte s ++ b) by reflexivity.
  pose proof (skipn_next _ _ _ _ S1) as S2.
  rewrite <- (app_nil_r b) in S2.
  unfold dec_error_resp, run_cursor, mbind, new_Cursor.
  rewrite u8_fixed, (fixed_read_at 1 _ _ _ _ _ ltac:(lia) (pack_status s) S1).
  rewrite (str_read_at _ _ _ _ _ Hb S2). reflexivity.
Qed.

Lemma dec_configure_failure (s : Status) :
  dec_configure_resp (configure_failure s) = Ok (int_of_status s, 0, []).
Proof. apply dec_configure_resp_enc, enc_configure_failure. Qed.

Lemma run_mint_many (n : nat) (r : Registry) :
  run_ops (mint_many n) r
  = mkRegistry (next_user_id r) (next_disk_id r) (next_dss_id r + Z.of_nat n)
      (users r) (disks r).
Proof.
  unfold mint_many, run_ops. revert r. induction n as [|n IH]; intros r.
  - cbn [repeat fold_left]. rewrite Z.add_0_r. now rewrite registry_eta.
  - cbn [repeat fold_left]. rewrite IH. cbn [apply_op mint_dss_id snd].
    cbn [next_user_id next_disk_id next_dss_id users disks].
    f_equal. lia.
Qed.

Lemma run_churn_users (n : nat) (a d s : Z) (ds : dict disk_rec) :
  run_ops (churn_users a n) (mkRegistry a d s [] ds)
  = mkRegistry (a + Z.of_nat n) d s [] ds.
Proof.
  unfold run_ops. revert a. induction n as [|n IH]; intros a.
  - cbn [churn_users fold_left]. now rewrite Z.add_0_r.
  - cbn [churn_users fold_left apply_op].
    unfold register_user, deregister_user.
    cbn [snd next_user_id next_disk_id next_dss_id users disks dict_set dict_pop].
    rewrite Z.eqb_refl. cbn [snd]. rewrite IH. f_equal. lia.
Qed.

Lemma pack_literal_texts :
  (exists b, pack_str (lit "missing name/port") = Ok b) /\
  (exists b, pack_str (lit "bad disk args") = Ok b).
Proof. split; eexists; vm_compute; reflexivity. Qed.

(* ===================================================================== *)
(** * The claims *)

(** C1. After any history of registry calls, let [ds] be the currently
    registered disk ids in ascending order.  Then [allocate_disks n] with
    [1 <= n <= len ds] returns exactly the first [n] elements of [ds], and
    with [n > len ds] it returns [None], which the dispatcher answers with a
    CONFIGURE_DSS_RESP whose status is INSUFFICIENT_RESOURCES. *)
Theorem C1_allocate_first_n_ascending :
  forall (ops : list reg_op) (ds : list Z) (n : Z),
    let r := run_ops ops new_Registry in
    StronglySorted Z.lt ds ->
    (forall k, In k ds <-> registered k (disks r)) ->
    (1 <= n <= len ds ->
     fst (allocate_disks n r) = Some (firstn (Z.to_nat n) ds)) /\
    (len ds < n ->
     fst (allocate_disks n r) = None /\
     forall lib_text addr0 txn pb policy cj out,
       dec_configure_req pb = Ok (n, policy, cj) ->
       handle_msg lib_text addr0 (mkFrame MsgType.CONFIGURE_DSS_REQ txn pb)
         (mkWorld r out)
       = (mkWorld r
            (out ++ [mkFrame MsgType.CONFIGURE_DSS_RESP txn
                       (configure_failure INSUFFICIENT_RESOURCES)]),
          Ok tt)).
Proof.
  intros ops ds n r Hs Hm.
  assert (I : registry_inv r) by (apply run_ops_inv, new_Registry_inv).
  destruct (allocate_disks_sorted r ds n I Hs Hm) as [A1 A2].
  split.
  - intros Hn. now rewrite (A1 Hn).
  - intros Hn. split; [now rewrite (A2 Hn)|].
    intros lib_text addr0 txn pb policy cj out Hd.
    pose proof (dec_configure_req_range _ _ _ _ Hd) as Hr.
    assert (Hlen : len (disks r) = len ds).
    { pose proof (ready_length r) as L.
      rewrite (ready_is_keys _ (inv_disk_key r I)) in L.
      rewrite <- L. f_equal.
      apply sorted_same_members;
        [apply (inv_disks_sorted r I) | exact Hs | intros k; symmetry; apply Hm]. }
    change (handle_msg lib_text addr0 (mkFrame MsgType.CONFIGURE_DSS_REQ txn pb))
      with (handle_configure_dss txn pb).
    assert (Hpos : 0 < n) by (unfold len in *; lia).
    rewrite (handle_configure_insufficient txn pb n policy cj (mkWorld r out) Hd Hpos)
      by (cbn [reg]; lia).
    reflexivity.
Qed.

Lemma C1_witness :
  let ops := [RegisterDisk (lit "d1") (lit "h") 9000 10 (lit "z");
              RegisterDisk (lit "d2") (lit "h") 9001 10 (lit "z");
              DeregisterDisk 1;
              RegisterDisk (lit "d3") (lit "h") 9002 10 (lit "z")] in
  fst (allocate_disks 2 (run_ops ops new_Registry)) = Some [2; 3] /\
  fst (allocate_disks 3 (run_ops ops new_Registry)) = None.
Proof.
  intros ops.
  assert (Hs : StronglySorted Z.lt [2; 3]) by (repeat constructor).
  assert (Hm : forall k, In k [2; 3]
                         <-> registered k (disks (run_ops ops new_Registry)))
    by (intros k; vm_compute; tauto).
  split.
  - refine (proj1 (C1_allocate_first_n_ascending ops [2; 3] 2 Hs Hm) _).
    vm_compute. split; discriminate.
  - refine (proj1 (proj2 (C1_allocate_first_n_ascending ops [2; 3] 3 Hs Hm) _)).
    reflexivity.
Defined.

(** C2. From the initial registry, the ids returned by the [register_user]
    calls of any history are 1, 2, 3, ... in that order (so strictly
    increasing and never repeated), whatever deregistrations and other calls
    are interleaved, and likewise for [register_disk]; once a registered id
    [K] has been deregistered no later registration returns [K], and more
    generally an id returned once is never returned later; and no call ever
    decreases [next_user_id], [next_disk_id] or [next_dss_id]. *)
Theorem C2_ids_increase_never_reused :
  (forall ops,
     user_ids ops new_Registry
     = count_from 1 (length (filter is_register_user ops)) /\
     StronglySorted Z.lt (user_ids ops new_Registry) /\
     NoDup (user_ids ops new_Registry)) /\
  (forall ops,
     disk_ids ops new_Registry
     = count_from 1 (length (filter is_register_disk ops)) /\
     StronglySorted Z.lt (disk_ids ops new_Registry) /\
     NoDup (disk_ids ops new_Registry)) /\
  (forall pre K post,
     let r := run_ops pre new_Registry in
     fst (deregister_user K r) = true ->
     ~ In K (user_ids post (snd (deregister_user K r)))) /\
  (forall pre K post,
     let r := run_ops pre new_Registry in
     fst (deregister_disk K r) = true ->
     ~ In K (disk_ids post (snd (deregister_disk K r)))) /\
  (forall pre post K,
     (In K (user_ids pre new_Registry) ->
      ~ In K (user_ids post (run_ops pre new_Registry))) /\
     (In K (disk_ids pre new_Registry) ->
      ~ In K (disk_ids post (run_ops pre new_Registry)))) /\
  (forall ops r,
     next_user_id r <= next_user_id (run_ops ops r) /\
     next_disk_id r <= next_disk_id (run_ops ops r) /\
     next_dss_id r <= next_dss_id (run_ops ops r)).
Proof.
  split; [|split; [|split; [|split; [|split]]]].
  - intros ops. rewrite user_ids_count. repeat split.
    + apply count_from_sorted.
    + apply sorted_NoDup, count_from_sorted.
  - intros ops. rewrite disk_ids_count. repeat split.
    + apply count_from_sorted.
    + apply sorted_NoDup, count_from_sorted.
  - intros pre K post r HK. apply user_id_not_reissued.
    + apply run_ops_inv, new_Registry_inv.
    + now apply deregister_user_true.
  - intros pre K post r HK. apply disk_id_not_reissued.
    + apply run_ops_inv, new_Registry_inv.
    + now apply deregister_disk_true.
  - intros pre post K. split; intros Hpre Hpost.
    + rewrite user_ids_count in Hpre, Hpost.
      rewrite next_user_id_run in Hpost.
      pose proof (count_from_upper _ _ _ Hpre).
      pose proof (count_from_lower (next_user_id new_Registry
                    + Z.of_nat (length (filter is_register_user pre)))
                    (length (filter is_register_user post))) as L.
      rewrite Forall_forall in L. specialize (L K Hpost). lia.
    + rewrite disk_ids_count in Hpre, Hpost.
      rewrite next_disk_id_run in Hpost.
      pose proof (count_from_upper _ _ _ Hpre).
      pose proof (count_from_lower (next_disk_id new_Registry
                    + Z.of_nat (length (filter is_register_disk pre)))
                    (length (filter is_register_disk post))) as L.
      rewrite Forall_forall in L. specialize (L K Hpost). lia.
  - apply counters_grow_run.
Qed.

Lemma C2_witness :
  let pre := [RegisterUser (lit "a") (lit "h") 1; RegisterUser (lit "b") (lit "h") 2] in
  let post := [RegisterUser (lit "c") (lit "h") 3; DeregisterUser 2;
               RegisterUser (lit "d") (lit "h") 4] in
  fst (deregister_user 1 (run_ops pre new_Registry)) = true /\
  ~ In 1 (user_ids post (snd (deregister_user 1 (run_ops pre new_Registry)))).
Proof.
  intros pre post. split; [reflexivity|].
  exact (proj1 (proj2 (proj2 C2_ids_increase_never_reused)) pre 1 post eq_refl).
Defined.

(** C3. The codec round-trips.  For every string whose UTF-8 encoding has at
    most 65535 bytes, [Cursor.str] on [pack_str s] (followed by anything)
    returns [s] and leaves the cursor right after the encoded bytes; for
    every list of at most 65535 unsigned 32-bit integers [Cursor.u32_list]
    on [pack_u32_list xs] returns [xs]; and [u8], [u16], [u32], [u64] read
    back what [pack_u8], [pack_u16], [pack_u32], [pack_u64] wrote.  The
    empty string, the empty list and the 65535-long ones are instances. *)
Theorem C3_codec_round_trip :
  (forall (s : pystr) (b post : bytes),
     str_encode s = Ok b -> len b <= 65535 ->
     exists p, pack_str s = Ok p /\
       Cursor.str (new_Cursor (p ++ post))
       = Ok (s, mkCursor (p ++ post) (length p))) /\
  (forall (xs : list Z) (post : bytes),
     len xs <= 65535 -> Forall (fun x => 0 <= x < 2 ^ 32) xs ->
     exists p, pack_u32_list xs = Ok p /\
       Cursor.u32_list (new_Cursor (p ++ post))
       = Ok (xs, mkCursor (p ++ post) (length p))) /\
  (forall (x : Z) (post : bytes),
     (0 <= x < 2 ^ 8 ->
      exists p, pack_u8 x = Ok p /\
        Cursor.u8 (new_Cursor (p ++ post)) = Ok (x, mkCursor (p ++ post) 1)) /\
     (0 <= x < 2 ^ 16 ->
      exists p, pack_u16 x = Ok p /\
        Cursor.u16 (new_Cursor (p ++ post)) = Ok (x, mkCursor (p ++ post) 2)) /\
     (0 <= x < 2 ^ 32 ->
      exists p, pack_u32 x = Ok p /\
        Cursor.u32 (new_Cursor (p ++ post)) = Ok (x, mkCursor (p ++ post) 4)) /\
     (0 <= x < 2 ^ 64 ->
      exists p, pack_u64 x = Ok p /\
        Cursor.u64 (new_Cursor (p ++ post)) = Ok (x, mkCursor (p ++ post) 8))).
Proof.
  split; [|split].
  - intros s b post He Hl. eexists. split; [apply (pack_str_ok _ _ He); lia|].
    apply (str_read_at _ 0%nat s _ post); [apply (pack_str_ok _ _ He); lia|].
    reflexivity.
  - intros xs post Hl HF. eexists. split; [apply pack_u32_list_ok; assumption|].
    apply (u32_list_read_at _ 0%nat xs _ post);
      [apply pack_u32_list_ok; assumption | reflexivity].
  - intros x post.
    assert (G : forall w, (0 < w)%nat -> 0 <= x < 256 ^ Z.of_nat w ->
              exists p, struct_pack w x = Ok p /\
                read_fixed w (new_Cursor (p ++ post))
                = Ok (x, mkCursor (p ++ post) w)).
    { intros w Hw Hx. exists (be_bytes w x). split; [now apply struct_pack_ok|].
      apply (read_fixed_at w _ 0%nat x post Hw Hx). reflexivity. }
    repeat split; intros Hx.
    + destruct (G 1%nat ltac:(lia) Hx) as (p & Hp & Hr).
      exists p. split; [exact Hp | now rewrite u8_fixed].
    + destruct (G 2%nat ltac:(lia) Hx) as (p & Hp & Hr).
      exists p. split; [exact Hp | now rewrite u16_fixed].
    + destruct (G 4%nat ltac:(lia) Hx) as (p & Hp & Hr).
      exists p. split; [exact Hp | now rewrite u32_fixed].
    + destruct (G 8%nat ltac:(lia) Hx) as (p & Hp & Hr).
      exists p. split; [exact Hp | now rewrite u64_fixed].
Qed.

Lemma C3_witness :
  (exists p, pack_str [0x48; 0xE9; 0x20AC; 0x1F600] = Ok p /\
     Cursor.str (new_Cursor (p ++ [x2a]))
     = Ok ([0x48; 0xE9; 0x20AC; 0x1F600], mkCursor (p ++ [x2a]) (length p))) /\
  (exists p, pack_u32_list [1; 2; 4294967295] = Ok p /\
     Cursor.u32_list (new_Cursor (p ++ []))
     = Ok ([1; 2; 4294967295], mkCursor (p ++ []) (length p))) /\
  (exists p, pack_u16 9000 = Ok p /\
     Cursor.u16 (new_Cursor (p ++ [])) = Ok (9000, mkCursor (p ++ []) 2)).
Proof.
  destruct C3_codec_round_trip as (Hs & Hl & Hx).
  split; [|split].
  - apply (Hs _ [x48; xc3; xa9; xe2; x82; xac; xf0; x9f; x98; x80]);
      [reflexivity | vm_compute; discriminate].
  - apply Hl; [vm_compute; discriminate|].
    repeat constructor; vm_compute; congruence.
  - apply (proj1 (proj2 (Hx 9000 []))). split; [discriminate | reflexivity].
Defined.

(** C4 (as amended).  For a CONFIGURE_DSS_REQ whose payload decodes to
    [n], the dispatcher sends one CONFIGURE_DSS_RESP with the request's
    transaction id and goes on: for [n = 0] with status INVALID_ARGUMENT,
    [dss_id = 0] and no disk ids; for [n > 0] with fewer than [n] disks
    registered with status INSUFFICIENT_RESOURCES, [dss_id = 0] and no disk
    ids; for [n > 0] with at least [n] disks registered, provided the DSS id
    to mint and the allocated disk ids fit the 32-bit fields of the
    response, with status OK, the freshly minted DSS id and the [n]
    allocated disk ids. *)
Theorem C4_configure_responses :
  forall (lib_text : exn -> pystr) (addr0 : pystr) (txn : Z) (pb : bytes)
         (w : world) (n : Z) (policy cj : pystr),
    dec_configure_req pb = Ok (n, policy, cj) ->
    let f := mkFrame MsgType.CONFIGURE_DSS_REQ txn pb in
    let reply out := mkFrame MsgType.CONFIGURE_DSS_RESP txn out in
    0 <= n /\
    (n = 0 ->
     handle_msg lib_text addr0 f w
     = (mkWorld (reg w) (sent w ++ [reply (configure_failure INVALID_ARGUMENT)]),
        Ok tt)) /\
    (0 < n -> len (disks (reg w)) < n ->
     handle_msg lib_text addr0 f w
     = (mkWorld (reg w)
          (sent w ++ [reply (configure_failure INSUFFICIENT_RESOURCES)]),
        Ok tt)) /\
    (0 < n -> n <= len (disks (reg w)) ->
     0 <= next_dss_id (reg w) < 2 ^ 32 ->
     Forall (fun x => 0 <= x < 2 ^ 32) (first_disks n (reg w)) ->
     exists out,
       enc_configure_resp OK (next_dss_id (reg w)) (Some (first_disks n (reg w)))
       = Ok out /\
       dec_configure_resp out
       = Ok (int_of_status OK, next_dss_id (reg w), first_disks n (reg w)) /\
       fst (allocate_disks n (reg w)) = Some (first_disks n (reg w)) /\
       len (first_disks n (reg w)) = n /\
       handle_msg lib_text addr0 f w
       = (mkWorld (snd (mint_dss_id (reg w))) (sent w ++ [reply out]), Ok tt)) /\
    (forall s, dec_configure_resp (configure_failure s) = Ok (int_of_status s, 0, [])).
Proof.
  intros lib_text addr0 txn pb w n policy cj Hd f reply.
  pose proof (dec_configure_req_range _ _ _ _ Hd) as Hr.
  change (handle_msg lib_text addr0 f) with (handle_configure_dss txn pb).
  split; [lia|]. split; [|split; [|split]].
  - intros ->. apply (handle_configure_invalid txn pb 0 policy cj w Hd). lia.
  - intros Hn Hm. apply (handle_configure_insufficient txn pb n policy cj w Hd Hn Hm).
  - intros Hn Hm Hdss Hids.
    destruct (allocate_disks_enough n (reg w) Hn Hm) as (Ea & Hl & _).
    pose proof (enc_configure_resp_ok OK (next_dss_id (reg w))
                  (first_disks n (reg w)) Hdss ltac:(lia) Hids) as He.
    eexists. split; [exact He|].
    split; [apply (dec_configure_resp_enc _ _ _ _ He)|].
    split; [now rewrite Ea|]. split; [exact Hl|].
    rewrite (handle_configure_enough txn pb n policy cj w Hd Hn Hm), He.
    reflexivity.
  - exact dec_configure_failure.
Qed.

Lemma C4_witness :
  let r := run_ops [RegisterDisk (lit "d1") (lit "h") 9000 1000000000 (lit "z1");
                    RegisterDisk (lit "d2") (lit "h") 9001 1000000000 (lit "z1")]
             new_Registry in
  let pb := be_bytes 2 2 ++ be_bytes 2 0 ++ be_bytes 2 0 in
  exists out,
    dec_configure_resp out = Ok (0, 1, [1; 2]) /\
    handle_msg (fun _ => []) (lit "h") (mkFrame MsgType.CONFIGURE_DSS_REQ 3 pb)
      (mkWorld r [])
    = (mkWorld (snd (mint_dss_id r)) [mkFrame MsgType.CONFIGURE_DSS_RESP 3 out],
       Ok tt).
Proof.
  intros r pb.
  destruct (C4_configure_responses (fun _ => []) (lit "h") 3 pb (mkWorld r [])
              2 [] [] eq_refl) as (_ & _ & _ & S & _).
  destruct S as (out & _ & Hdec & _ & _ & Hh).
  - lia.
  - vm_compute. discriminate.
  - vm_compute. split; [discriminate | reflexivity].
  - repeat constructor; vm_compute; congruence.
  - exists out. split; [exact Hdec | exact Hh].
Defined.

(** C4, counterexample to the claim as stated.  The registry below is
    reached by registering one disk and minting 2^32 - 1 DSS ids.  A
    well-formed CONFIGURE_DSS_REQ with [n = 1] then gets no reply at all:
    [pack_u32] raises [struct.error] on the DSS id 2^32, nothing catches it,
    and the connection thread ends. *)
Lemma C4_counterexample :
  let d := mkDisk 1 (lit "d1") (lit "h") 9000 1000000000 (lit "z1") (lit "READY") in
  let r := mkRegistry 1 2 (2 ^ 32) [] [(1, d)] in
  let pb := be_bytes 2 1 ++ be_bytes 2 0 ++ be_bytes 2 0 in
  let f := mkFrame MsgType.CONFIGURE_DSS_REQ 3 pb in
  (exists ops, run_ops ops new_Registry = r) /\
  dec_configure_req pb = Ok (1, [], []) /\
  len (disks r) = 1 /\
  sent (fst (handle_msg (fun _ => []) (lit "h") f (mkWorld r []))) = [] /\
  snd (handle_conn (fun _ => []) (lit "h") [f] (mkWorld r []))
  = Uncaught (StructError 4).
Proof.
  intros d r pb f. split.
  - exists ([RegisterDisk (lit "d1") (lit "h") 9000 1000000000 (lit "z1")]
            ++ mint_many (Z.to_nat (2 ^ 32 - 1))).
    rewrite run_ops_app, run_mint_many.
    rewrite Z2Nat.id by (vm_compute; discriminate).
    reflexivity.
  - repeat split; vm_compute; reflexivity.
Qed.

(** C5. Decoding is bounds-safe.  Each of [u8], [u16], [u32], [u64], [str]
    and [u32_list] either succeeds with the cursor still inside the buffer,
    or fails with the truncated-payload error (or, for [str], with the
    decoding error of the bytes it read); it never indexes past the end.
    Whenever fewer bytes remain than the read needs, the result is the
    truncated-payload error, and the fixed-width reads and [u32_list] fail
    with no other error.  Consequently each of the five request decoders
    fails with the truncated-payload error on a well-formed payload (one
    written by the matching encoder, or more generally one that the decoder
    consumes completely) whose last byte has been removed. *)
Theorem C5_decoding_bounds_safe :
  (bounds_safe Cursor.u8 /\ bounds_safe Cursor.u16 /\ bounds_safe Cursor.u32 /\
   bounds_safe Cursor.u64 /\ bounds_safe Cursor.str /\
   bounds_safe Cursor.u32_list) /\
  (forall c,
     ((length (data c) < off c + 1)%nat -> Cursor.u8 c = Err truncated) /\
     ((length (data c) < off c + 2)%nat -> Cursor.u16 c = Err truncated) /\
     ((length (data c) < off c + 4)%nat -> Cursor.u32 c = Err truncated) /\
     ((length (data c) < off c + 8)%nat -> Cursor.u64 c = Err truncated) /\
     ((length (data c) < off c + 2)%nat -> Cursor.str c = Err truncated) /\
     ((length (data c) < off c + 2)%nat -> Cursor.u32_list c = Err truncated)) /\
  (forall c n c1,
     Cursor.u16 c = Ok (n, c1) ->
     ((length (data c) < off c + 2 + Z.to_nat n)%nat ->
      Cursor.str c = Err truncated) /\
     ((length (data c) < off c + 2 + 4 * Z.to_nat n)%nat ->
      Cursor.u32_list c = Err truncated)) /\
  (forall c e,
     Cursor.u8 c = Err e \/ Cursor.u16 c = Err e \/ Cursor.u32 c = Err e \/
     Cursor.u64 c = Err e \/ Cursor.u32_list c = Err e ->
     e = truncated) /\
  (forall name port p,
     enc_register_user_req name port = Ok p ->
     dec_register_user_req (removelast p) = Err truncated) /\
  (forall name port cap zone p,
     enc_register_disk_req name port cap zone = Ok p ->
     dec_register_disk_req (removelast p) = Err truncated) /\
  (forall n policy cj p,
     enc_configure_req n policy cj = Ok p ->
     dec_configure_req (removelast p) = Err truncated) /\
  (forall uid p,
     enc_deregister_user_req uid = Ok p ->
     dec_deregister_user_req (removelast p) = Err truncated) /\
  (forall did p,
     enc_deregister_disk_req did = Ok p ->
     dec_deregister_disk_req (removelast p) = Err truncated) /\
  (forall p,
     (forall v, read_register_user_req (new_Cursor p) = Ok (v, mkCursor p (length p)) ->
                dec_register_user_req (removelast p) = Err truncated) /\
     (forall v, read_register_disk_req (new_Cursor p) = Ok (v, mkCursor p (length p)) ->
                dec_register_disk_req (removelast p) = Err truncated) /\
     (forall v, read_configure_req (new_Cursor p) = Ok (v, mkCursor p (length p)) ->
                dec_configure_req (removelast p) = Err truncated) /\
     (forall v, Cursor.u32 (new_Cursor p) = Ok (v, mkCursor p (length p)) ->
                dec_deregister_user_req (removelast p) = Err truncated /\
                dec_deregister_disk_req (removelast p) = Err truncated)).
Proof.
  split.
  { repeat split;
      [ apply u8_safe | apply u16_safe | apply u32_safe | apply u64_safe
      | apply str_safe | apply u32_list_safe ]. }
  split.
  { intros c. repeat split; intros H.
    - rewrite u8_fixed. now apply read_fixed_short.
    - rewrite u16_fixed. now apply read_fixed_short.
    - rewrite u32_fixed. now apply read_fixed_short.
    - rewrite u64_fixed. now apply read_fixed_short.
    - rewrite str_unfold, read_fixed_short by exact H. reflexivity.
    - rewrite u32_list_unfold, read_fixed_short by exact H. reflexivity. }
  split.
  { intros c n c1 H. split; intros Hl.
    - now apply (str_short c n c1).
    - now apply (u32_list_short c n c1). }
  split.
  { intros c e [H|[H|[H|[H|H]]]].
    - rewrite u8_fixed in H. exact (read_fixed_error _ _ _ H).
    - rewrite u16_fixed in H. exact (read_fixed_error _ _ _ H).
    - rewrite u32_fixed in H. exact (read_fixed_error _ _ _ H).
    - rewrite u64_fixed in H. exact (read_fixed_error _ _ _ H).
    - exact (u32_list_error _ _ H). }
  split; [exact register_user_req_cut|].
  split; [exact register_disk_req_cut|].
  split; [exact configure_req_cut|].
  split; [exact u32_req_cut|].
  split; [exact u32_req_cut|].
  intros p. split; [|split; [|split]].
  - intros v H. apply (cut_last_byte _ p v);
      [apply read_register_user_req_ok | | exact H].
    apply (exact_nonempty _ _ _ (short_str_bind _) H).
  - intros v H. apply (cut_last_byte _ p v);
      [apply read_register_disk_req_ok | | exact H].
    apply (exact_nonempty _ _ _ (short_str_bind _) H).
  - intros v H. apply (cut_last_byte _ p v);
      [apply read_configure_req_ok | | exact H].
    refine (exact_nonempty _ _ _ _ H).
    unfold read_configure_req, mbind. rewrite u16_fixed. reflexivity.
  - intros v H.
    assert (Hc : run_cursor Cursor.u32 (removelast p) = Err truncated).
    { apply (cut_last_byte _ p v); [apply u32_stable | | exact H].
      refine (exact_nonempty _ _ _ _ H). rewrite u32_fixed. reflexivity. }
    split; exact Hc.
Qed.

Lemma C5_witness :
  dec_register_disk_req
    (removelast (be_bytes 2 2 ++ [x64; x31] ++ be_bytes 2 9000
                 ++ be_bytes 8 1000000000 ++ be_bytes 2 2 ++ [x7a; x31]))
  = Err truncated /\
  dec_deregister_user_req (removelast (be_bytes 4 999)) = Err truncated /\
  Cursor.u32 (mkCursor [x00; x00; x00] 0) = Err truncated.
Proof.
  destruct C5_decoding_bounds_safe as (_ & Hshort & _ & _ & _ & Hd & _ & Hu & _).
  split; [|split].
  - apply (Hd (lit "d1") 9000 1000000000 (lit "z1")). reflexivity.
  - apply (Hu 999). reflexivity.
  - apply (proj1 (proj2 (proj2 (Hshort (mkCursor [x00; x00; x00] 0%nat))))).
    simpl. lia.
Defined.

(** C6 (as amended).  Encoder limits.  [pack_str] succeeds exactly when its
    argument has a UTF-8 encoding and that encoding has at most 65535 bytes;
    when the encoding is longer it raises [ValueError("string too long")]
    (a 65536-byte string fails), and when the argument has no UTF-8 encoding
    it raises the [UnicodeEncodeError] of [str.encode].  [pack_u32_list]
    succeeds exactly when its argument has at most 65535 elements and every
    element is an unsigned 32-bit integer; a longer list raises
    [ValueError("list too long")] whatever it holds, and a list of at most
    65535 elements one of which does not fit 32 bits raises
    [struct.error]. *)
Theorem C6_encoder_limits :
  (forall (s : pystr) (b : bytes),
     str_encode s = Ok b ->
     ((exists p, pack_str s = Ok p) <-> len b <= 65535) /\
     (65535 < len b -> pack_str s = Err (ValueError (lit "string too long")))) /\
  pack_str (repeat 0x61 (Z.to_nat 65536))
  = Err (ValueError (lit "string too long")) /\
  (forall (xs : list Z),
     Forall (fun x => 0 <= x < 2 ^ 32) xs ->
     ((exists p, pack_u32_list xs = Ok p) <-> len xs <= 65535)) /\
  (forall (xs : list Z),
     65535 < len xs -> pack_u32_list xs = Err (ValueError (lit "list too long"))) /\
  (forall (s : pystr),
     (exists p, pack_str s = Ok p)
     <-> exists b, str_encode s = Ok b /\ len b <= 65535) /\
  (forall (s : pystr) (e : exn),
     str_encode s = Err e -> pack_str s = Err e /\ e = UnicodeEncodeError s) /\
  (forall (xs : list Z),
     (exists p, pack_u32_list xs = Ok p)
     <-> len xs <= 65535 /\ Forall (fun x => 0 <= x < 2 ^ 32) xs) /\
  (forall (xs : list Z),
     len xs <= 65535 -> ~ Forall (fun x => 0 <= x < 2 ^ 32) xs ->
     pack_u32_list xs = Err (StructError 4)).
Proof.
  split; [|split; [|split; [|split; [|split; [|split; [|split]]]]]].
  - intros s b E. split; [split|].
    + intros [p Hp]. destruct (pack_str_inv _ _ Hp) as (b' & E' & Hl & _).
      rewrite E in E'. injection E' as <-. exact Hl.
    + intros Hl. eexists. apply (pack_str_ok _ _ E). exact Hl.
    + now apply pack_str_too_long.
  - assert (N : Z.of_nat (Z.to_nat 65536) = 65536) by (apply Z2Nat.id; lia).
    generalize dependent (Z.to_nat 65536). intros n N.
    apply (pack_str_too_long _ _ (ascii_encode n)).
    unfold len. rewrite repeat_length. lia.
  - intros xs HF. split.
    + intros [p Hp]. now destruct (pack_u32_list_inv _ _ Hp) as (Hl & _).
    + intros Hl. eexists. now apply pack_u32_list_ok.
  - exact pack_u32_list_too_long.
  - intros s. split.
    + intros [p Hp]. destruct (pack_str_inv _ _ Hp) as (b & E & Hl & _).
      exists b. split; [exact E | exact Hl].
    + intros (b & E & Hl). eexists. apply (pack_str_ok _ _ E). exact Hl.
  - exact pack_str_unencodable.
  - intros xs. split.
    + intros [p Hp]. destruct (pack_u32_list_inv _ _ Hp) as (Hl & HF & _).
      split; assumption.
    + intros [Hl HF]. eexists. now apply pack_u32_list_ok.
  - exact pack_u32_list_bad_element.
Qed.

Lemma C6_witness :
  (exists p, pack_str (lit "RAID0") = Ok p) /\
  (exists p, pack_u32_list [1; 2] = Ok p) /\
  pack_u32_list [1; -1] = Err (StructError 4).
Proof.
  destruct C6_encoder_limits as (Hs & _ & Hl & _ & _ & _ & _ & Hb).
  split; [|split].
  - apply (proj2 (proj1 (Hs (lit "RAID0") [x52; x41; x49; x44; x30] eq_refl))).
    vm_compute. discriminate.
  - apply (proj2 (Hl [1; 2] ltac:(repeat constructor; vm_compute; congruence))).
    vm_compute. discriminate.
  - apply Hb; [vm_compute; discriminate|].
    intros HF. inversion HF as [|? ? _ HF']; subst.
    inversion HF' as [|? ? Hx _]; subst. lia.
Defined.

(** C6, counterexample to the claim as stated.  A list of two elements, the
    second being 2^32, is within the length limit, yet [pack_u32_list]
    neither succeeds nor raises the list-too-long error: it raises
    [struct.error].  A string holding a lone surrogate has no UTF-8
    encoding, and [pack_str] raises [UnicodeEncodeError], not the
    string-too-long error.  The list arises in the manager: once disk ids
    have reached 2^32, a configure request for the two registered disks
    hands [1; 2^32] to [pack_u32_list] and the thread ends with the
    uncaught [struct.error]. *)
Lemma C6_counterexample :
  let d1 := mkDisk 1 (lit "d") (lit "h") 9000 1 [] (lit "READY") in
  let d2 := mkDisk (2 ^ 32) (lit "d") (lit "h") 9000 1 [] (lit "READY") in
  let r := mkRegistry 1 (2 ^ 32 + 1) 1 [] [(1, d1); (2 ^ 32, d2)] in
  let pb := be_bytes 2 2 ++ be_bytes 2 0 ++ be_bytes 2 0 in
  let f := mkFrame MsgType.CONFIGURE_DSS_REQ 3 pb in
  len [1; 2 ^ 32] <= 65535 /\
  pack_u32_list [1; 2 ^ 32] = Err (StructError 4) /\
  str_encode [0xD800] = Err (UnicodeEncodeError [0xD800]) /\
  pack_str [0xD800] = Err (UnicodeEncodeError [0xD800]) /\
  (exists ops, run_ops ops new_Registry = r) /\
  dec_configure_req pb = Ok (2, [], []) /\
  fst (allocate_disks 2 r) = Some [1; 2 ^ 32] /\
  snd (handle_conn (fun _ => []) (lit "h") [f] (mkWorld r []))
  = Uncaught (StructError 4).
Proof.
  intros d1 d2 r pb f.
  split; [vm_compute; discriminate|].
  split; [vm_compute; reflexivity|].
  split; [vm_compute; reflexivity|].
  split; [vm_compute; reflexivity|].
  split.
  - exists ([RegisterDisk (lit "d") (lit "h") 9000 1 []]
            ++ churn_disks 2 (Z.to_nat (2 ^ 32 - 2))
            ++ [RegisterDisk (lit "d") (lit "h") 9000 1 []]).
    rewrite !run_ops_app.
    change (run_ops [RegisterDisk (lit "d") (lit "h") 9000 1 []] new_Registry)
      with (mkRegistry 1 2 1 [] [(1, d1)]).
    rewrite run_churn_disks by lia.
    rewrite Z2Nat.id by (vm_compute; discriminate).
    reflexivity.
  - repeat split; vm_compute; reflexivity.
Qed.

(** C7 (as amended).  For a REGISTER_USER_REQ or REGISTER_DISK_REQ whose
    payload fails to decode or fails validation (empty name, listen port 0,
    or for disks capacity 0), the dispatcher sends ERROR_RESP with status
    INVALID_ARGUMENT and the text of the exception, leaves the registry as
    it was and goes on with the loop.  Otherwise, provided the id to assign
    fits the 32-bit field of the response, it registers the entity and sends
    REGISTER_USER_RESP (resp. REGISTER_DISK_RESP) with status OK and the
    newly assigned id.  The text CPython gives a [UnicodeDecodeError] is a
    parameter, assumed to fit the message field. *)
Theorem C7_register_requests :
  forall (lib_text : exn -> pystr),
    (forall obj, exists b, pack_str (lib_text (UnicodeDecodeError obj)) = Ok b) ->
    forall (addr0 : pystr) (txn : Z) (pb : bytes) (w : world),
      let fu := mkFrame MsgType.REGISTER_USER_REQ txn pb in
      let fd := mkFrame MsgType.REGISTER_DISK_REQ txn pb in
      (* REGISTER_USER_REQ *)
      (forall e, dec_register_user_req pb = Err e ->
         exists b, pack_str (exn_str lib_text e) = Ok b /\
           dec_error_resp (status_byte INVALID_ARGUMENT ++ b)
           = Ok (int_of_status INVALID_ARGUMENT, exn_str lib_text e) /\
           handle_msg lib_text addr0 fu w = (error_reply w txn b, Ok tt)) /\
      (forall name port, dec_register_user_req pb = Ok (name, port) ->
         name = [] \/ port = 0 ->
         exists b, pack_str (lit "missing name/port") = Ok b /\
           handle_msg lib_text addr0 fu w = (error_reply w txn b, Ok tt)) /\
      (forall name port, dec_register_user_req pb = Ok (name, port) ->
         name <> [] -> port <> 0 ->
         0 <= next_user_id (reg w) < 2 ^ 32 ->
         let uid := next_user_id (reg w) in
         let r' := snd (register_user name addr0 port (reg w)) in
         let out := status_byte OK ++ be_bytes 4 uid in
         handle_msg lib_text addr0 fu w
         = (mkWorld r' (sent w ++ [mkFrame MsgType.REGISTER_USER_RESP txn out]),
            Ok tt) /\
         dec_register_user_resp out = Ok (int_of_status OK, uid) /\
         dict_get uid (users r') = Some (mkUser uid name addr0 port (lit "READY"))) /\
      (* REGISTER_DISK_REQ *)
      (forall e, dec_register_disk_req pb = Err e ->
         exists b, pack_str (exn_str lib_text e) = Ok b /\
           dec_error_resp (status_byte INVALID_ARGUMENT ++ b)
           = Ok (int_of_status INVALID_ARGUMENT, exn_str lib_text e) /\
           handle_msg lib_text addr0 fd w = (error_reply w txn b, Ok tt)) /\
      (forall name port cap zone,
         dec_register_disk_req pb = Ok (name, port, cap, zone) ->
         name = [] \/ port = 0 \/ cap = 0 ->
         exists b, pack_str (lit "bad disk args") = Ok b /\
           handle_msg lib_text addr0 fd w = (error_reply w txn b, Ok tt)) /\
      (forall name port cap zone,
         dec_register_disk_req pb = Ok (name, port, cap, zone) ->
         name <> [] -> port <> 0 -> cap <> 0 ->
         0 <= next_disk_id (reg w) < 2 ^ 32 ->
         let did := next_disk_id (reg w) in
         let r' := snd (register_disk name addr0 port cap zone (reg w)) in
         let out := status_byte OK ++ be_bytes 4 did in
         handle_msg lib_text addr0 fd w
         = (mkWorld r' (sent w ++ [mkFrame MsgType.REGISTER_DISK_RESP txn out]),
            Ok tt) /\
         dec_register_disk_resp out = Ok (int_of_status OK, did) /\
         dict_get did (disks r')
         = Some (mkDisk did name addr0 port cap zone (lit "READY"))) /\
      (* an iteration that ended normally is followed by the next one *)
      (forall f rest w1 w2,
         handle_msg lib_text addr0 f w1 = (w2, Ok tt) ->
         handle_conn lib_text addr0 (f :: rest) w1
         = handle_conn lib_text addr0 rest w2).
Proof.
  intros lib_text Htext addr0 txn pb w fu fd.
  change (handle_msg lib_text addr0 fu)
    with (handle_register_user lib_text addr0 txn pb).
  change (handle_msg lib_text addr0 fd)
    with (handle_register_disk lib_text addr0 txn pb).
  split; [|split; [|split; [|split; [|split; [|split]]]]].
  - intros e He.
    assert (Hc : e = truncated \/ exists b, e = UnicodeDecodeError b)
      by (apply (run_cursor_error _ pb e (proj1 read_register_user_req_ok) He)).
    destruct (decode_error_text lib_text e Htext Hc) as [b Hb].
    exists b. split; [exact Hb|]. split; [now apply dec_error_resp_enc|].
    rewrite handle_register_user_unfold, He. now apply reply_error_ok.
  - intros name port Hd Hbad.
    pose proof (dec_register_user_req_range _ _ _ Hd) as Hr.
    destruct (proj1 pack_literal_texts) as [b Hb]. exists b. split; [exact Hb|].
    rewrite handle_register_user_unfold, Hd.
    assert (Ht : py_not name || (port <=? 0) = true).
    { destruct Hbad as [->| ->]; [reflexivity|]. apply orb_true_r. }
    rewrite Ht. now apply reply_error_ok.
  - intros name port Hd Hname Hport Hid uid r' out.
    pose proof (dec_register_user_req_range _ _ _ Hd) as Hr.
    destruct (enc_id_resp_ok uid Hid) as [He _].
    split; [|split].
    + rewrite handle_register_user_unfold, Hd.
      assert (Hf : py_not name || (port <=? 0) = false).
      { apply orb_false_iff. split.
        - destruct name; [congruence | reflexivity].
        - apply Z.leb_gt. lia. }
      rewrite Hf. cbv zeta. fold uid. rewrite He. reflexivity.
    + apply (dec_id_resp_enc OK uid). exact He.
    + apply dict_get_set.
  - intros e He.
    assert (Hc : e = truncated \/ exists b, e = UnicodeDecodeError b)
      by (apply (run_cursor_error _ pb e (proj1 read_register_disk_req_ok) He)).
    destruct (decode_error_text lib_text e Htext Hc) as [b Hb].
    exists b. split; [exact Hb|]. split; [now apply dec_error_resp_enc|].
    rewrite handle_register_disk_unfold, He. now apply reply_error_ok.
  - intros name port cap zone Hd Hbad.
    destruct (proj2 pack_literal_texts) as [b Hb]. exists b. split; [exact Hb|].
    rewrite handle_register_disk_unfold, Hd.
    assert (Ht : py_not name || (port <=? 0) || (cap <=? 0) = true).
    { destruct Hbad as [->|[->| ->]];
        [reflexivity | now rewrite orb_true_r | now rewrite orb_true_r]. }
    rewrite Ht. now apply reply_error_ok.
  - intros name port cap zone Hd Hname Hport Hcap Hid did r' out.
    destruct (dec_register_disk_req_range _ _ _ _ _ Hd) as [Hrp Hrc].
    destruct (enc_id_resp_ok did Hid) as [_ He].
    split; [|split].
    + rewrite handle_register_disk_unfold, Hd.
      assert (Hf : py_not name || (port <=? 0) || (cap <=? 0) = false).
      { rewrite !orb_false_iff. repeat split.
        - destruct name; [congruence | reflexivity].
        - apply Z.leb_gt. lia.
        - apply Z.leb_gt. lia. }
      rewrite Hf. cbv zeta. fold did. rewrite He. reflexivity.
    + apply (dec_id_resp_enc OK did). exact He.
    + apply dict_get_set.
  - intros f rest w1 w2. apply handle_conn_continue.
Qed.

Lemma C7_witness :
  let text := fun _ : exn => lit "invalid utf-8" in
  let pb := be_bytes 2 5 ++ [x61; x6c; x69; x63; x65] ++ be_bytes 2 7000 in
  let w := mkWorld new_Registry [] in
  handle_msg text (lit "10.0.0.1") (mkFrame MsgType.REGISTER_USER_REQ 1 pb) w
  = (mkWorld (snd (register_user (lit "alice") (lit "10.0.0.1") 7000 new_Registry))
       [mkFrame MsgType.REGISTER_USER_RESP 1 (status_byte OK ++ be_bytes 4 1)],
     Ok tt) /\
  (exists b, pack_str (lit "missing name/port") = Ok b /\
     handle_msg text (lit "10.0.0.1")
       (mkFrame MsgType.REGISTER_USER_REQ 2 (be_bytes 2 0 ++ be_bytes 2 7000)) w
     = (error_reply w 2 b, Ok tt)).
Proof.
  intros text pb w.
  assert (Ht : forall obj, exists b, pack_str (text (UnicodeDecodeError obj)) = Ok b)
    by (intros obj; eexists; vm_compute; reflexivity).
  split.
  - destruct (C7_register_requests text Ht (lit "10.0.0.1") 1 pb w)
      as (_ & _ & S & _).
    refine (proj1 (S (lit "alice") 7000 eq_refl _ _ _)).
    + discriminate.
    + discriminate.
    + vm_compute. split; [discriminate | reflexivity].
  - destruct (C7_register_requests text Ht (lit "10.0.0.1") 2
                (be_bytes 2 0 ++ be_bytes 2 7000) w) as (_ & F & _).
    apply (F [] 7000 eq_refl). now left.
Defined.

(** C7, counterexample to the claim as stated.  The registry below is
    reached by registering and deregistering 2^32 - 1 users.  The next
    REGISTER_USER_REQ decodes and passes validation, so the user is
    registered with id 2^32; [pack_u32] then raises [struct.error] on that
    id, the handler's [except Exception] catches it, and the peer is sent
    ERROR_RESP although a registry record was created. *)
Lemma C7_counterexample :
  let text := fun _ : exn => lit "argument out of range" in
  let r := mkRegistry (2 ^ 32) 1 1 [] [] in
  let pb := be_bytes 2 5 ++ [x61; x6c; x69; x63; x65] ++ be_bytes 2 7000 in
  let f := mkFrame MsgType.REGISTER_USER_REQ 1 pb in
  let w' := fst (handle_msg text (lit "10.0.0.1") f (mkWorld r [])) in
  (exists ops, run_ops ops new_Registry = r) /\
  dec_register_user_req pb = Ok (lit "alice", 7000) /\
  map msg_type (sent w') = [MsgType.ERROR_RESP] /\
  dict_get (2 ^ 32) (users (reg w'))
  = Some (mkUser (2 ^ 32) (lit "alice") (lit "10.0.0.1") 7000 (lit "READY")).
Proof.
  intros text r pb f w'. split.
  - exists (churn_users 1 (Z.to_nat (2 ^ 32 - 1))).
    change new_Registry with (mkRegistry 1 1 1 [] []).
    rewrite run_churn_users.
    rewrite Z2Nat.id by (vm_compute; discriminate).
    reflexivity.
  - repeat split; vm_compute; reflexivity.
Qed.

(** C8. In every registry state a history can produce, [deregister_user uid]
    returns [True] exactly when [uid] is registered; it then removes that
    record and nothing else, and otherwise returns [False] and leaves the
    registry as it was.  For a DEREGISTER_USER_REQ carrying [uid] the
    dispatcher sends one DEREGISTER_USER_RESP with the request's transaction
    id, status OK if the record was present and NOT_REGISTERED if not, and
    goes on with the loop.  The same holds for disks. *)
Theorem C8_deregister_reports_presence :
  forall (ops : list reg_op) (id : Z),
    let r := run_ops ops new_Registry in
    (* deregister_user *)
    (registered id (users r) ->
     let r' := snd (deregister_user id r) in
     fst (deregister_user id r) = true /\
     ~ registered id (users r') /\
     (forall k, k <> id -> dict_get k (users r') = dict_get k (users r)) /\
     disks r' = disks r /\ next_user_id r' = next_user_id r /\
     next_disk_id r' = next_disk_id r /\ next_dss_id r' = next_dss_id r) /\
    (~ registered id (users r) -> deregister_user id r = (false, r)) /\
    (forall lib_text addr0 txn pb out,
       dec_deregister_user_req pb = Ok id ->
       let f := mkFrame MsgType.DEREGISTER_USER_REQ txn pb in
       let reply s := mkFrame MsgType.DEREGISTER_USER_RESP txn (status_byte s) in
       (registered id (users r) ->
        handle_msg lib_text addr0 f (mkWorld r out)
        = (mkWorld (snd (deregister_user id r)) (out ++ [reply OK]), Ok tt)) /\
       (~ registered id (users r) ->
        handle_msg lib_text addr0 f (mkWorld r out)
        = (mkWorld r (out ++ [reply NOT_REGISTERED]), Ok tt))) /\
    (* deregister_disk *)
    (registered id (disks r) ->
     let r' := snd (deregister_disk id r) in
     fst (deregister_disk id r) = true /\
     ~ registered id (disks r') /\
     (forall k, k <> id -> dict_get k (disks r') = dict_get k (disks r)) /\
     users r' = users r /\ next_user_id r' = next_user_id r /\
     next_disk_id r' = next_disk_id r /\ next_dss_id r' = next_dss_id r) /\
    (~ registered id (disks r) -> deregister_disk id r = (false, r)) /\
    (forall lib_text addr0 txn pb out,
       dec_deregister_disk_req pb = Ok id ->
       let f := mkFrame MsgType.DEREGISTER_DISK_REQ txn pb in
       let reply s := mkFrame MsgType.DEREGISTER_DISK_RESP txn (status_byte s) in
       (registered id (disks r) ->
        handle_msg lib_text addr0 f (mkWorld r out)
        = (mkWorld (snd (deregister_disk id r)) (out ++ [reply OK]), Ok tt)) /\
       (~ registered id (disks r) ->
        handle_msg lib_text addr0 f (mkWorld r out)
        = (mkWorld r (out ++ [reply NOT_REGISTERED]), Ok tt))).
Proof.
  intros ops id r.
  assert (I : registry_inv r) by (apply run_ops_inv, new_Registry_inv).
  split; [|split; [|split; [|split; [|split]]]].
  - intros Hr r'. destruct (deregister_user_effect id r) as (Eu & Ed & E1 & E2 & E3).
    fold r' in Eu, Ed, E1, E2, E3.
    split; [now apply deregister_user_true|].
    split; [rewrite Eu; apply dict_pop_removed, (inv_users_sorted r I)|].
    split; [intros k Hk; rewrite Eu; now apply dict_pop_others|].
    auto.
  - apply deregister_user_absent.
  - intros lib_text addr0 txn pb out Hd f reply.
    change (handle_msg lib_text addr0 f) with (handle_deregister_user txn pb).
    rewrite (handle_deregister_user_ok txn pb id _ Hd). cbn [reg sent].
    split; intros Hr.
    + now rewrite (proj2 (deregister_user_true id r) Hr).
    + now rewrite (deregister_user_absent id r Hr).
  - intros Hr r'. destruct (deregister_disk_effect id r) as (Ed & Eu & E1 & E2 & E3).
    fold r' in Eu, Ed, E1, E2, E3.
    split; [now apply deregister_disk_true|].
    split; [rewrite Ed; apply dict_pop_removed, (inv_disks_sorted r I)|].
    split; [intros k Hk; rewrite Ed; now apply dict_pop_others|].
    auto.
  - apply deregister_disk_absent.
  - intros lib_text addr0 txn pb out Hd f reply.
    change (handle_msg lib_text addr0 f) with (handle_deregister_disk txn pb).
    rewrite (handle_deregister_disk_ok txn pb id _ Hd). cbn [reg sent].
    split; intros Hr.
    + now rewrite (proj2 (deregister_disk_true id r) Hr).
    + now rewrite (deregister_disk_absent id r Hr).
Qed.

Lemma C8_witness :
  let ops := [RegisterUser (lit "u1") (lit "h") 7000] in
  let r := run_ops ops new_Registry in
  fst (deregister_user 1 r) = true /\
  deregister_user 999 r = (false, r) /\
  handle_msg (fun _ => []) (lit "h")
    (mkFrame MsgType.DEREGISTER_USER_REQ 5 (be_bytes 4 999)) (mkWorld r [])
  = (mkWorld r [mkFrame MsgType.DEREGISTER_USER_RESP 5 (status_byte NOT_REGISTERED)],
     Ok tt).
Proof.
  intros ops r.
  assert (A : ~ registered 999 (users r))
    by (vm_compute; intros [H|[]]; discriminate).
  destruct (C8_deregister_reports_presence ops 1) as (P1 & _).
  destruct (C8_deregister_reports_presence ops 999) as (_ & P2 & P3 & _).
  split; [|split].
  - apply P1. vm_compute. now left.
  - apply P2, A.
  - exact (proj2 (P3 (fun _ => []) (lit "h") 5 (be_bytes 4 999) [] eq_refl) A).
Defined.

(** C9. Handling a CONFIGURE_DSS_REQ changes nothing in the registry except
    [next_dss_id], which goes up by exactly 1 when the request succeeds
    ([n > 0] and at least [n] disks registered) and stays as it is on every
    failure ([n = 0], fewer than [n] disks, undecodable payload).
    [allocate_disks] itself returns the registry unchanged, so a later
    allocation returns the same disk ids again. *)
Theorem C9_configure_frame :
  forall (lib_text : exn -> pystr) (addr0 : pystr) (txn : Z) (pb : bytes) (w : world),
    let w' := fst (handle_msg lib_text addr0
                     (mkFrame MsgType.CONFIGURE_DSS_REQ txn pb) w) in
    (forall n r, snd (allocate_disks n r) = r) /\
    users (reg w') = users (reg w) /\
    disks (reg w') = disks (reg w) /\
    next_user_id (reg w') = next_user_id (reg w) /\
    next_disk_id (reg w') = next_disk_id (reg w) /\
    (forall m, fst (allocate_disks m (reg w')) = fst (allocate_disks m (reg w))) /\
    (forall n policy cj,
       dec_configure_req pb = Ok (n, policy, cj) ->
       0 < n -> n <= len (disks (reg w)) ->
       next_dss_id (reg w') = next_dss_id (reg w) + 1) /\
    (forall n policy cj,
       dec_configure_req pb = Ok (n, policy, cj) ->
       n = 0 \/ len (disks (reg w)) < n ->
       reg w' = reg w) /\
    (forall e, dec_configure_req pb = Err e -> reg w' = reg w).
Proof.
  intros lib_text addr0 txn pb w w'.
  change (handle_msg lib_text addr0 (mkFrame MsgType.CONFIGURE_DSS_REQ txn pb))
    with (handle_configure_dss txn pb) in w'.
  assert (Cases :
    reg w' = reg w \/
    (reg w' = snd (mint_dss_id (reg w)) /\
     exists n policy cj, dec_configure_req pb = Ok (n, policy, cj) /\
                         0 < n <= len (disks (reg w)))).
  { subst w'. destruct (dec_configure_req pb) as [[[n policy] cj]|e] eqn:Hd.
    - pose proof (dec_configure_req_range _ _ _ _ Hd) as Hr.
      destruct (Z.eq_dec n 0) as [->|Hn0].
      + rewrite (handle_configure_invalid txn pb 0 policy cj w Hd) by lia. now left.
      + destruct (Z.lt_ge_cases (len (disks (reg w))) n) as [Hlt|Hge].
        * rewrite (handle_configure_insufficient txn pb n policy cj w Hd) by lia.
          now left.
        * rewrite (handle_configure_enough txn pb n policy cj w Hd) by lia.
          right. split; [|exists n, policy, cj; split; [reflexivity | lia]].
          destruct (enc_configure_resp _ _ _); reflexivity.
    - rewrite (handle_configure_err txn pb e w Hd). now left. }
  split; [apply allocate_disks_frame|].
  assert (Frame : users (reg w') = users (reg w) /\ disks (reg w') = disks (reg w) /\
                  next_user_id (reg w') = next_user_id (reg w) /\
                  next_disk_id (reg w') = next_disk_id (reg w)).
  { destruct Cases as [E|[E _]]; rewrite E; simpl; auto. }
  destruct Frame as (Fu & Fd & F1 & F2).
  repeat (split; [assumption|]).
  split; [|split; [|split]].
  - intros m. unfold allocate_disks. rewrite Fd.
    destruct (_ <? m); reflexivity.
  - intros n policy cj Hd Hn Hm.
    destruct Cases as [E|[E _]]; [|rewrite E; reflexivity].
    exfalso. subst w'.
    rewrite (handle_configure_enough txn pb n policy cj w Hd Hn Hm) in E.
    assert (E' : next_dss_id (reg w) + 1 = next_dss_id (reg w))
      by (destruct (enc_configure_resp _ _ _);
          apply (f_equal next_dss_id) in E; exact E).
    lia.
  - intros n policy cj Hd Hn.
    destruct Cases as [E|[_ (n' & p' & c' & Hd' & Hr)]]; [exact E|].
    rewrite Hd in Hd'. injection Hd' as <- _ _. lia.
  - intros e Hd.
    destruct Cases as [E|[_ (n' & p' & c' & Hd' & Hr)]]; [exact E|].
    rewrite Hd in Hd'. discriminate.
Qed.

Lemma C9_witness :
  let r := run_ops [RegisterDisk (lit "d1") (lit "h") 9000 1000000000 (lit "z1");
                    RegisterDisk (lit "d2") (lit "h") 9001 1000000000 (lit "z1")]
             new_Registry in
  let w := mkWorld r [] in
  let req n := mkFrame MsgType.CONFIGURE_DSS_REQ 1
                 (be_bytes 2 n ++ be_bytes 2 0 ++ be_bytes 2 0) in
  next_dss_id (reg (fst (handle_msg (fun _ => []) (lit "h") (req 2) w)))
  = next_dss_id r + 1 /\
  reg (fst (handle_msg (fun _ => []) (lit "h") (req 3) w)) = r.
Proof.
  intros r w req. split.
  - destruct (C9_configure_frame (fun _ => []) (lit "h") 1 (payload (req 2)) w)
      as (_ & _ & _ & _ & _ & _ & S & _).
    apply (S 2 [] []); [reflexivity | lia | vm_compute; discriminate].
  - destruct (C9_configure_frame (fun _ => []) (lit "h") 1 (payload (req 3)) w)
      as (_ & _ & _ & _ & _ & _ & _ & F & _).
    apply (F 3 [] []); [reflexivity | right; vm_compute; reflexivity].
Defined.

(** C10.  A DEREGISTER_USER_REQ, DEREGISTER_DISK_REQ or CONFIGURE_DSS_REQ
    whose payload is too short to decode gets no response: the decoder's
    [ValueError("truncated payload")] is raised outside any local [try], is
    not a [ConnectionError] or [OSError], and so ends the connection loop
    with nothing sent, the registry untouched and the remaining frames
    unread.  For REGISTER_USER_REQ and REGISTER_DISK_REQ the same decode
    error is answered with ERROR_RESP and the loop goes on. *)
Theorem C10_short_payload_ends_connection :
  forall (lib_text : exn -> pystr) (addr0 : pystr) (txn : Z) (pb : bytes)
         (rest : list frame) (w : world),
    (dec_deregister_user_req pb = Err truncated ->
     handle_conn lib_text addr0
       (mkFrame MsgType.DEREGISTER_USER_REQ txn pb :: rest) w
     = (w, Uncaught truncated)) /\
    (dec_deregister_disk_req pb = Err truncated ->
     handle_conn lib_text addr0
       (mkFrame MsgType.DEREGISTER_DISK_REQ txn pb :: rest) w
     = (w, Uncaught truncated)) /\
    (dec_configure_req pb = Err truncated ->
     handle_conn lib_text addr0
       (mkFrame MsgType.CONFIGURE_DSS_REQ txn pb :: rest) w
     = (w, Uncaught truncated)) /\
    (dec_register_user_req pb = Err truncated ->
     exists b, pack_str (lit "truncated payload") = Ok b /\
       handle_conn lib_text addr0
         (mkFrame MsgType.REGISTER_USER_REQ txn pb :: rest) w
       = handle_conn lib_text addr0 rest (error_reply w txn b)) /\
    (dec_register_disk_req pb = Err truncated ->
     exists b, pack_str (lit "truncated payload") = Ok b /\
       handle_conn lib_text addr0
         (mkFrame MsgType.REGISTER_DISK_REQ txn pb :: rest) w
       = handle_conn lib_text addr0 rest (error_reply w txn b)) /\
    ((length pb < 4)%nat ->
     dec_deregister_user_req pb = Err truncated /\
     dec_deregister_disk_req pb = Err truncated) /\
    ((length pb < 2)%nat ->
     dec_configure_req pb = Err truncated /\
     dec_register_user_req pb = Err truncated /\
     dec_register_disk_req pb = Err truncated) /\
    is_OSError truncated = false.
Proof.
  intros lib_text addr0 txn pb rest w.
  split; [|split; [|split; [|split; [|split; [|split; [|split]]]]]].
  - intros H.
    rewrite (handle_conn_raise lib_text addr0 _ rest w w truncated); [reflexivity|].
    now apply handle_deregister_user_err.
  - intros H.
    rewrite (handle_conn_raise lib_text addr0 _ rest w w truncated); [reflexivity|].
    now apply handle_deregister_disk_err.
  - intros H.
    rewrite (handle_conn_raise lib_text addr0 _ rest w w truncated); [reflexivity|].
    now apply handle_configure_err.
  - intros H. destruct pack_truncated_text as [b Hb]. exists b. split; [exact Hb|].
    apply handle_conn_continue.
    change (handle_msg lib_text addr0 (mkFrame MsgType.REGISTER_USER_REQ txn pb))
      with (handle_register_user lib_text addr0 txn pb).
    rewrite handle_register_user_unfold, H. now apply reply_error_ok.
  - intros H. destruct pack_truncated_text as [b Hb]. exists b. split; [exact Hb|].
    apply handle_conn_continue.
    change (handle_msg lib_text addr0 (mkFrame MsgType.REGISTER_DISK_REQ txn pb))
      with (handle_register_disk lib_text addr0 txn pb).
    rewrite handle_register_disk_unfold, H. now apply reply_error_ok.
  - intros H. split; now apply short_u32.
  - intros H. split; [now apply short_configure|].
    split; [now apply short_register_user | now apply short_register_disk].
  - reflexivity.
Qed.

Lemma C10_witness :
  let w := mkWorld new_Registry [] in
  let later := [mkFrame MsgType.REGISTER_USER_REQ 2
                  (be_bytes 2 1 ++ [x75] ++ be_bytes 2 7000)] in
  handle_conn (fun _ => []) (lit "h")
    (mkFrame MsgType.DEREGISTER_USER_REQ 1 [x00; x00; x01] :: later) w
  = (w, Uncaught truncated) /\
  handle_conn (fun _ => []) (lit "h")
    (mkFrame MsgType.CONFIGURE_DSS_REQ 1 [x00] :: later) w
  = (w, Uncaught truncated).
Proof.
  intros w later. split.
  - apply (proj1 (C10_short_payload_ends_connection (fun _ => []) (lit "h") 1
                    [x00; x00; x01] later w)).
    reflexivity.
  - apply (proj1 (proj2 (proj2 (C10_short_payload_ends_connection (fun _ => [])
                    (lit "h") 1 [x00] later w)))).
    reflexivity.
Defined.


(* ===================================================================== *)
(** * Further properties *)

(** ** Socket I/O *)

Lemma stream_cons (c : chunk) (rest : list chunk) :
  stream (c :: rest) = chunk_bytes c ++ stream rest.
Proof. reflexivity. Qed.

Lemma recv_spec (sock : socket) (n : nat) :
  (0 < n)%nat ->
  let (b, s') := Wire.recv sock n in
  stream (inbox sock) = b ++ stream (inbox s') /\
  (length b <= n)%nat /\ outbox s' = outbox sock /\
  (b = [] -> inbox sock = [] /\ s' = sock).
Proof.
  intros Hn. unfold Wire.recv.
  destruct (inbox sock) as [|c rest] eqn:E.
  - rewrite E. repeat split; auto. simpl. lia.
  - destruct (Nat.leb_spec (length (chunk_bytes c)) n) as [Hl|Hl].
    + cbn [inbox outbox]. rewrite stream_cons. repeat split; auto; discriminate.
    + cbn [inbox outbox]. rewrite stream_cons.
      assert (S : stream (match skipn n (chunk_bytes c) with
                          | [] => rest
                          | b :: bs => (b, bs) :: rest
                          end) = skipn n (chunk_bytes c) ++ stream rest).
      { destruct (skipn n (chunk_bytes c)) as [|b bs]; reflexivity. }
      rewrite S, app_assoc, firstn_skipn.
      split; [reflexivity|]. split; [rewrite length_firstn; lia|].
      split; [reflexivity|].
      intros H0. apply (f_equal (@length byte)) in H0.
      rewrite length_firstn in H0. simpl in H0. lia.
Qed.

Lemma recv_loop_spec (sock : socket) (remaining : nat) (bufs : list bytes) :
  match Wire.recv_loop sock remaining bufs with
  | (Ok b, s') =>
      (remaining <= length (stream (inbox sock)))%nat /\
      b = concat bufs ++ firstn remaining (stream (inbox sock)) /\
      stream (inbox s') = skipn remaining (stream (inbox sock)) /\
      outbox s' = outbox sock
  | (Err e, s') =>
      (length (stream (inbox sock)) < remaining)%nat /\
      e = ConnectionError (lit "socket closed") /\
      inbox s' = [] /\ outbox s' = outbox sock
  end.
Proof.
  functional induction (Wire.recv_loop sock remaining bufs) as [| |? ? ? ? ? ? ? ? Heq IH].
  - cbn [firstn skipn]. rewrite app_nil_r. repeat split; auto. lia.
  - rename e0 into Heq.
    pose proof (recv_spec sock (S _x) ltac:(lia)) as R. rewrite Heq in R.
    destruct R as (Hs & _ & Ho & Hnil). destruct (Hnil eq_refl) as [Hi ->].
    rewrite Hi. cbn. repeat split; auto. lia.
  - pose proof (recv_spec sock (S _x) ltac:(lia)) as R. rewrite Heq in R.
    destruct R as (Hs & Hl & Ho & _).
    assert (Hpos : (1 <= length (b :: bs))%nat) by (simpl; lia).
    generalize dependent (b :: bs). intros chunk IH Heq Hs Hl Hpos.
    destruct (Wire.recv_loop sock' (S _x - length chunk) (bufs ++ [chunk]))
      as [[out|e] s''].
    + destruct IH as (H1 & H2 & H3 & H4).
      rewrite Hs, length_app.
      split; [lia|]. split; [|split].
      * rewrite H2, concat_app. cbn [concat]. rewrite app_nil_r, <- app_assoc.
        f_equal. rewrite firstn_app.
        replace (firstn (S _x) chunk) with chunk
          by (symmetry; apply firstn_all2; lia).
        reflexivity.
      * rewrite H3, skipn_app.
        replace (skipn (S _x) chunk) with (@nil byte)
          by (symmetry; apply skipn_all2; lia).
        reflexivity.
      * congruence.
    + destruct IH as (H1 & H2 & H3 & H4).
      rewrite Hs, length_app.
      split; [lia|]. repeat split; auto. congruence.
Qed.

Lemma recv_exact_ok (sock : socket) (n : nat) :
  (n <= length (stream (inbox sock)))%nat ->
  exists s', Wire.recv_exact sock n = (Ok (firstn n (stream (inbox sock))), s') /\
             stream (inbox s') = skipn n (stream (inbox sock)) /\
             outbox s' = outbox sock.
Proof.
  intros Hn. unfold Wire.recv_exact.
  pose proof (recv_loop_spec sock n []) as S.
  destruct (Wire.recv_loop sock n []) as [[b|e] s'].
  - destruct S as (_ & -> & Hs & Ho). exists s'. auto.
  - destruct S as (Hlt & _). lia.
Qed.

Lemma recv_exact_closed (sock : socket) (n : nat) :
  (length (stream (inbox sock)) < n)%nat ->
  exists s', Wire.recv_exact sock n
             = (Err (ConnectionError (lit "socket closed")), s') /\
             inbox s' = [] /\ outbox s' = outbox sock.
Proof.
  intros Hn. unfold Wire.recv_exact.
  pose proof (recv_loop_spec sock n []) as S.
  destruct (Wire.recv_loop sock n []) as [[b|e] s'].
  - destruct S as (Hle & _). lia.
  - destruct S as (_ & -> & Hi & Ho). exists s'. auto.
Qed.

Lemma Ok_eq {A} (a b : A) : Ok a = Ok b -> a = b.
Proof. congruence. Qed.

Lemma header_length (v mt txn plen : Z) (hdr : bytes) :
  Wire.HEADER_pack v mt txn plen = Ok hdr -> length hdr = Wire.HEADER_size.
Proof.
  unfold Wire.HEADER_pack. destruct (_ && _); [|discriminate].
  intros E. apply Ok_eq in E. subst hdr.
  rewrite !length_app, !be_bytes_length. reflexivity.
Qed.

Lemma header_pack_ok (v mt txn plen : Z) :
  0 <= v < 256 -> 0 <= mt < 256 -> 0 <= txn < 2 ^ 32 -> 0 <= plen < 2 ^ 32 ->
  Wire.HEADER_pack v mt txn plen
  = Ok (be_bytes 1 v ++ be_bytes 1 mt ++ be_bytes 4 txn ++ be_bytes 4 plen).
Proof.
  intros Hv Hm Ht Hp. unfold Wire.HEADER_pack.
  destruct Hv, Hm, Ht, Hp.
  repeat match goal with
         | |- context [?a <=? ?b] =>
             replace (a <=? b) with true by (symmetry; now apply Z.leb_le)
         | |- context [?a <? ?b] =>
             replace (a <? b) with true by (symmetry; now apply Z.ltb_lt)
         end.
  reflexivity.
Qed.

Lemma header_pack_inv (v mt txn plen : Z) (hdr : bytes) :
  Wire.HEADER_pack v mt txn plen = Ok hdr ->
  0 <= v < 256 /\ 0 <= mt < 256 /\ 0 <= txn < 2 ^ 32 /\ 0 <= plen < 2 ^ 32 /\
  hdr = be_bytes 1 v ++ be_bytes 1 mt ++ be_bytes 4 txn ++ be_bytes 4 plen.
Proof.
  unfold Wire.HEADER_pack.
  destruct (_ && _) eqn:E; [|discriminate]. intros E'. apply Ok_eq in E'.
  subst hdr. rewrite !andb_true_iff, !Z.leb_le, !Z.ltb_lt in E.
  destruct E as [[[[[[[? ?] ?] ?] ?] ?] ?] ?].
  repeat split; try assumption.
Qed.

Lemma header_pack_err (v mt txn plen : Z) :
  ~ (0 <= v < 256 /\ 0 <= mt < 256 /\ 0 <= txn < 2 ^ 32 /\ 0 <= plen < 2 ^ 32) ->
  Wire.HEADER_pack v mt txn plen = Err (StructError Wire.HEADER_size).
Proof.
  intros H. unfold Wire.HEADER_pack.
  destruct (_ && _) eqn:E; [|reflexivity].
  rewrite !andb_true_iff, !Z.leb_le, !Z.ltb_lt in E. exfalso. apply H.
  destruct E as [[[[[[[? ?] ?] ?] ?] ?] ?] ?].
  repeat split; assumption.
Qed.

Lemma header_unpack_pack (v mt txn plen : Z) (hdr : bytes) :
  Wire.HEADER_pack v mt txn plen = Ok hdr ->
  Wire.HEADER_unpack hdr = Ok (v, mt, txn, plen).
Proof.
  intros H. pose proof (header_length _ _ _ _ _ H) as L.
  destruct (header_pack_inv _ _ _ _ _ H) as (Hv & Hm & Ht & Hp & ->).
  unfold Wire.HEADER_unpack. rewrite L, Nat.eqb_refl.
  set (h := be_bytes 1 v ++ be_bytes 1 mt ++ be_bytes 4 txn ++ be_bytes 4 plen).
  assert (S0 : skipn 0 h = be_bytes 1 v ++ be_bytes 1 mt ++ be_bytes 4 txn
                           ++ be_bytes 4 plen) by reflexivity.
  pose proof (skipn_next _ _ _ _ S0) as S1.
  pose proof (skipn_next _ _ _ _ S1) as S2.
  pose proof (skipn_next _ _ _ _ S2) as S3.
  rewrite <- (app_nil_r (be_bytes 4 plen)) in S3.
  rewrite !be_bytes_length in *. cbn [Nat.add] in *.
  pose proof (slice_at _ _ _ _ S0) as A0.
  pose proof (slice_at _ _ _ _ S1) as A1.
  pose proof (slice_at _ _ _ _ S2) as A2.
  pose proof (slice_at _ _ _ _ S3) as A3.
  rewrite !be_bytes_length in *.
  rewrite A0, A1, A2, A3.
  rewrite !be_value_bytes by (pow_consts; lia). reflexivity.
Qed.

Lemma firstn_app_exact {A} (a b : list A) : firstn (length a) (a ++ b) = a.
Proof. rewrite firstn_app, Nat.sub_diag, firstn_all. simpl. apply app_nil_r. Qed.

Lemma skipn_app_exact {A} (a b : list A) : skipn (length a) (a ++ b) = b.
Proof. rewrite skipn_app, Nat.sub_diag, skipn_all. reflexivity. Qed.

Lemma recv_msg_frame (sock : socket) (mt txn : Z) (pb hdr more : bytes) :
  Wire.HEADER_pack PROTO_VERSION mt txn (len pb) = Ok hdr ->
  stream (inbox sock) = hdr ++ pb ++ more ->
  exists s', Wire.recv_msg sock = (Ok (mkFrame mt txn pb), s') /\
             stream (inbox s') = more /\ outbox s' = outbox sock.
Proof.
  intros Hh Hs. pose proof (header_length _ _ _ _ _ Hh) as L.
  unfold Wire.recv_msg.
  destruct (recv_exact_ok sock Wire.HEADER_size) as (s1 & E1 & S1 & O1).
  { rewrite Hs, length_app. lia. }
  rewrite E1, Hs, <- L, firstn_app_exact, (header_unpack_pack _ _ _ _ _ Hh).
  rewrite Hs, <- L, skipn_app_exact in S1.
  change (negb (PROTO_VERSION =? PROTO_VERSION)) with false. cbv iota.
  destruct (Z.eqb_spec (len pb) 0) as [H0|H0].
  - assert (pb = []) by (destruct pb; [reflexivity | unfold len in H0; simpl in H0; lia]).
    subst pb. exists s1. auto.
  - destruct (recv_exact_ok s1 (Z.to_nat (len pb))) as (s2 & E2 & S2 & O2).
    { rewrite S1, length_app. unfold len. lia. }
    unfold len in E2, S2 |- *. rewrite Nat2Z.id in *.
    rewrite E2, S1, firstn_app_exact.
    rewrite S1, skipn_app_exact in S2.
    exists s2. repeat split; [exact S2 | congruence].
Qed.

(** X1. [recv_exact(sock, n)] returns exactly the next [n] bytes of the
    connection, however the network splits them into chunks, and leaves
    every later byte to be received; if the peer closes before [n] bytes
    have arrived it raises [ConnectionError("socket closed")]. *)
Theorem X1_recv_exact_any_chunking :
  forall (sock : socket) (n : nat),
    ((n <= length (stream (inbox sock)))%nat ->
     exists s',
       Wire.recv_exact sock n = (Ok (firstn n (stream (inbox sock))), s') /\
       stream (inbox s') = skipn n (stream (inbox sock)) /\
       outbox s' = outbox sock) /\
    ((length (stream (inbox sock)) < n)%nat ->
     exists s',
       Wire.recv_exact sock n = (Err (ConnectionError (lit "socket closed")), s') /\
       inbox s' = []) /\
    (forall sock2,
       stream (inbox sock2) = stream (inbox sock) ->
       fst (Wire.recv_exact sock2 n) = fst (Wire.recv_exact sock n)).
Proof.
  intros sock n. split; [|split].
  - apply recv_exact_ok.
  - intros H. destruct (recv_exact_closed sock n H) as (s' & E & Hi & _).
    exists s'. auto.
  - intros sock2 Hs.
    destruct (Nat.le_gt_cases n (length (stream (inbox sock)))) as [H|H].
    + destruct (recv_exact_ok sock n H) as (s1 & E1 & _).
      destruct (recv_exact_ok sock2 n ltac:(rewrite Hs; exact H)) as (s2 & E2 & _).
      rewrite E1, E2, Hs. reflexivity.
    + destruct (recv_exact_closed sock n H) as (s1 & E1 & _).
      destruct (recv_exact_closed sock2 n ltac:(rewrite Hs; exact H)) as (s2 & E2 & _).
      rewrite E1, E2. reflexivity.
Qed.

Lemma X1_witness :
  let sock := mkSocket [(x01, [x02]); (x03, []); (x04, [x05; x06])] [] in
  exists s',
    Wire.recv_exact sock 4 = (Ok [x01; x02; x03; x04], s') /\
    stream (inbox s') = [x05; x06] /\ outbox s' = [].
Proof.
  intros sock.
  exact (proj1 (X1_recv_exact_any_chunking sock 4) ltac:(simpl; lia)).
Defined.

(** X2. A frame written by [send_msg] is read back by [recv_msg]: for a
    message type that fits a byte, a transaction id that fits 32 bits and a
    payload shorter than 2^32 bytes, [send_msg] writes 10 + len(payload)
    bytes, and [recv_msg] on a connection that delivers these bytes (in any
    chunks, followed by anything) returns the same message type,
    transaction id and payload and leaves exactly what follows. *)
Theorem X2_send_recv_round_trip :
  forall (a : socket) (mt txn : Z) (pb : bytes),
    0 <= mt < 256 -> 0 <= txn < 2 ^ 32 -> len pb < 2 ^ 32 ->
    exists w,
      Wire.send_msg a mt txn pb = (Ok tt, mkSocket (inbox a) (outbox a ++ w)) /\
      length w = (10 + length pb)%nat /\
      forall (b : socket) (more : bytes),
        stream (inbox b) = w ++ more ->
        exists b',
          Wire.recv_msg b = (Ok (mkFrame mt txn pb), b') /\
          stream (inbox b') = more /\ outbox b' = outbox b.
Proof.
  intros a mt txn pb Hm Ht Hp.
  assert (Hl : 0 <= len pb < 2 ^ 32) by (unfold len in *; lia).
  pose proof (header_pack_ok PROTO_VERSION mt txn (len pb)
                ltac:(unfold PROTO_VERSION; lia) Hm Ht Hl) as Hh.
  eexists. split; [|split].
  - unfold Wire.send_msg. rewrite Hh. reflexivity.
  - rewrite length_app, (header_length _ _ _ _ _ Hh). reflexivity.
  - intros b more Hs. rewrite <- app_assoc in Hs.
    exact (recv_msg_frame b mt txn pb _ more Hh Hs).
Qed.

Lemma X2_witness :
  exists w,
    Wire.send_msg (mkSocket [] []) 0x40 7 (be_bytes 4 999)
    = (Ok tt, mkSocket [] ([] ++ w)) /\
    length w = 14%nat /\
    forall (b : socket) (more : bytes),
      stream (inbox b) = w ++ more ->
      exists b',
        Wire.recv_msg b = (Ok (mkFrame 0x40 7 (be_bytes 4 999)), b') /\
        stream (inbox b') = more /\ outbox b' = outbox b.
Proof.
  apply (X2_send_recv_round_trip (mkSocket [] []) 0x40 7 (be_bytes 4 999)).
  - lia.
  - split; [discriminate | reflexivity].
  - reflexivity.
Defined.

(** X3. Version check.  When the first byte of the 10-byte header is not
    [PROTO_VERSION], [recv_msg] raises
    [ValueError("bad protocol version <v>")] after consuming the header
    only: whatever follows is left unread.  The exception is not an
    [OSError]. *)
Theorem X3_recv_msg_rejects_other_versions :
  forall (sock : socket) (b0 : byte) (hdr_rest rest : bytes),
    length hdr_rest = 9%nat ->
    byte_val b0 <> PROTO_VERSION ->
    stream (inbox sock) = (b0 :: hdr_rest) ++ rest ->
    exists s',
      Wire.recv_msg sock
      = (Err (ValueError (lit "bad protocol version " ++ str_of_int (byte_val b0))),
         s') /\
      stream (inbox s') = rest /\
      is_OSError
        (ValueError (lit "bad protocol version " ++ str_of_int (byte_val b0)))
      = false.
Proof.
  intros sock b0 hr rest L Hv Hs.
  assert (L10 : length (b0 :: hr) = Wire.HEADER_size) by (simpl; rewrite L; reflexivity).
  unfold Wire.recv_msg.
  destruct (recv_exact_ok sock Wire.HEADER_size) as (s1 & E1 & S1 & O1).
  { rewrite Hs, length_app. lia. }
  rewrite E1, Hs, <- L10, firstn_app_exact.
  rewrite Hs, <- L10, skipn_app_exact in S1.
  unfold Wire.HEADER_unpack. rewrite L10, Nat.eqb_refl.
  assert (V : be_value (slice (b0 :: hr) 0 1) = byte_val b0).
  { unfold slice, be_value. cbn [skipn firstn fold_left]. lia. }
  rewrite V.
  destruct (Z.eqb_spec (byte_val b0) PROTO_VERSION) as [E|E]; [contradiction|].
  cbn [negb]. exists s1. auto.
Qed.

Lemma X3_witness :
  let sock := mkSocket [(x02, [x10; x00; x00]);
                        (x00, [x07; x00; x00; x00; x03; x01; x02; x03])] [] in
  exists s',
    Wire.recv_msg sock
    = (Err (ValueError (lit "bad protocol version 2")), s') /\
    stream (inbox s') = [x01; x02; x03] /\
    is_OSError (ValueError (lit "bad protocol version 2")) = false.
Proof.
  intros sock.
  apply (X3_recv_msg_rejects_other_versions sock x02
           [x10; x00; x00; x00; x07; x00; x00; x00; x03] [x01; x02; x03]).
  - reflexivity.
  - discriminate.
  - reflexivity.
Defined.

(** X4. A connection that ends inside a frame, or before one starts, makes
    [recv_msg] raise [ConnectionError("socket closed")]: this holds for
    every proper prefix of the bytes of a frame, the empty one included. *)
Theorem X4_recv_msg_on_closed_connection :
  forall (sock : socket) (mt txn : Z) (pb hdr : bytes) (k : nat),
    Wire.HEADER_pack PROTO_VERSION mt txn (len pb) = Ok hdr ->
    (k < length (hdr ++ pb))%nat ->
    stream (inbox sock) = firstn k (hdr ++ pb) ->
    exists s',
      Wire.recv_msg sock = (Err (ConnectionError (lit "socket closed")), s') /\
      inbox s' = [].
Proof.
  intros sock mt txn pb hdr k Hh Hk Hs.
  pose proof (header_length _ _ _ _ _ Hh) as L.
  assert (Ls : length (stream (inbox sock)) = k).
  { rewrite Hs, length_firstn. lia. }
  unfold Wire.recv_msg.
  destruct (Nat.lt_ge_cases k Wire.HEADER_size) as [Hlt|Hge].
  - destruct (recv_exact_closed sock Wire.HEADER_size) as (s1 & E1 & I1 & _);
      [lia|].
    rewrite E1. exists s1. auto.
  - destruct (recv_exact_ok sock Wire.HEADER_size) as (s1 & E1 & S1 & O1); [lia|].
    rewrite E1, Hs, firstn_firstn, Nat.min_l by lia.
    replace (firstn Wire.HEADER_size (hdr ++ pb)) with hdr
      by (rewrite <- L; symmetry; apply firstn_app_exact).
    rewrite (header_unpack_pack _ _ _ _ _ Hh).
    change (negb (PROTO_VERSION =? PROTO_VERSION)) with false. cbv iota.
    assert (S1' : stream (inbox s1) = firstn (k - Wire.HEADER_size) pb).
    { rewrite S1, Hs, firstn_app, L, skipn_app.
      rewrite skipn_all2 by (rewrite length_firstn; lia).
      rewrite length_firstn, L. cbn [app].
      replace (Wire.HEADER_size - Nat.min k Wire.HEADER_size)%nat with 0%nat by lia.
      reflexivity. }
    rewrite length_app, L in Hk.
    destruct (Z.eqb_spec (len pb) 0) as [H0|H0]; [unfold len in H0; lia|].
    destruct (recv_exact_closed s1 (Z.to_nat (len pb))) as (s2 & E2 & I2 & _).
    { rewrite S1', length_firstn. unfold len. lia. }
    rewrite E2. exists s2. auto.
Qed.

Lemma X4_witness :
  let sock := mkSocket [(x01, [x40; x00; x00]); (x00, [x07; x00; x00; x00; x04; x00])]
                [] in
  exists s',
    Wire.recv_msg sock = (Err (ConnectionError (lit "socket closed")), s') /\
    inbox s' = [].
Proof.
  intros sock.
  apply (X4_recv_msg_on_closed_connection sock 0x40 7 (be_bytes 4 999)
           (be_bytes 1 1 ++ be_bytes 1 0x40 ++ be_bytes 4 7 ++ be_bytes 4 4) 11).
  - reflexivity.
  - simpl. lia.
  - reflexivity.
Defined.

(** X5. [send_msg] writes a header whose length field is the actual payload
    length, followed by the payload, exactly when the message type fits a
    byte, the transaction id fits 32 bits and the payload is shorter than
    2^32 bytes; otherwise it raises [struct.error] and writes nothing. *)
Theorem X5_send_msg_header :
  forall (sock : socket) (mt txn : Z) (pb : bytes),
    (0 <= mt < 256 /\ 0 <= txn < 2 ^ 32 /\ len pb < 2 ^ 32 ->
     exists hdr,
       Wire.send_msg sock mt txn pb = (Ok tt, Wire.sendall sock (hdr ++ pb)) /\
       length hdr = Wire.HEADER_size /\
       Wire.HEADER_unpack hdr = Ok (PROTO_VERSION, mt, txn, len pb)) /\
    (~ (0 <= mt < 256 /\ 0 <= txn < 2 ^ 32 /\ len pb < 2 ^ 32) ->
     Wire.send_msg sock mt txn pb = (Err (StructError Wire.HEADER_size), sock)).
Proof.
  intros sock mt txn pb.
  assert (Hl : 0 <= len pb) by (unfold len; lia).
  split.
  - intros (Hm & Ht & Hp).
    pose proof (header_pack_ok PROTO_VERSION mt txn (len pb)
                  ltac:(unfold PROTO_VERSION; lia) Hm Ht ltac:(lia)) as Hh.
    eexists. split; [|split].
    + unfold Wire.send_msg. rewrite Hh. reflexivity.
    + apply (header_length _ _ _ _ _ Hh).
    + apply (header_unpack_pack _ _ _ _ _ Hh).
  - intros Hn. unfold Wire.send_msg.
    rewrite header_pack_err; [reflexivity|].
    intros (_ & Hm & Ht & Hp). apply Hn. repeat split; lia.
Qed.

Lemma X5_witness :
  (exists hdr,
     Wire.send_msg (mkSocket [] []) 0x31 3 [x04]
     = (Ok tt, Wire.sendall (mkSocket [] []) (hdr ++ [x04])) /\
     length hdr = Wire.HEADER_size /\
     Wire.HEADER_unpack hdr = Ok (PROTO_VERSION, 0x31, 3, 1)) /\
  Wire.send_msg (mkSocket [] []) 0x31 (-1) [x04]
  = (Err (StructError Wire.HEADER_size), mkSocket [] []).
Proof.
  split.
  - apply (proj1 (X5_send_msg_header (mkSocket [] []) 0x31 3 [x04])).
    repeat split; try discriminate; reflexivity.
  - apply (proj2 (X5_send_msg_header (mkSocket [] []) 0x31 (-1) [x04])).
    intros (_ & [H _] & _). apply H. reflexivity.
Defined.

(** ** The dispatcher: one reply per request *)

Lemma pack_str_length (s : pystr) (b : bytes) :
  pack_str s = Ok b -> len b <= 2 + 65535.
Proof.
  intros H. destruct (pack_str_inv _ _ H) as (bs & _ & Hl & ->).
  unfold len in *. rewrite length_app, be_bytes_length. lia.
Qed.

Lemma pack_u32_list_length (xs : list Z) (b : bytes) :
  pack_u32_list xs = Ok b -> len b <= 2 + 4 * 65535.
Proof.
  intros H. destruct (pack_u32_list_inv _ _ H) as (Hl & _ & ->).
  unfold len in *. rewrite length_app, be_bytes_length, concat_be4_length. lia.
Qed.

Lemma struct_pack_no_OSError (w : nat) (x : Z) : no_OSError (struct_pack w x).
Proof.
  intros e. unfold struct_pack. destruct (_ && _); [discriminate|].
  now intros [= <-].
Qed.

Lemma pack_str_no_OSError (s : pystr) : no_OSError (pack_str s).
Proof.
  intros e. unfold pack_str, rbind, str_encode.
  destruct (utf8_encode s) as [b|]; [|now intros [= <-]].
  destruct (len b >? 0xFFFF); [now intros [= <-]|].
  unfold pack_u16. destruct (struct_pack 2 (len b)) as [h|e'] eqn:E; [discriminate|].
  intros [= <-]. exact (struct_pack_no_OSError _ _ _ E).
Qed.

Lemma rmap_pack_u32_no_OSError (xs : list Z) : no_OSError (rmap pack_u32 xs).
Proof.
  induction xs as [|x xs IH]; intros e; simpl; [discriminate|].
  unfold pack_u32 at 1. destruct (struct_pack 4 x) as [h|e'] eqn:E.
  - destruct (rmap pack_u32 xs) as [bs|e'] eqn:E'; [discriminate|].
    intros [= <-]. now apply IH.
  - intros [= <-]. exact (struct_pack_no_OSError _ _ _ E).
Qed.

Lemma pack_u32_list_no_OSError (xs : list Z) : no_OSError (pack_u32_list xs).
Proof.
  intros e. unfold pack_u32_list, rbind.
  destruct (len xs >? 0xFFFF); [now intros [= <-]|].
  unfold pack_u16. destruct (struct_pack 2 (len xs)) as [h|e'] eqn:E.
  - destruct (rmap pack_u32 xs) as [bs|e'] eqn:E'; [discriminate|].
    intros [= <-]. exact (rmap_pack_u32_no_OSError _ _ E').
  - intros [= <-]. exact (struct_pack_no_OSError _ _ _ E).
Qed.

Lemma radd_no_OSError (a b : result bytes) :
  no_OSError a -> no_OSError b -> no_OSError (a +++ b).
Proof.
  intros Ha Hb e. unfold radd, rbind.
  destruct a as [x|ea]; [|intros [= <-]; now apply Ha].
  destruct b as [y|eb]; [discriminate | intros [= <-]; now apply Hb].
Qed.

Lemma enc_error_no_OSError (s : Status) (msg : pystr) : no_OSError (enc_error s msg).
Proof. apply radd_no_OSError; [apply struct_pack_no_OSError | apply pack_str_no_OSError]. Qed.

Lemma decode_no_OSError {A} (m : M A) (pb : bytes) :
  bounds_safe m -> no_OSError (run_cursor m pb).
Proof.
  intros S e He. destruct (run_cursor_error m pb e S He) as [->|[b ->]]; reflexivity.
Qed.

Lemma send_reply (f : frame) (w : world) (r : Registry) (mt : Z) (out : bytes) :
  In mt (reply_types (msg_type f)) ->
  len out <= max_reply_payload ->
  one_reply f w (mkWorld r (sent w ++ [mkFrame mt (txn_id f) out]), Ok tt).
Proof.
  intros Hin Hl. eexists. split; [reflexivity|]. repeat split; assumption.
Qed.

Lemma reply_error_step (lib_text : exn -> pystr) (f : frame) (e : exn)
    (w : world) (r : Registry) :
  In MsgType.ERROR_RESP (reply_types (msg_type f)) ->
  one_reply f w (reply_error lib_text (txn_id f) e (mkWorld r (sent w))).
Proof.
  intros Hin. unfold reply_error, hbind, hlift, send_msg.
  pose proof (enc_error_no_OSError INVALID_ARGUMENT (exn_str lib_text e)) as N.
  destruct (enc_error INVALID_ARGUMENT (exn_str lib_text e)) as [out|e'] eqn:E;
    cbn [reg sent].
  - apply send_reply; [exact Hin|].
    unfold enc_error in E. destruct (radd_inv _ _ _ E) as (b1 & b2 & H1 & H2 & ->).
    apply pack_length in H1. apply pack_str_length in H2.
    unfold len in *. rewrite length_app, H1. unfold max_reply_payload. lia.
  - split; [reflexivity | now apply N].
Qed.

Lemma id_resp_length (s : Status) (id : Z) (out : bytes) :
  pack_u8 (int_of_status s) +++ pack_u32 id = Ok out -> length out = 5%nat.
Proof.
  intros E. destruct (radd_inv _ _ _ E) as (b1 & b2 & H1 & H2 & ->).
  apply pack_length in H1. apply pack_length in H2.
  rewrite length_app, H1, H2. reflexivity.
Qed.

Lemma configure_resp_length (s : Status) (dss : Z) (ids : option (list Z))
    (out : bytes) :
  enc_configure_resp s dss ids = Ok out ->
  len out <= max_reply_payload.
Proof.
  unfold enc_configure_resp. intros E.
  destruct (radd_inv _ _ _ E) as (b1 & r1 & H1 & E' & ->).
  destruct (radd_inv _ _ _ E') as (b2 & b3 & H2 & H3 & ->).
  apply pack_length in H1. apply pack_length in H2. apply pack_u32_list_length in H3.
  unfold len in *. rewrite !length_app, H1, H2. unfold max_reply_payload. lia.
Qed.

Lemma configure_resp_no_OSError (s : Status) (dss : Z) (ids : option (list Z)) :
  no_OSError (enc_configure_resp s dss ids).
Proof.
  apply radd_no_OSError; [apply struct_pack_no_OSError|].
  apply radd_no_OSError; [apply struct_pack_no_OSError | apply pack_u32_list_no_OSError].
Qed.

Lemma world_eta (w : world) : mkWorld (reg w) (sent w) = w.
Proof. destruct w; reflexivity. Qed.

Lemma handle_msg_one_reply (lib_text : exn -> pystr) (addr0 : pystr) (f : frame)
    (w : world) :
  one_reply f w (handle_msg lib_text addr0 f w).
Proof.
  unfold handle_msg, reply_types.
  destruct (msg_type f =? MsgType.REGISTER_USER_REQ) eqn:T1.
  { assert (Hin : In MsgType.ERROR_RESP
                    [MsgType.REGISTER_USER_RESP; MsgType.ERROR_RESP])
      by (right; now left).
    pose proof (fun e r => reply_error_step lib_text f e w r) as RE.
    unfold reply_types in RE. rewrite T1 in RE.
    rewrite handle_register_user_unfold.
    destruct (dec_register_user_req (payload f)) as [[name port]|e].
    - destruct (py_not name || (port <=? 0)).
      + rewrite <- (world_eta w) at 2. now apply RE.
      + cbv zeta. cbn [reg sent].
        destruct (enc_register_user_resp OK (next_user_id (reg w))) as [out|e] eqn:E.
        * unfold one_reply. cbn [fst snd]. eexists. split; [reflexivity|].
          repeat split; [unfold reply_types; rewrite T1; now left|].
          cbn [payload]. unfold len.
          rewrite (id_resp_length _ _ _ E).
          unfold max_reply_payload. lia.
        * now apply RE.
    - rewrite <- (world_eta w) at 2. now apply RE. }
  destruct (msg_type f =? MsgType.DEREGISTER_USER_REQ) eqn:T2.
  { pose proof (decode_no_OSError Cursor.u32 (payload f) u32_safe) as N.
    fold (dec_deregister_user_req (payload f)) in N.
    destruct (dec_deregister_user_req (payload f)) as [uid|e] eqn:Hd.
    - rewrite (handle_deregister_user_ok _ _ _ _ Hd).
      unfold one_reply. cbn [fst snd]. eexists. split; [reflexivity|].
      repeat split; [unfold reply_types; rewrite T1, T2; now left|].
      unfold max_reply_payload. cbn. lia.
    - rewrite (handle_deregister_user_err _ _ _ _ Hd).
      split; [reflexivity | now apply N]. }
  destruct (msg_type f =? MsgType.REGISTER_DISK_REQ) eqn:T3.
  { assert (Hin : In MsgType.ERROR_RESP
                    [MsgType.REGISTER_DISK_RESP; MsgType.ERROR_RESP])
      by (right; now left).
    pose proof (fun e r => reply_error_step lib_text f e w r) as RE.
    unfold reply_types in RE. rewrite T1, T2, T3 in RE.
    rewrite handle_register_disk_unfold.
    destruct (dec_register_disk_req (payload f)) as [[[[name port] cap] zone]|e].
    - destruct (py_not name || (port <=? 0) || (cap <=? 0)).
      + rewrite <- (world_eta w) at 2. now apply RE.
      + cbv zeta. cbn [reg sent].
        destruct (enc_register_disk_resp OK (next_disk_id (reg w))) as [out|e] eqn:E.
        * unfold one_reply. cbn [fst snd]. eexists. split; [reflexivity|].
          repeat split; [unfold reply_types; rewrite T1, T2, T3; now left|].
          cbn [payload]. unfold len.
          rewrite (id_resp_length _ _ _ E).
          unfold max_reply_payload. lia.
        * now apply RE.
    - rewrite <- (world_eta w) at 2. now apply RE. }
  destruct (msg_type f =? MsgType.DEREGISTER_DISK_REQ) eqn:T4.
  { pose proof (decode_no_OSError Cursor.u32 (payload f) u32_safe) as N.
    fold (dec_deregister_disk_req (payload f)) in N.
    destruct (dec_deregister_disk_req (payload f)) as [did|e] eqn:Hd.
    - rewrite (handle_deregister_disk_ok _ _ _ _ Hd).
      unfold one_reply. cbn [fst snd]. eexists. split; [reflexivity|].
      repeat split; [unfold reply_types; rewrite T1, T2, T3, T4; now left|].
      unfold max_reply_payload. cbn. lia.
    - rewrite (handle_deregister_disk_err _ _ _ _ Hd).
      split; [reflexivity | now apply N]. }
  destruct (msg_type f =? MsgType.CONFIGURE_DSS_REQ) eqn:T5.
  { assert (Hin : In MsgType.CONFIGURE_DSS_RESP (reply_types (msg_type f)))
      by (unfold reply_types; rewrite T1, T2, T3, T4, T5; now left).
    pose proof (decode_no_OSError read_configure_req (payload f)
                  (proj1 read_configure_req_ok)) as N.
    fold (dec_configure_req (payload f)) in N.
    destruct (dec_configure_req (payload f)) as [[[n policy] cj]|e] eqn:Hd.
    - destruct (Z.le_gt_cases n 0) as [Hn|Hn].
      + rewrite (handle_configure_invalid _ _ _ _ _ w Hd Hn).
        apply send_reply; [exact Hin|]. unfold max_reply_payload. cbn. lia.
      + destruct (Z.lt_ge_cases (len (disks (reg w))) n) as [Hm|Hm].
        * rewrite (handle_configure_insufficient _ _ _ _ _ w Hd Hn Hm).
          apply send_reply; [exact Hin|]. unfold max_reply_payload. cbn. lia.
        * rewrite (handle_configure_enough _ _ _ _ _ w Hd Hn Hm).
          pose proof (configure_resp_no_OSError OK (next_dss_id (reg w))
                        (Some (first_disks n (reg w)))) as NE.
          destruct (enc_configure_resp OK (next_dss_id (reg w))
                      (Some (first_disks n (reg w)))) as [out|e] eqn:E.
          -- apply send_reply; [exact Hin|]. now apply (configure_resp_length _ _ _ _ E).
          -- split; [reflexivity | now apply NE].
    - rewrite (handle_configure_err _ _ _ _ Hd).
      split; [reflexivity | now apply N]. }
  unfold hbind, hlift, send_msg.
  pose proof (enc_error_no_OSError INVALID_ARGUMENT
                (lit "unknown msg_type " ++ str_of_int (msg_type f))) as N.
  destruct (enc_error INVALID_ARGUMENT _) as [out|e] eqn:E.
  - unfold one_reply. cbn [fst snd]. eexists. split; [reflexivity|].
    repeat split; [unfold reply_types; rewrite T1, T2, T3, T4, T5; now left|].
    cbn [payload].
    unfold enc_error in E. destruct (radd_inv _ _ _ E) as (b1 & b2 & H1 & H2 & ->).
    apply pack_length in H1. apply pack_str_length in H2.
    unfold len in *. rewrite length_app, H1. unfold max_reply_payload. lia.
  - split; [reflexivity | now apply N].
Qed.

Lemma serve_loop_replies (lib_text : exn -> pystr) (addr0 : pystr)
    (incoming : list frame) (w : world) :
  exists replies e w',
    serve_loop lib_text addr0 incoming w = (w', Err e) /\
    sent w' = sent w ++ replies /\
    Forall2 answers (firstn (length replies) incoming) replies /\
    (length replies <= length incoming)%nat /\
    (is_OSError e = true <-> length replies = length incoming).
Proof.
  revert w. induction incoming as [|f rest IH]; intros w.
  - exists [], (ConnectionError (lit "socket closed")), w.
    cbn. rewrite app_nil_r. repeat split; auto.
  - cbn [serve_loop]. unfold hbind.
    pose proof (handle_msg_one_reply lib_text addr0 f w) as R.
    destruct (handle_msg lib_text addr0 f w) as [w1 [[]|e]];
      unfold one_reply in R; cbn [fst snd] in R.
    + destruct R as (fr & Hs & Ha).
      destruct (IH w1) as (replies & e & w' & E & Hs' & HF & Hl & Hiff).
      exists (fr :: replies), e, w'. split; [exact E|].
      split; [rewrite Hs', Hs, <- app_assoc; reflexivity|].
      cbn [length firstn]. split; [constructor; assumption|].
      split; [lia|]. rewrite Hiff. split; intros; lia.
    + destruct R as (Hs & He).
      exists [], e, w1. split; [reflexivity|].
      split; [now rewrite app_nil_r|]. cbn [length firstn].
      split; [constructor|]. split; [lia|].
      rewrite He. split; [discriminate | intros H; discriminate H].
Qed.

(** X6. Replies in request order.  While serving a connection the manager
    sends nothing but replies to requests it has read: the frames it sends
    answer, one for one and in the order received, an initial run of the
    requests, each with the request's transaction id, a message type that
    belongs to the request type, and a payload of at most 262147 bytes.  No
    request is answered twice, and none is answered after one that was left
    unanswered. *)
Theorem X6_one_reply_per_request :
  forall (lib_text : exn -> pystr) (addr0 : pystr) (incoming : list frame)
         (w : world),
    exists replies,
      sent (fst (handle_conn lib_text addr0 incoming w)) = sent w ++ replies /\
      Forall2 answers (firstn (length replies) incoming) replies /\
      (length replies <= length incoming)%nat.
Proof.
  intros lib_text addr0 incoming w.
  destruct (serve_loop_replies lib_text addr0 incoming w)
    as (replies & e & w' & E & Hs & HF & Hl & _).
  exists replies. unfold handle_conn. rewrite E. cbn [fst snd].
  repeat split; auto.
Qed.

Lemma reply_type_byte (req mt : Z) : In mt (reply_types req) -> 0 <= mt < 256.
Proof.
  unfold reply_types.
  repeat match goal with |- context [if ?c then _ else _] => destruct c end;
    cbn [In]; intros H;
    repeat (destruct H as [<-|H]; [split; [discriminate | reflexivity]|]);
    destruct H.
Qed.

(** X7. Every reply of the dispatcher fits a frame: for a request whose
    transaction id fits 32 bits (as every id read by [recv_msg] does),
    [send_msg] accepts the reply that [handle_conn] produces, so packing the
    header never raises [struct.error]. *)
Theorem X7_replies_fit_the_header :
  forall (lib_text : exn -> pystr) (addr0 : pystr) (f : frame) (w w' : world),
    0 <= txn_id f < 2 ^ 32 ->
    handle_msg lib_text addr0 f w = (w', Ok tt) ->
    exists fr,
      sent w' = sent w ++ [fr] /\
      forall sock, exists hdr,
        Wire.send_msg sock (msg_type fr) (txn_id fr) (payload fr)
        = (Ok tt, Wire.sendall sock (hdr ++ payload fr)) /\
        Wire.HEADER_unpack hdr
        = Ok (PROTO_VERSION, msg_type fr, txn_id f, len (payload fr)).
Proof.
  intros lib_text addr0 f w w' Ht H.
  pose proof (handle_msg_one_reply lib_text addr0 f w) as R.
  rewrite H in R. unfold one_reply in R. cbn [fst snd] in R.
  destruct R as (fr & Hs & Htx & Hty & Hlen).
  exists fr. split; [exact Hs|]. intros sock.
  pose proof (reply_type_byte _ _ Hty) as Hb.
  assert (Hl : 0 <= len (payload fr) < 2 ^ 32).
  { unfold max_reply_payload in Hlen. unfold len in *. pow_consts. lia. }
  rewrite Htx.
  pose proof (header_pack_ok PROTO_VERSION (msg_type fr) (txn_id f)
                (len (payload fr)) ltac:(unfold PROTO_VERSION; lia) Hb Ht Hl) as Hh.
  eexists. split.
  - unfold Wire.send_msg. rewrite Hh. reflexivity.
  - apply (header_unpack_pack _ _ _ _ _ Hh).
Qed.

Lemma X7_witness :
  let f := mkFrame MsgType.DEREGISTER_USER_REQ 5 (be_bytes 4 999) in
  let w := mkWorld new_Registry [] in
  exists fr,
    sent (mkWorld new_Registry
            [mkFrame MsgType.DEREGISTER_USER_RESP 5 (status_byte NOT_REGISTERED)])
    = sent w ++ [fr] /\
    forall sock, exists hdr,
      Wire.send_msg sock (msg_type fr) (txn_id fr) (payload fr)
      = (Ok tt, Wire.sendall sock (hdr ++ payload fr)) /\
      Wire.HEADER_unpack hdr
      = Ok (PROTO_VERSION, msg_type fr, txn_id f, len (payload fr)).
Proof.
  intros f w.
  apply (X7_replies_fit_the_header (fun _ => []) (lit "h") f w).
  - split; [discriminate | reflexivity].
  - reflexivity.
Defined.

(** ** Unknown message types *)

Lemma unknown_text_packs_all :
  forallb (fun i => match pack_str (unknown_text (Z.of_nat i)) with
                    | Ok _ => true
                    | Err _ => false
                    end) (seq 0 256) = true.
Proof. vm_compute. reflexivity. Qed.

Lemma unknown_text_packs (mt : Z) :
  0 <= mt < 256 -> exists b, pack_str (unknown_text mt) = Ok b.
Proof.
  intros H. pose proof unknown_text_packs_all as A.
  rewrite forallb_forall in A. specialize (A (Z.to_nat mt)).
  rewrite Z2Nat.id in A by lia.
  destruct (pack_str (unknown_text mt)) as [b|e]; [eauto|].
  assert (In (Z.to_nat mt) (seq 0 256)) by (apply in_seq; lia).
  specialize (A H0). discriminate.
Qed.

(** X8. A frame whose message type is not one of the five request types
    (a response type, or any other byte) is answered with ERROR_RESP
    carrying INVALID_ARGUMENT and the text "unknown msg_type <n>", where
    <n> is the type in decimal; the registry is not touched and the loop
    goes on. *)
Theorem X8_unknown_message_type :
  forall (lib_text : exn -> pystr) (addr0 : pystr) (f : frame) (w : world),
    0 <= msg_type f < 256 ->
    ~ In (msg_type f) request_types ->
    exists b,
      pack_str (unknown_text (msg_type f)) = Ok b /\
      dec_error_resp (status_byte INVALID_ARGUMENT ++ b)
      = Ok (int_of_status INVALID_ARGUMENT, unknown_text (msg_type f)) /\
      handle_msg lib_text addr0 f w = (error_reply w (txn_id f) b, Ok tt) /\
      forall rest,
        handle_conn lib_text addr0 (f :: rest) w
        = handle_conn lib_text addr0 rest (error_reply w (txn_id f) b).
Proof.
  intros lib_text addr0 f w Hb Hn.
  destruct (unknown_text_packs _ Hb) as [b Hp]. exists b.
  split; [exact Hp|]. split; [now apply dec_error_resp_enc|].
  assert (E : handle_msg lib_text addr0 f w = (error_reply w (txn_id f) b, Ok tt)).
  { unfold handle_msg, request_types in *.
    repeat match goal with
           | |- context [msg_type f =? ?c] =>
               destruct (Z.eqb_spec (msg_type f) c) as [E|_];
               [exfalso; apply Hn; rewrite E; cbn; tauto|]
           end.
    unfold hbind, hlift, enc_error, radd, rbind.
    rewrite pack_status. fold (unknown_text (msg_type f)). rewrite Hp.
    reflexivity. }
  split; [exact E|]. intros rest. now apply handle_conn_continue.
Qed.

Lemma X8_witness :
  exists b,
    pack_str (unknown_text 0x11) = Ok b /\
    dec_error_resp (status_byte INVALID_ARGUMENT ++ b)
    = Ok (int_of_status INVALID_ARGUMENT, lit "unknown msg_type 17") /\
    handle_msg (fun _ => []) (lit "h") (mkFrame 0x11 4 []) (mkWorld new_Registry [])
    = (error_reply (mkWorld new_Registry []) 4 b, Ok tt).
Proof.
  destruct (X8_unknown_message_type (fun _ => []) (lit "h") (mkFrame 0x11 4 [])
              (mkWorld new_Registry [])) as (b & H1 & H2 & H3 & _).
  - split; [discriminate | reflexivity].
  - cbn. intros [H|[H|[H|[H|[H|[]]]]]]; discriminate H.
  - exists b. auto.
Defined.

(** ** The registry *)

(** X9. Whatever frames a connection delivers, [handle_conn] keeps the
    registry well formed: both counters stay at least 1, the ids in [users]
    and in [disks] are in strictly ascending order (so no id occurs twice),
    every id is at least 1 and below its counter, and the id stored in a
    record is the key it is filed under. *)
Theorem X9_handle_conn_keeps_registry_inv :
  forall (lib_text : exn -> pystr) (addr0 : pystr) (incoming : list frame)
         (w : world),
    registry_inv (reg w) ->
    registry_inv (reg (fst (handle_conn lib_text addr0 incoming w))).
Proof.
  intros lib_text addr0 incoming w I.
  destruct (handle_conn_history lib_text addr0 incoming w) as [ops ->].
  now apply run_ops_inv.
Qed.

Lemma X9_witness :
  registry_inv
    (reg (fst (handle_conn (fun _ => []) (lit "h")
                 [mkFrame MsgType.REGISTER_USER_REQ 1
                    (be_bytes 2 1 ++ [x75] ++ be_bytes 2 7000);
                  mkFrame MsgType.DEREGISTER_USER_REQ 2 (be_bytes 4 1)]
                 (mkWorld new_Registry [])))).
Proof.
  apply X9_handle_conn_keeps_registry_inv. exact new_Registry_inv.
Defined.

Lemma dict_get_app_l {V} (k : Z) (d d' : dict V) :
  registered k d -> dict_get k (d ++ d') = dict_get k d.
Proof.
  unfold registered, dict_keys, dict_get.
  induction d as [|[k0 v0] d IH]; cbn [map In app find fst]; [tauto|].
  intros [E|H].
  - subst. now rewrite Z.eqb_refl.
  - destruct (k0 =? k); [reflexivity | now apply IH].
Qed.

Lemma dict_pop_snoc {V} (k : Z) (v : V) (d : dict V) :
  ~ registered k d -> dict_pop k (d ++ [(k, v)]) = (Some v, d).
Proof.
  unfold registered, dict_keys.
  induction d as [|[k0 v0] d IH]; cbn [map In app dict_pop fst]; intros H.
  - now rewrite Z.eqb_refl.
  - destruct (Z.eqb_spec k0 k); [tauto|]. rewrite IH by tauto. reflexivity.
Qed.

Lemma fresh_user_id (r : Registry) :
  registry_inv r -> ~ registered (next_user_id r) (users r).
Proof.
  intros I H. pose proof (inv_users_below r I) as B.
  rewrite Forall_forall in B. specialize (B _ H). lia.
Qed.

Lemma fresh_disk_id (r : Registry) :
  registry_inv r -> ~ registered (next_disk_id r) (disks r).
Proof.
  intros I H. pose proof (inv_disks_below r I) as B.
  rewrite Forall_forall in B. specialize (B _ H). lia.
Qed.

Lemma below_counter (l : list Z) (n : Z) :
  Forall (fun k => 1 <= k < n) l -> Forall (fun k => k < n) l.
Proof. apply Forall_impl. intros; lia. Qed.

Lemma register_appends (r : Registry) (name addr : pystr) (port cap : Z) (zone : pystr) :
  registry_inv r ->
  register_user name addr port r
  = (next_user_id r,
     mkRegistry (next_user_id r + 1) (next_disk_id r) (next_dss_id r)
       (users r ++ [(next_user_id r,
                     mkUser (next_user_id r) name addr port (lit "READY"))])
       (disks r)) /\
  register_disk name addr port cap zone r
  = (next_disk_id r,
     mkRegistry (next_user_id r) (next_disk_id r + 1) (next_dss_id r) (users r)
       (disks r ++ [(next_disk_id r,
                     mkDisk (next_disk_id r) name addr port cap zone (lit "READY"))])).
Proof.
  intros I. unfold register_user, register_disk.
  rewrite (dict_set_fresh _ _ (users r) (below_counter _ _ (inv_users_below r I))).
  rewrite (dict_set_fresh _ _ (disks r) (below_counter _ _ (inv_disks_below r I))).
  split; reflexivity.
Qed.

(** X10. In a well-formed registry, [register_user] returns the current
    [next_user_id], which no record uses yet, files the new record after all
    existing ones and changes none of them: every user registered before is
    still found with the same record, and the new id is found with the
    record just built.  Only [next_user_id] moves, by one.  [register_disk]
    does the same with [disks] and [next_disk_id]. *)
Theorem X10_register_appends_a_record :
  forall (r : Registry) (name addr : pystr) (port cap : Z) (zone : pystr),
    registry_inv r ->
    (let uid := next_user_id r in
     let rec := mkUser uid name addr port (lit "READY") in
     register_user name addr port r
     = (uid, mkRegistry (uid + 1) (next_disk_id r) (next_dss_id r)
               (users r ++ [(uid, rec)]) (disks r)) /\
     ~ registered uid (users r) /\
     dict_get uid (users r ++ [(uid, rec)]) = Some rec /\
     forall k, registered k (users r) ->
               dict_get k (users r ++ [(uid, rec)]) = dict_get k (users r)) /\
    (let did := next_disk_id r in
     let rec := mkDisk did name addr port cap zone (lit "READY") in
     register_disk name addr port cap zone r
     = (did, mkRegistry (next_user_id r) (did + 1) (next_dss_id r)
               (users r) (disks r ++ [(did, rec)])) /\
     ~ registered did (disks r) /\
     dict_get did (disks r ++ [(did, rec)]) = Some rec /\
     forall k, registered k (disks r) ->
               dict_get k (disks r ++ [(did, rec)]) = dict_get k (disks r)).
Proof.
  intros r name addr port cap zone I. split.
  - intros uid rec.
    pose proof (dict_set_fresh uid rec (users r)
                  (below_counter _ _ (inv_users_below r I))) as F.
    split; [unfold register_user; fold uid; fold rec; now rewrite F|].
    split; [now apply fresh_user_id|].
    split; [rewrite <- F; apply dict_get_set|].
    intros k. apply dict_get_app_l.
  - intros did rec.
    pose proof (dict_set_fresh did rec (disks r)
                  (below_counter _ _ (inv_disks_below r I))) as F.
    split; [unfold register_disk; fold did; fold rec; now rewrite F|].
    split; [now apply fresh_disk_id|].
    split; [rewrite <- F; apply dict_get_set|].
    intros k. apply dict_get_app_l.
Qed.

Lemma X10_witness :
  let r := run_ops [RegisterUser (lit "a") (lit "h") 7000] new_Registry in
  register_user (lit "b") (lit "h") 7001 r
  = (2, mkRegistry 3 1 1
          (users r ++ [(2, mkUser 2 (lit "b") (lit "h") 7001 (lit "READY"))]) []) /\
  dict_get 1 (users r ++ [(2, mkUser 2 (lit "b") (lit "h") 7001 (lit "READY"))])
  = dict_get 1 (users r).
Proof.
  intros r.
  assert (I : registry_inv r) by (apply run_ops_inv, new_Registry_inv).
  destruct (proj1 (X10_register_appends_a_record r (lit "b") (lit "h") 7001 0 [] I))
    as (H1 & _ & _ & H4).
  split; [exact H1|]. apply H4. vm_compute. now left.
Defined.

(** X11. Registering and at once deregistering the returned id gives the
    collection back exactly as it was, records and order: [deregister_user]
    on the id that [register_user] just returned answers [True] and leaves
    the registry that was there before, except that [next_user_id] has
    moved on by one, so the id is spent.  The same holds for disks. *)
Theorem X11_register_then_deregister :
  forall (r : Registry) (name addr : pystr) (port cap : Z) (zone : pystr),
    registry_inv r ->
    (let (uid, r1) := register_user name addr port r in
     deregister_user uid r1
     = (true, mkRegistry (next_user_id r + 1) (next_disk_id r) (next_dss_id r)
                (users r) (disks r))) /\
    (let (did, r1) := register_disk name addr port cap zone r in
     deregister_disk did r1
     = (true, mkRegistry (next_user_id r) (next_disk_id r + 1) (next_dss_id r)
                (users r) (disks r))).
Proof.
  intros r name addr port cap zone I.
  destruct (register_appends r name addr port cap zone I) as [Eu Ed].
  split.
  - rewrite Eu. unfold deregister_user. cbn [users disks next_user_id next_disk_id next_dss_id].
    rewrite (dict_pop_snoc _ _ _ (fresh_user_id r I)). reflexivity.
  - rewrite Ed. unfold deregister_disk. cbn [users disks next_user_id next_disk_id next_dss_id].
    rewrite (dict_pop_snoc _ _ _ (fresh_disk_id r I)). reflexivity.
Qed.

Lemma X11_witness :
  let r := run_ops [RegisterUser (lit "a") (lit "h") 7000] new_Registry in
  let (uid, r1) := register_user (lit "b") (lit "h") 7001 r in
  deregister_user uid r1
  = (true, mkRegistry (next_user_id r + 1) (next_disk_id r) (next_dss_id r)
             (users r) (disks r)).
Proof.
  intros r.
  apply (proj1 (X11_register_then_deregister r (lit "b") (lit "h") 7001 0 []
                  ltac:(apply run_ops_inv, new_Registry_inv))).
Defined.

(** ** Messages: what the peer's decoder makes of an encoder's output *)

Lemma skipn_0_app3 {A} (a b c : list A) : skipn 0 ((a ++ b) ++ c) = a ++ b ++ c.
Proof. cbn [skipn]. now rewrite app_assoc. Qed.

Lemma register_user_req_ext (name : pystr) (listen_port : Z) (p extra : bytes) :
  enc_register_user_req name listen_port = Ok p ->
  dec_register_user_req (p ++ extra) = Ok (name, listen_port).
Proof.
  unfold enc_register_user_req. intros H.
  destruct (radd_inv _ _ _ H) as (b1 & b2 & H1 & H2 & ->).
  assert (S1 : skipn 0 ((b1 ++ b2) ++ extra) = b1 ++ b2 ++ extra)
    by (cbn [skipn]; now rewrite <- app_assoc).
  pose proof (skipn_next _ _ _ _ S1) as S2.
  unfold dec_register_user_req, run_cursor, read_register_user_req, mbind, new_Cursor.
  rewrite (str_read_at _ _ _ _ _ H1 S1).
  rewrite u16_fixed, (fixed_read_at 2 _ _ _ _ _ ltac:(lia) H2 S2).
  reflexivity.
Qed.

Lemma register_disk_req_ext (name : pystr) (listen_port cap : Z) (zone : pystr)
    (p extra : bytes) :
  enc_register_disk_req name listen_port cap zone = Ok p ->
  dec_register_disk_req (p ++ extra) = Ok (name, listen_port, cap, zone).
Proof.
  unfold enc_register_disk_req. intros H.
  destruct (radd_inv _ _ _ H) as (b1 & r1 & H1 & H' & ->). clear H.
  destruct (radd_inv _ _ _ H') as (b2 & r2 & H2 & H'' & ->). clear H'.
  destruct (radd_inv _ _ _ H'') as (b3 & b4 & H3 & H4 & ->). clear H''.
  assert (S1 : skipn 0 ((b1 ++ b2 ++ b3 ++ b4) ++ extra)
               = b1 ++ b2 ++ b3 ++ b4 ++ extra)
    by (cbn [skipn]; now rewrite <- !app_assoc).
  pose proof (skipn_next _ _ _ _ S1) as S2.
  pose proof (skipn_next _ _ _ _ S2) as S3.
  pose proof (skipn_next _ _ _ _ S3) as S4.
  unfold dec_register_disk_req, run_cursor, read_register_disk_req, mbind, new_Cursor.
  rewrite (str_read_at _ _ _ _ _ H1 S1).
  rewrite u16_fixed, (fixed_read_at 2 _ _ _ _ _ ltac:(lia) H2 S2).
  rewrite u64_fixed, (fixed_read_at 8 _ _ _ _ _ ltac:(lia) H3 S3).
  rewrite (str_read_at _ _ _ _ _ H4 S4).
  reflexivity.
Qed.

Lemma configure_req_ext (n : Z) (policy constraints_json : pystr) (p extra : bytes) :
  enc_configure_req n policy constraints_json = Ok p ->
  dec_configure_req (p ++ extra) = Ok (n, policy, constraints_json).
Proof.
  unfold enc_configure_req. intros H.
  destruct (radd_inv _ _ _ H) as (b1 & r1 & H1 & H' & ->). clear H.
  destruct (radd_inv _ _ _ H') as (b2 & b3 & H2 & H3 & ->). clear H'.
  assert (S1 : skipn 0 ((b1 ++ b2 ++ b3) ++ extra) = b1 ++ b2 ++ b3 ++ extra)
    by (cbn [skipn]; now rewrite <- !app_assoc).
  pose proof (skipn_next _ _ _ _ S1) as S2.
  pose proof (skipn_next _ _ _ _ S2) as S3.
  unfold dec_configure_req, run_cursor, read_configure_req, mbind, new_Cursor.
  rewrite u16_fixed, (fixed_read_at 2 _ _ _ _ _ ltac:(lia) H1 S1).
  rewrite (str_read_at _ _ _ _ _ H2 S2).
  rewrite (str_read_at _ _ _ _ _ H3 S3).
  reflexivity.
Qed.

Lemma u32_req_ext (x : Z) (p extra : bytes) :
  pack_u32 x = Ok p -> run_cursor Cursor.u32 (p ++ extra) = Ok x.
Proof.
  intros H. unfold run_cursor, new_Cursor.
  assert (S1 : skipn 0 (p ++ extra) = p ++ extra) by reflexivity.
  rewrite u32_fixed, (fixed_read_at 4 _ _ _ _ _ ltac:(lia) H S1).
  reflexivity.
Qed.

(** X12. Requests round-trip between the clients and the manager.  Whenever
    one of the five request encoders of [user.py] and [disk.py] returns a
    payload, the manager's decoder for that request returns the very
    arguments that were encoded; bytes that follow the payload are not
    looked at. *)
Theorem X12_request_round_trip :
  forall (extra : bytes),
    (forall name port p,
       enc_register_user_req name port = Ok p ->
       dec_register_user_req (p ++ extra) = Ok (name, port)) /\
    (forall name port cap zone p,
       enc_register_disk_req name port cap zone = Ok p ->
       dec_register_disk_req (p ++ extra) = Ok (name, port, cap, zone)) /\
    (forall n policy cj p,
       enc_configure_req n policy cj = Ok p ->
       dec_configure_req (p ++ extra) = Ok (n, policy, cj)) /\
    (forall uid p,
       enc_deregister_user_req uid = Ok p ->
       dec_deregister_user_req (p ++ extra) = Ok uid) /\
    (forall did p,
       enc_deregister_disk_req did = Ok p ->
       dec_deregister_disk_req (p ++ extra) = Ok did).
Proof.
  intros extra. split; [|split; [|split; [|split]]].
  - intros name port p E. now apply register_user_req_ext.
  - intros name port cap zone p E. now apply register_disk_req_ext.
  - intros n policy cj p E. now apply configure_req_ext.
  - intros uid p E. now apply u32_req_ext.
  - intros did p E. now apply u32_req_ext.
Qed.

Lemma X12_witness :
  (exists p, enc_register_disk_req [0x64; 0xE9] 9000 1099511627776 (lit "z1") = Ok p /\
     dec_register_disk_req (p ++ [x2a])
     = Ok ([0x64; 0xE9], 9000, 1099511627776, lit "z1")) /\
  (exists p, enc_configure_req 3 (lit "RAID0") [] = Ok p /\
     dec_configure_req (p ++ []) = Ok (3, lit "RAID0", [])).
Proof.
  split.
  - eexists. split; [vm_compute; reflexivity|].
    apply (proj1 (proj2 (X12_request_round_trip [x2a]))). vm_compute. reflexivity.
  - eexists. split; [vm_compute; reflexivity|].
    apply (proj1 (proj2 (proj2 (X12_request_round_trip [])))). vm_compute. reflexivity.
Defined.

Lemma id_resp_ext (s : Status) (id : Z) (pb extra : bytes) :
  pack_u8 (int_of_status s) +++ pack_u32 id = Ok pb ->
  dec_register_user_resp (pb ++ extra) = Ok (int_of_status s, id) /\
  dec_register_disk_resp (pb ++ extra) = Ok (int_of_status s, id).
Proof.
  intros H.
  destruct (radd_inv _ _ _ H) as (b1 & b2 & H1 & H2 & ->). clear H.
  assert (S1 : skipn 0 ((b1 ++ b2) ++ extra) = b1 ++ b2 ++ extra)
    by (cbn [skipn]; now rewrite <- app_assoc).
  pose proof (skipn_next _ _ _ _ S1) as S2.
  unfold dec_register_user_resp, dec_register_disk_resp, run_cursor, mbind, new_Cursor.
  rewrite u8_fixed, (fixed_read_at 1 _ _ _ _ _ ltac:(lia) H1 S1).
  rewrite u32_fixed, (fixed_read_at 4 _ _ _ _ _ ltac:(lia) H2 S2). auto.
Qed.

Lemma configure_resp_ext (s : Status) (dss : Z) (ids : option (list Z))
    (pb extra : bytes) :
  enc_configure_resp s dss ids = Ok pb ->
  dec_configure_resp (pb ++ extra) = Ok (int_of_status s, dss, or_empty ids).
Proof.
  unfold enc_configure_resp. intros H.
  destruct (radd_inv _ _ _ H) as (b1 & r1 & H1 & H' & ->). clear H.
  destruct (radd_inv _ _ _ H') as (b2 & b3 & H2 & H3 & ->). clear H'.
  assert (S1 : skipn 0 ((b1 ++ b2 ++ b3) ++ extra) = b1 ++ b2 ++ b3 ++ extra)
    by (cbn [skipn]; now rewrite <- !app_assoc).
  pose proof (skipn_next _ _ _ _ S1) as S2.
  pose proof (skipn_next _ _ _ _ S2) as S3.
  unfold dec_configure_resp, run_cursor, mbind, new_Cursor.
  rewrite u8_fixed, (fixed_read_at 1 _ _ _ _ _ ltac:(lia) H1 S1).
  rewrite u32_fixed, (fixed_read_at 4 _ _ _ _ _ ltac:(lia) H2 S2).
  rewrite (u32_list_read_at _ _ _ _ _ H3 S3). reflexivity.
Qed.

Lemma error_resp_ext (s : Status) (msg : pystr) (pb extra : bytes) :
  enc_error s msg = Ok pb ->
  dec_error_resp (pb ++ extra) = Ok (int_of_status s, msg).
Proof.
  unfold enc_error. intros H.
  destruct (radd_inv _ _ _ H) as (b1 & b2 & H1 & H2 & ->). clear H.
  assert (S1 : skipn 0 ((b1 ++ b2) ++ extra) = b1 ++ b2 ++ extra)
    by (cbn [skipn]; now rewrite <- app_assoc).
  pose proof (skipn_next _ _ _ _ S1) as S2.
  unfold dec_error_resp, run_cursor, mbind, new_Cursor.
  rewrite u8_fixed, (fixed_read_at 1 _ _ _ _ _ ltac:(lia) H1 S1).
  rewrite (str_read_at _ _ _ _ _ H2 S2). reflexivity.
Qed.

Lemma simple_status_ext (s : Status) (extra : bytes) :
  exists b, enc_simple_status s = Ok [b] /\
    run_cursor Cursor.u8 ([b] ++ extra) = Ok (int_of_status s).
Proof.
  exists (byte_of_Z (int_of_status s)). split; [destruct s; reflexivity|].
  unfold run_cursor, new_Cursor.
  assert (S1 : skipn 0 ([byte_of_Z (int_of_status s)] ++ extra)
               = status_byte s ++ extra) by reflexivity.
  rewrite u8_fixed, (fixed_read_at 1 _ _ _ _ _ ltac:(lia) (pack_status s) S1).
  reflexivity.
Qed.

(** X13. Responses round-trip between the manager and the clients.
    Whenever a response encoder of [manager.py] returns a payload, the
    client's decoder returns the numeric value of the status and the fields
    that were encoded.  For [enc_configure_resp] the decoded list is
    [disk_ids or []]: [None] and the empty list both come back as the empty
    list.  [enc_simple_status] always yields one byte, which the clients'
    [Cursor(pb).u8()] reads as the status.  Trailing bytes are not looked
    at. *)
Theorem X13_response_round_trip :
  forall (s : Status) (extra : bytes),
    (forall uid p,
       enc_register_user_resp s uid = Ok p ->
       dec_register_user_resp (p ++ extra) = Ok (int_of_status s, uid)) /\
    (forall did p,
       enc_register_disk_resp s did = Ok p ->
       dec_register_disk_resp (p ++ extra) = Ok (int_of_status s, did)) /\
    (forall dss ids p,
       enc_configure_resp s dss ids = Ok p ->
       dec_configure_resp (p ++ extra) = Ok (int_of_status s, dss, or_empty ids)) /\
    (forall msg p,
       enc_error s msg = Ok p ->
       dec_error_resp (p ++ extra) = Ok (int_of_status s, msg)) /\
    (exists b, enc_simple_status s = Ok [b] /\
       run_cursor Cursor.u8 ([b] ++ extra) = Ok (int_of_status s)).
Proof.
  intros s extra. split; [|split; [|split; [|split]]].
  - intros uid p E. exact (proj1 (id_resp_ext s uid p extra E)).
  - intros did p E. exact (proj2 (id_resp_ext s did p extra E)).
  - intros dss ids p E. now apply configure_resp_ext.
  - intros msg p E. now apply error_resp_ext.
  - apply simple_status_ext.
Qed.

Lemma X13_witness :
  (exists p, enc_configure_resp OK 7 (Some [1; 2; 5]) = Ok p /\
     dec_configure_resp (p ++ [x00]) = Ok (0, 7, [1; 2; 5])) /\
  (exists p, enc_configure_resp INSUFFICIENT_RESOURCES 0 None = Ok p /\
     dec_configure_resp (p ++ []) = Ok (4, 0, [])) /\
  (exists p, enc_error INVALID_ARGUMENT (lit "bad disk args") = Ok p /\
     dec_error_resp (p ++ []) = Ok (1, lit "bad disk args")).
Proof.
  split; [|split].
  - eexists. split; [vm_compute; reflexivity|].
    apply (proj1 (proj2 (proj2 (X13_response_round_trip OK [x00])))
             7 (Some [1; 2; 5])).
    vm_compute. reflexivity.
  - eexists. split; [vm_compute; reflexivity|].
    apply (proj1 (proj2 (proj2 (X13_response_round_trip INSUFFICIENT_RESOURCES [])))
             0 None).
    vm_compute. reflexivity.
  - eexists. split; [vm_compute; reflexivity|].
    apply (proj1 (proj2 (proj2 (proj2 (X13_response_round_trip INVALID_ARGUMENT []))))
             (lit "bad disk args")).
    vm_compute. reflexivity.
Defined.

(** ** Decoding determines the bytes *)

Lemma byte_of_Z_mod (z : Z) : byte_of_Z z = byte_of_Z (z mod 256).
Proof.
  rewrite <- (byte_of_Z_val (byte_of_Z z)) at 1.
  now rewrite byte_val_of_Z_mod.
Qed.

Lemma byte_of_Z_eq (z : Z) (b : byte) : z = byte_val b -> byte_of_Z z = b.
Proof. intros ->. apply byte_of_Z_val. Qed.

Lemma be_bytes_snoc (w : nat) (x : Z) :
  be_bytes (S w) x = be_bytes w (x / 256) ++ [byte_of_Z x].
Proof.
  induction w as [|w IH].
  - cbn [be_bytes app]. change (256 ^ Z.of_nat 0) with 1. now rewrite Z.div_1_r.
  - change (be_bytes (S (S w)) x)
      with (byte_of_Z (x / 256 ^ Z.of_nat (S w)) :: be_bytes (S w) x).
    rewrite IH. cbn [be_bytes app]. f_equal. f_equal.
    rewrite Nat2Z.inj_succ, Z.pow_succ_r by lia.
    assert (0 < 256 ^ Z.of_nat w) by (apply Z.pow_pos_nonneg; lia).
    rewrite Z.div_div by lia. reflexivity.
Qed.

Lemma be_value_snoc (bs : bytes) (b : byte) :
  be_value (bs ++ [b]) = be_value bs * 256 + byte_val b.
Proof. unfold be_value. now rewrite fold_left_app. Qed.

Lemma be_bytes_value (bs : bytes) : be_bytes (length bs) (be_value bs) = bs.
Proof.
  induction bs as [|b bs IH] using rev_ind; [reflexivity|].
  rewrite length_app, Nat.add_comm. cbn [length Nat.add].
  rewrite be_bytes_snoc, be_value_snoc.
  pose proof (byte_val_range b) as R.
  replace ((be_value bs * 256 + byte_val b) / 256) with (be_value bs) by zdm.
  rewrite IH. f_equal. f_equal.
  rewrite byte_of_Z_mod.
  replace ((be_value bs * 256 + byte_val b) mod 256) with (byte_val b) by zdm.
  apply byte_of_Z_val.
Qed.

Lemma read_fixed_inv (w : nat) (d : bytes) (o : nat) (v : Z) (c' : Cursor) :
  read_fixed w (mkCursor d o) = Ok (v, c') ->
  struct_pack w v = Ok (be_bytes w v) /\
  skipn o d = be_bytes w v ++ skipn (o + w) d /\
  c' = mkCursor d (o + w) /\ (o + w <= length d)%nat.
Proof.
  intros E. pose proof (read_fixed_range _ _ _ _ E) as R.
  revert E. unfold read_fixed. cbn [data off].
  destruct (Nat.ltb_spec (length d) (o + w)); [discriminate|].
  intros E. apply Ok_eq in E.
  assert (Ev : v = be_value (slice d o w)) by congruence.
  assert (Ec : c' = mkCursor d (o + w)) by congruence.
  clear E. split; [now apply struct_pack_ok|].
  split; [|split; [exact Ec | assumption]].
  assert (L : length (slice d o w) = w).
  { unfold slice. rewrite length_firstn, length_skipn. lia. }
  rewrite Ev. rewrite <- L at 1. rewrite be_bytes_value.
  unfold slice. rewrite Nat.add_comm, <- skipn_skipn.
  symmetry. apply firstn_skipn.
Qed.

(** Strict UTF-8 has one encoding per string. *)

Lemma utf8_encode_cons (c : Z) (s : pystr) (bc bs : bytes) :
  utf8_encode_cp c = Some bc -> utf8_encode s = Some bs ->
  utf8_encode (c :: s) = Some (bc ++ bs).
Proof. intros Hc Hs. cbn [utf8_encode]. now rewrite Hc, Hs. Qed.

Lemma option_map_cons_inv (c : Z) (o : option pystr) (s : pystr) :
  option_map (cons c) o = Some s -> exists s', o = Some s' /\ s = c :: s'.
Proof.
  destruct o as [s'|]; [|discriminate]. cbn. intros E. apply Some_eq in E.
  eauto.
Qed.

Lemma is_cont_range (b : byte) : is_cont b = true -> 0x80 <= byte_val b < 0xC0.
Proof.
  unfold is_cont. intros H. apply andb_prop in H. destruct H as [H1 H2].
  apply Z.leb_le in H1. apply Z.ltb_lt in H2. lia.
Qed.

Lemma utf8_cp_1 (b0 : byte) :
  byte_val b0 < 0x80 -> utf8_encode_cp (byte_val b0) = Some [b0].
Proof.
  intros H. pose proof (byte_val_range b0). unfold utf8_encode_cp.
  destruct (Z.ltb_spec (byte_val b0) 0); [lia|].
  destruct (Z.ltb_spec (byte_val b0) 0x80); [|lia].
  now rewrite byte_of_Z_val.
Qed.

Lemma utf8_cp_2 (b0 b1 : byte) (c : Z) :
  c = (byte_val b0 - 0xC0) * 64 + (byte_val b1 - 0x80) ->
  0xC0 <= byte_val b0 < 0xE0 -> 0x80 <= byte_val b1 < 0xC0 -> 0x80 <= c ->
  utf8_encode_cp c = Some [b0; b1].
Proof.
  intros Ec H0 H1 Hc. unfold utf8_encode_cp.
  destruct (Z.ltb_spec c 0); [lia|].
  destruct (Z.ltb_spec c 0x80); [lia|].
  destruct (Z.ltb_spec c 0x800); [|lia].
  f_equal. f_equal; [|f_equal]; apply byte_of_Z_eq; zdm.
Qed.

Lemma utf8_cp_3 (b0 b1 b2 : byte) (c : Z) :
  c = (byte_val b0 - 0xE0) * 4096 + (byte_val b1 - 0x80) * 64
      + (byte_val b2 - 0x80) ->
  0xE0 <= byte_val b0 < 0xF0 -> 0x80 <= byte_val b1 < 0xC0 ->
  0x80 <= byte_val b2 < 0xC0 -> 0x800 <= c ->
  ~ (0xD800 <= c <= 0xDFFF) ->
  utf8_encode_cp c = Some [b0; b1; b2].
Proof.
  intros Ec H0 H1 H2 Hc Hs. unfold utf8_encode_cp.
  destruct (Z.ltb_spec c 0); [lia|].
  destruct (Z.ltb_spec c 0x80); [lia|].
  destruct (Z.ltb_spec c 0x800); [lia|].
  destruct (Z.ltb_spec c 0x10000); [|lia].
  destruct (Z.leb_spec 0xD800 c); destruct (Z.leb_spec c 0xDFFF);
    cbn [andb]; try lia;
    (f_equal; f_equal; [|f_equal; [|f_equal]]; apply byte_of_Z_eq; zdm).
Qed.

Lemma utf8_cp_4 (b0 b1 b2 b3 : byte) (c : Z) :
  c = (byte_val b0 - 0xF0) * 262144 + (byte_val b1 - 0x80) * 4096
      + (byte_val b2 - 0x80) * 64 + (byte_val b3 - 0x80) ->
  0xF0 <= byte_val b0 < 0xF8 -> 0x80 <= byte_val b1 < 0xC0 ->
  0x80 <= byte_val b2 < 0xC0 -> 0x80 <= byte_val b3 < 0xC0 ->
  0x10000 <= c < 0x110000 ->
  utf8_encode_cp c = Some [b0; b1; b2; b3].
Proof.
  intros Ec H0 H1 H2 H3 Hc. unfold utf8_encode_cp.
  destruct (Z.ltb_spec c 0); [lia|].
  destruct (Z.ltb_spec c 0x80); [lia|].
  destruct (Z.ltb_spec c 0x800); [lia|].
  destruct (Z.ltb_spec c 0x10000); [lia|].
  destruct (Z.ltb_spec c 0x110000); [|lia].
  f_equal. f_equal; [|f_equal; [|f_equal; [|f_equal]]]; apply byte_of_Z_eq; zdm.
Qed.

Lemma utf8_decode_encode_n (n : nat) :
  forall (bs : bytes) (s : pystr),
    (length bs <= n)%nat -> utf8_decode bs = Some s -> utf8_encode s = Some bs.
Proof.
  induction n as [|n IH]; intros bs s Hl.
  - destruct bs; [|simpl in Hl; lia]. cbn. intros E. apply Some_eq in E.
    now subst.
  - destruct bs as [|b0 r0]; [cbn; intros E; apply Some_eq in E; now subst|].
    cbn [length] in Hl. cbn [utf8_decode].
    destruct (Z.ltb_spec (byte_val b0) 0x80) as [T1|T1].
    { intros E. apply option_map_cons_inv in E. destruct E as (s' & E & ->).
      apply (utf8_encode_cons _ _ [b0] r0 (utf8_cp_1 _ T1)).
      apply IH; [lia | exact E]. }
    destruct (Z.ltb_spec (byte_val b0) 0xC0) as [T2|T2]; [discriminate|].
    destruct (Z.ltb_spec (byte_val b0) 0xE0) as [T3|T3].
    { destruct r0 as [|b1 r1]; [discriminate|]. cbn [length] in Hl.
      destruct (is_cont b1) eqn:C1; [|discriminate]. cbn [andb].
      destruct (Z.leb_spec 0x80 ((byte_val b0 - 0xC0) * 64 + (byte_val b1 - 0x80)));
        [|discriminate].
      intros E. apply option_map_cons_inv in E. destruct E as (s' & E & ->).
      apply is_cont_range in C1.
      apply (utf8_encode_cons _ _ [b0; b1] r1).
      - apply utf8_cp_2; [reflexivity | lia | lia | lia].
      - apply IH; [lia | exact E]. }
    destruct (Z.ltb_spec (byte_val b0) 0xF0) as [T4|T4].
    { destruct r0 as [|b1 [|b2 r2]]; [discriminate | discriminate |].
      cbn [length] in Hl.
      destruct (is_cont b1) eqn:C1; [|discriminate].
      destruct (is_cont b2) eqn:C2; [|discriminate]. cbn [andb].
      set (c := (byte_val b0 - 0xE0) * 4096 + (byte_val b1 - 0x80) * 64
                + (byte_val b2 - 0x80)).
      destruct (Z.leb_spec 0x800 c); [|discriminate]. cbn [andb].
      destruct (Z.leb_spec 0xD800 c); destruct (Z.leb_spec c 0xDFFF);
        cbn [andb negb]; try discriminate;
        (intros E; apply option_map_cons_inv in E; destruct E as (s' & E & ->);
         apply is_cont_range in C1; apply is_cont_range in C2;
         apply (utf8_encode_cons _ _ [b0; b1; b2] r2);
         [apply utf8_cp_3; [reflexivity | lia | lia | lia | lia | lia]
         |apply IH; [lia | exact E]]). }
    destruct (Z.ltb_spec (byte_val b0) 0xF8) as [T5|T5]; [|discriminate].
    destruct r0 as [|b1 [|b2 [|b3 r3]]]; [discriminate | discriminate | discriminate |].
    cbn [length] in Hl.
    destruct (is_cont b1) eqn:C1; [|discriminate].
    destruct (is_cont b2) eqn:C2; [|discriminate].
    destruct (is_cont b3) eqn:C3; [|discriminate]. cbn [andb].
    set (c := (byte_val b0 - 0xF0) * 262144 + (byte_val b1 - 0x80) * 4096
              + (byte_val b2 - 0x80) * 64 + (byte_val b3 - 0x80)).
    destruct (Z.leb_spec 0x10000 c); [|discriminate]. cbn [andb].
    destruct (Z.ltb_spec c 0x110000); [|discriminate].
    intros E. apply option_map_cons_inv in E. destruct E as (s' & E & ->).
    apply is_cont_range in C1. apply is_cont_range in C2.
    apply is_cont_range in C3.
    apply (utf8_encode_cons _ _ [b0; b1; b2; b3] r3).
    + apply utf8_cp_4; [reflexivity | lia | lia | lia | lia | lia].
    + apply IH; [lia | exact E].
Qed.

Lemma utf8_decode_encode (bs : bytes) (s : pystr) :
  utf8_decode bs = Some s -> utf8_encode s = Some bs.
Proof. apply (utf8_decode_encode_n (length bs)). lia. Qed.

Lemma str_inv (d : bytes) (o : nat) (s : pystr) (c' : Cursor) :
  Cursor.str (mkCursor d o) = Ok (s, c') ->
  exists b, pack_str s = Ok b /\
    skipn o d = b ++ skipn (o + length b) d /\
    c' = mkCursor d (o + length b) /\ (o + length b <= length d)%nat.
Proof.
  rewrite str_unfold.
  destruct (read_fixed 2 (mkCursor d o)) as [[n c1]|e] eqn:E1; [|discriminate].
  pose proof (read_fixed_range _ _ _ _ E1) as R.
  apply read_fixed_inv in E1. destruct E1 as (_ & S1 & -> & L1).
  cbn [data off].
  destruct (Nat.ltb_spec (length d) (o + 2 + Z.to_nat n)); [discriminate|].
  unfold bytes_decode.
  destruct (utf8_decode (slice d (o + 2) (Z.to_nat n))) as [s0|] eqn:E2;
    [|discriminate].
  intros E. apply Ok_eq in E.
  assert (Es : s0 = s) by congruence.
  assert (Ec : c' = mkCursor d (o + 2 + Z.to_nat n)) by congruence.
  clear E. subst s0.
  apply utf8_decode_encode in E2.
  set (bs := slice d (o + 2) (Z.to_nat n)) in *.
  assert (L : length bs = Z.to_nat n).
  { unfold bs, slice. rewrite length_firstn, length_skipn. lia. }
  assert (Ln : len bs = n) by (unfold len; lia).
  exists (be_bytes 2 n ++ bs).
  assert (Lb : length (be_bytes 2 n ++ bs) = (2 + Z.to_nat n)%nat)
    by (rewrite length_app, be_bytes_length; lia).
  split.
  { rewrite <- Ln at 1. apply pack_str_ok.
    - unfold str_encode. now rewrite E2.
    - pow_consts. lia. }
  rewrite Lb, Nat.add_assoc. split; [|split; [exact Ec | lia]].
  rewrite S1 at 1. rewrite <- app_assoc. f_equal.
  unfold bs, slice.
  rewrite <- (firstn_skipn (Z.to_nat n) (skipn (o + 2) d)) at 1.
  f_equal. rewrite skipn_skipn. f_equal. lia.
Qed.

Lemma radd_ok (a b : result bytes) (x y : bytes) :
  a = Ok x -> b = Ok y -> a +++ b = Ok (x ++ y).
Proof. intros -> ->. reflexivity. Qed.

Lemma u32_req_inv (pb : bytes) (x : Z) :
  run_cursor Cursor.u32 pb = Ok x ->
  exists p extra, pack_u32 x = Ok p /\ pb = p ++ extra.
Proof.
  unfold run_cursor, new_Cursor. rewrite u32_fixed.
  destruct (read_fixed 4 (mkCursor pb 0)) as [[v c1]|e] eqn:E1; [|discriminate].
  intros E. apply Ok_eq in E. subst v.
  apply read_fixed_inv in E1. destruct E1 as (P1 & S1 & _ & _).
  exists (be_bytes 4 x), (skipn (0 + 4) pb). split; [exact P1 | exact S1].
Qed.

(** X14. The request decoders accept canonical payloads only.  Whenever a
    request decoder of [manager.py] returns, the client's encoder applied to
    the decoded arguments succeeds and reproduces, byte for byte, the part of
    the payload that the decoder consumed; the payload is that encoding
    followed by bytes the decoder ignored.  So two payloads that decode to
    the same arguments differ only in trailing bytes, and a string
    field is accepted only in its unique strict UTF-8 form. *)
Theorem X14_decoded_requests_reencode :
  (forall pb name port,
     dec_register_user_req pb = Ok (name, port) ->
     exists p extra, enc_register_user_req name port = Ok p /\ pb = p ++ extra) /\
  (forall pb name port cap zone,
     dec_register_disk_req pb = Ok (name, port, cap, zone) ->
     exists p extra,
       enc_register_disk_req name port cap zone = Ok p /\ pb = p ++ extra) /\
  (forall pb n policy cj,
     dec_configure_req pb = Ok (n, policy, cj) ->
     exists p extra, enc_configure_req n policy cj = Ok p /\ pb = p ++ extra) /\
  (forall pb uid,
     dec_deregister_user_req pb = Ok uid ->
     exists p extra, enc_deregister_user_req uid = Ok p /\ pb = p ++ extra) /\
  (forall pb did,
     dec_deregister_disk_req pb = Ok did ->
     exists p extra, enc_deregister_disk_req did = Ok p /\ pb = p ++ extra).
Proof.
  split; [|split; [|split; [|split]]].
  - intros pb name port.
    unfold dec_register_user_req, run_cursor, read_register_user_req, mbind,
      mret, new_Cursor.
    destruct (Cursor.str (mkCursor pb 0)) as [[nm c1]|e] eqn:E1; [|discriminate].
    apply str_inv in E1. destruct E1 as (b1 & P1 & S1 & -> & _).
    rewrite u16_fixed.
    destruct (read_fixed 2 _) as [[v c2]|e] eqn:E2; [|discriminate].
    apply read_fixed_inv in E2. destruct E2 as (P2 & S2 & _ & _).
    intros E. apply Ok_eq in E.
    assert (nm = name) by congruence. assert (v = port) by congruence.
    subst nm v. clear E.
    exists (b1 ++ be_bytes 2 port), (skipn (0 + length b1 + 2) pb).
    split; [now apply radd_ok|].
    rewrite <- app_assoc, <- S2. exact S1.
  - intros pb name port cap zone.
    unfold dec_register_disk_req, run_cursor, read_register_disk_req, mbind,
      mret, new_Cursor.
    destruct (Cursor.str (mkCursor pb 0)) as [[nm c1]|e] eqn:E1; [|discriminate].
    apply str_inv in E1. destruct E1 as (b1 & P1 & S1 & -> & _).
    rewrite u16_fixed.
    destruct (read_fixed 2 _) as [[v c2]|e] eqn:E2; [|discriminate].
    apply read_fixed_inv in E2. destruct E2 as (P2 & S2 & -> & _).
    rewrite u64_fixed.
    destruct (read_fixed 8 _) as [[v8 c3]|e] eqn:E3; [|discriminate].
    apply read_fixed_inv in E3. destruct E3 as (P3 & S3 & -> & _).
    destruct (Cursor.str _) as [[z c4]|e] eqn:E4; [|discriminate].
    apply str_inv in E4. destruct E4 as (b4 & P4 & S4 & _ & _).
    intros E. apply Ok_eq in E.
    assert (nm = name) by congruence. assert (v = port) by congruence.
    assert (v8 = cap) by congruence. assert (z = zone) by congruence.
    subst nm v v8 z. clear E.
    exists (b1 ++ be_bytes 2 port ++ be_bytes 8 cap ++ b4),
      (skipn (0 + length b1 + 2 + 8 + length b4) pb).
    split.
    { unfold enc_register_disk_req.
      apply radd_ok; [exact P1|]. apply radd_ok; [exact P2|].
      now apply radd_ok. }
    rewrite <- !app_assoc, <- S4, <- S3, <- S2. exact S1.
  - intros pb n policy cj.
    unfold dec_configure_req, run_cursor, read_configure_req, mbind,
      mret, new_Cursor.
    rewrite u16_fixed.
    destruct (read_fixed 2 _) as [[v c1]|e] eqn:E1; [|discriminate].
    apply read_fixed_inv in E1. destruct E1 as (P1 & S1 & -> & _).
    destruct (Cursor.str _) as [[s2 c2]|e] eqn:E2; [|discriminate].
    apply str_inv in E2. destruct E2 as (b2 & P2 & S2 & -> & _).
    destruct (Cursor.str _) as [[s3 c3]|e] eqn:E3; [|discriminate].
    apply str_inv in E3. destruct E3 as (b3 & P3 & S3 & _ & _).
    intros E. apply Ok_eq in E.
    assert (v = n) by congruence. assert (s2 = policy) by congruence.
    assert (s3 = cj) by congruence. subst v s2 s3. clear E.
    exists (be_bytes 2 n ++ b2 ++ b3), (skipn (0 + 2 + length b2 + length b3) pb).
    split.
    { unfold enc_configure_req.
      apply radd_ok; [exact P1|]. now apply radd_ok. }
    rewrite <- !app_assoc, <- S3, <- S2. exact S1.
  - intros pb uid. apply u32_req_inv.
  - intros pb did. apply u32_req_inv.
Qed.

Lemma X14_witness :
  exists p extra,
    enc_register_user_req (lit "al") 7000 = Ok p /\
    [x00; x02; x61; x6c; x1b; x58; xff; xff] = p ++ extra.
Proof.
  apply (proj1 X14_decoded_requests_reencode
           [x00; x02; x61; x6c; x1b; x58; xff; xff] (lit "al") 7000).
  vm_compute. reflexivity.
Defined.

(** ** Frames read from the wire *)

Lemma recv_exact_inv (sock : socket) (n : nat) (b : bytes) (s' : socket) :
  Wire.recv_exact sock n = (Ok b, s') ->
  stream (inbox sock) = b ++ stream (inbox s') /\ length b = n /\
  outbox s' = outbox sock.
Proof.
  unfold Wire.recv_exact. intros E.
  pose proof (recv_loop_spec sock n []) as S. rewrite E in S.
  destruct S as (Hn & -> & Hs & Ho). cbn [concat app].
  rewrite Hs, firstn_skipn, length_firstn. repeat split; [lia | exact Ho].
Qed.

Lemma be_bytes_of_slice (bs : bytes) (w : nat) :
  length bs = w -> be_bytes w (be_value bs) = bs.
Proof. intros <-. apply be_bytes_value. Qed.

Lemma header_unpack_inv (hdr : bytes) (v mt txn plen : Z) :
  Wire.HEADER_unpack hdr = Ok (v, mt, txn, plen) ->
  Wire.HEADER_pack v mt txn plen = Ok hdr.
Proof.
  unfold Wire.HEADER_unpack.
  destruct (Nat.eqb_spec (length hdr) Wire.HEADER_size) as [L|L]; [|discriminate].
  intros E. apply Ok_eq in E.
  assert (Ev : v = be_value (slice hdr 0 1)) by congruence.
  assert (Em : mt = be_value (slice hdr 1 1)) by congruence.
  assert (Et : txn = be_value (slice hdr 2 4)) by congruence.
  assert (Ep : plen = be_value (slice hdr 6 4)) by congruence.
  clear E.
  assert (Ls : forall a w, (a + w <= 10)%nat -> length (slice hdr a w) = w).
  { intros a w Haw. unfold slice. rewrite length_firstn, length_skipn, L.
    unfold Wire.HEADER_size. lia. }
  pose proof (be_value_range (slice hdr 0 1)) as Rv.
  pose proof (be_value_range (slice hdr 1 1)) as Rm.
  pose proof (be_value_range (slice hdr 2 4)) as Rt.
  pose proof (be_value_range (slice hdr 6 4)) as Rp.
  unfold len in Rv, Rm, Rt, Rp. rewrite Ls in Rv, Rm, Rt, Rp by lia.
  pow_consts.
  rewrite header_pack_ok by (subst; pow_consts; lia).
  f_equal. subst v mt txn plen.
  rewrite !be_bytes_of_slice by (apply Ls; lia).
  unfold slice.
  assert (S1 : skipn 1 hdr = skipn 1 (skipn 0 hdr)) by reflexivity.
  assert (S2 : skipn 2 hdr = skipn 1 (skipn 1 hdr)) by (now rewrite skipn_skipn).
  assert (S6 : skipn 6 hdr = skipn 4 (skipn 2 hdr)) by (now rewrite skipn_skipn).
  rewrite S6. rewrite (firstn_all2 (n := 4) (skipn 4 (skipn 2 hdr)))
    by (rewrite !length_skipn, L; unfold Wire.HEADER_size; lia).
  rewrite firstn_skipn. rewrite S2, firstn_skipn. cbn [skipn].
  apply firstn_skipn.
Qed.

(** X15. A frame returned by [recv_msg] is exactly what was on the wire:
    [recv_msg] consumes one header and the payload it announces and nothing
    more, the message type it returns fits a byte, the transaction id and
    the payload length fit 32 bits, and [send_msg] with the returned message
    type, transaction id and payload never raises and writes the very bytes
    that [recv_msg] consumed. *)
Theorem X15_received_frame_is_the_wire_bytes :
  forall (sock s' : socket) (f : frame),
    Wire.recv_msg sock = (Ok f, s') ->
    (0 <= msg_type f < 256 /\ 0 <= txn_id f < 2 ^ 32 /\
     len (payload f) < 2 ^ 32) /\
    outbox s' = outbox sock /\
    exists hdr,
      length hdr = Wire.HEADER_size /\
      stream (inbox sock) = hdr ++ payload f ++ stream (inbox s') /\
      forall a,
        Wire.send_msg a (msg_type f) (txn_id f) (payload f)
        = (Ok tt, Wire.sendall a (hdr ++ payload f)).
Proof.
  intros sock s' f. unfold Wire.recv_msg.
  destruct (Wire.recv_exact sock Wire.HEADER_size) as [[hdr|e] s1] eqn:E1;
    [|intros E; discriminate E].
  apply recv_exact_inv in E1. destruct E1 as (S1 & L1 & O1).
  destruct (Wire.HEADER_unpack hdr) as [[[[v mt] txn] plen]|e] eqn:E2;
    [|intros E; discriminate E].
  apply header_unpack_inv in E2.
  destruct (header_pack_inv _ _ _ _ _ E2) as (Hv & Hm & Ht & Hp & _).
  destruct (Z.eqb_spec v PROTO_VERSION) as [->|Hne]; cbn [negb];
    [|intros E; discriminate E].
  assert (G : forall pb s2,
             len pb = plen -> stream (inbox s1) = pb ++ stream (inbox s2) ->
             outbox s2 = outbox s1 ->
             (Ok (mkFrame mt txn pb), s2) = (Ok f, s') ->
             (0 <= msg_type f < 256 /\ 0 <= txn_id f < 2 ^ 32 /\
              len (payload f) < 2 ^ 32) /\
             outbox s' = outbox sock /\
             exists hdr0,
               length hdr0 = Wire.HEADER_size /\
               stream (inbox sock) = hdr0 ++ payload f ++ stream (inbox s') /\
               forall a,
                 Wire.send_msg a (msg_type f) (txn_id f) (payload f)
                 = (Ok tt, Wire.sendall a (hdr0 ++ payload f))).
  { intros pb s2 Lp S2 O2 E.
    assert (Ef : f = mkFrame mt txn pb) by congruence.
    assert (Es : s' = s2) by congruence.
    subst f s'. cbn [msg_type txn_id payload].
    split; [repeat split; lia|]. split; [congruence|].
    exists hdr. split; [exact L1|]. split; [now rewrite S1, S2|].
    intros a. unfold Wire.send_msg. now rewrite Lp, E2. }
  destruct (Z.eqb_spec plen 0) as [->|Hnz].
  - apply (G [] s1); auto.
  - destruct (Wire.recv_exact s1 (Z.to_nat plen)) as [[pb|e] s2] eqn:E3;
      [|intros E; discriminate E].
    apply recv_exact_inv in E3. destruct E3 as (S2 & L2 & O2).
    apply (G pb s2); auto. unfold len. lia.
Qed.

Lemma X15_witness :
  let sock := mkSocket [(x01, [x40; x00]); (x00, [x00; x09; x00; x00]);
                        (x00, [x04; x00; x00]); (x00, [x05; x01])] [] in
  let f := mkFrame MsgType.DEREGISTER_USER_REQ 9 [x00; x00; x00; x05] in
  Wire.recv_msg sock = (Ok f, mkSocket [(x01, [])] []) /\
  exists hdr,
    length hdr = Wire.HEADER_size /\
    stream (inbox sock) = hdr ++ payload f ++ [x01] /\
    forall a,
      Wire.send_msg a (msg_type f) (txn_id f) (payload f)
      = (Ok tt, Wire.sendall a (hdr ++ payload f)).
Proof.
  intros sock f.
  assert (E : Wire.recv_msg sock = (Ok f, mkSocket [(x01, [])] []))
    by (vm_compute; reflexivity).
  split; [exact E|].
  exact (proj2 (proj2 (X15_received_frame_is_the_wire_bytes sock _ f E))).
Defined.

(** ** Text that is not UTF-8 *)

Lemma str_read_invalid (d : bytes) (o : nat) (hl b post : bytes) :
  pack_u16 (len b) = Ok hl -> utf8_decode b = None ->
  skipn o d = hl ++ b ++ post ->
  Cursor.str (mkCursor d o) = Err (UnicodeDecodeError b).
Proof.
  intros Hh Hd S. rewrite str_unfold.
  rewrite (fixed_read_at 2 d o (len b) hl (b ++ post) ltac:(lia) Hh S).
  cbn [data off]. pose proof (pack_length _ _ _ Hh) as L. rewrite L.
  pose proof (skipn_at_length _ _ _ _ S) as Hl.
  rewrite !length_app, L in Hl.
  unfold len. rewrite Nat2Z.id.
  destruct (Nat.ltb_spec (length d) (o + 2 + length b)); [lia|].
  pose proof (skipn_next _ _ _ _ S) as S2. rewrite L in S2.
  rewrite (slice_at _ _ _ _ S2). unfold bytes_decode. now rewrite Hd.
Qed.

Lemma configure_invalid_policy (n : Z) (hn hl b tail : bytes) :
  pack_u16 n = Ok hn -> pack_u16 (len b) = Ok hl -> utf8_decode b = None ->
  dec_configure_req (hn ++ hl ++ b ++ tail) = Err (UnicodeDecodeError b).
Proof.
  intros Hn Hl Hd.
  assert (S1 : skipn 0 (hn ++ hl ++ b ++ tail) = hn ++ hl ++ b ++ tail)
    by reflexivity.
  pose proof (skipn_next _ _ _ _ S1) as S2.
  unfold dec_configure_req, run_cursor, read_configure_req, mbind, new_Cursor.
  rewrite u16_fixed, (fixed_read_at 2 _ _ _ _ _ ltac:(lia) Hn S1).
  rewrite (str_read_invalid _ _ _ _ _ Hl Hd S2). reflexivity.
Qed.

Lemma configure_invalid_constraints (n : Z) (policy : pystr)
    (hn hp hl b tail : bytes) :
  pack_u16 n = Ok hn -> pack_str policy = Ok hp ->
  pack_u16 (len b) = Ok hl -> utf8_decode b = None ->
  dec_configure_req (hn ++ hp ++ hl ++ b ++ tail) = Err (UnicodeDecodeError b).
Proof.
  intros Hn Hp Hl Hd.
  assert (S1 : skipn 0 (hn ++ hp ++ hl ++ b ++ tail) = hn ++ hp ++ hl ++ b ++ tail)
    by reflexivity.
  pose proof (skipn_next _ _ _ _ S1) as S2.
  pose proof (skipn_next _ _ _ _ S2) as S3.
  unfold dec_configure_req, run_cursor, read_configure_req, mbind, new_Cursor.
  rewrite u16_fixed, (fixed_read_at 2 _ _ _ _ _ ltac:(lia) Hn S1).
  rewrite (str_read_at _ _ _ _ _ Hp S2).
  rewrite (str_read_invalid _ _ _ _ _ Hl Hd S3). reflexivity.
Qed.

Lemma configure_req_safe : bounds_safe read_configure_req.
Proof.
  unfold read_configure_req.
  apply mbind_safe; [apply u16_safe|]. intros n.
  apply mbind_safe; [apply str_safe|]. intros p.
  apply mbind_safe; [apply str_safe|]. intros c. apply mret_safe.
Qed.

(** X16. A CONFIGURE_DSS_REQ that does not decode ends the connection, for
    whatever reason it does not decode.  [dec_configure_req] runs outside
    any [try], so its exception, which is the truncated-payload
    [ValueError] or a [UnicodeDecodeError], leaves [handle_conn]: nothing is
    sent, the registry is untouched and the frames behind it are never read.
    In particular a request whose policy field, or whose constraints field,
    holds bytes that are not valid UTF-8 is not answered with an error
    response; the thread dies with the [UnicodeDecodeError] of those
    bytes. *)
Theorem X16_configure_decode_error_ends_connection :
  forall (lib_text : exn -> pystr) (addr0 : pystr) (txn : Z)
         (rest : list frame) (w : world),
    let conn pb :=
      handle_conn lib_text addr0
        (mkFrame MsgType.CONFIGURE_DSS_REQ txn pb :: rest) w in
    (forall pb e,
       dec_configure_req pb = Err e ->
       (e = truncated \/ exists b, e = UnicodeDecodeError b) /\
       conn pb = (w, Uncaught e)) /\
    (forall n hn hl b tail,
       pack_u16 n = Ok hn -> pack_u16 (len b) = Ok hl ->
       utf8_decode b = None ->
       conn (hn ++ hl ++ b ++ tail) = (w, Uncaught (UnicodeDecodeError b))) /\
    (forall n policy hn hp hl b tail,
       pack_u16 n = Ok hn -> pack_str policy = Ok hp ->
       pack_u16 (len b) = Ok hl -> utf8_decode b = None ->
       conn (hn ++ hp ++ hl ++ b ++ tail) = (w, Uncaught (UnicodeDecodeError b))).
Proof.
  intros lib_text addr0 txn rest w conn.
  assert (G : forall pb e,
             dec_configure_req pb = Err e ->
             (e = truncated \/ exists b, e = UnicodeDecodeError b) /\
             conn pb = (w, Uncaught e)).
  { intros pb e E.
    pose proof (run_cursor_error _ _ _ configure_req_safe E) as K.
    split; [exact K|]. unfold conn.
    rewrite (handle_conn_raise lib_text addr0 _ rest w w e).
    - destruct K as [->|[b ->]]; reflexivity.
    - now apply handle_configure_err. }
  split; [exact G|]. split.
  - intros n hn hl b tail Hn Hl Hd.
    apply (G _ _ (configure_invalid_policy _ _ _ _ _ Hn Hl Hd)).
  - intros n policy hn hp hl b tail Hn Hp Hl Hd.
    apply (G _ _ (configure_invalid_constraints _ _ _ _ _ _ _ Hn Hp Hl Hd)).
Qed.

Lemma X16_witness :
  let w := mkWorld new_Registry [] in
  handle_conn (fun _ => []) (lit "h")
    [mkFrame MsgType.CONFIGURE_DSS_REQ 5
       ([x00; x02] ++ [x00; x02] ++ [xc3; x28] ++ [x00; x00]);
     mkFrame MsgType.DEREGISTER_USER_REQ 6 [x00; x00; x00; x01]] w
  = (w, Uncaught (UnicodeDecodeError [xc3; x28])).
Proof.
  intros w.
  apply (proj1 (proj2 (X16_configure_decode_error_ends_connection
                         (fun _ => []) (lit "h") 5
                         [mkFrame MsgType.DEREGISTER_USER_REQ 6
                            [x00; x00; x00; x01]] w))
           2 [x00; x02] [x00; x02] [xc3; x28] [x00; x00]);
    vm_compute; reflexivity.
Defined.

(** ** A whole session *)

Lemma pack_u32_ok (x : Z) : 0 <= x < 2 ^ 32 -> pack_u32 x = Ok (be_bytes 4 x).
Proof. intros H. apply struct_pack_ok. pow_consts. lia. Qed.

Lemma status_ok_reads : run_cursor Cursor.u8 (status_byte OK) = Ok 0.
Proof. reflexivity. Qed.

(** X17. A client session end to end.  In a well-formed registry whose
    next user id fits 32 bits, let a user client register with a non-empty
    name and a positive port and then deregister with the id it was given,
    each request built by the client's own encoder.  The manager answers
    REGISTER_USER_RESP and then DEREGISTER_USER_RESP, each with the
    transaction id of its request; the client decodes the first to status
    OK and the id [next_user_id], and the second to status OK; the thread
    ends with BYE when the client closes; and afterwards the registry holds
    the users and disks it held before, with [next_user_id] one higher.
    The same holds for a disk client with [register_disk] and a positive
    capacity. *)
Theorem X17_register_deregister_session :
  forall (lib_text : exn -> pystr) (addr0 : pystr) (w : world)
         (name : pystr) (port cap : Z) (zone : pystr) (t1 t2 : Z),
    registry_inv (reg w) ->
    name <> [] -> 0 < port -> 0 < cap ->
    (forall p1,
       next_user_id (reg w) < 2 ^ 32 ->
       enc_register_user_req name port = Ok p1 ->
       let uid := next_user_id (reg w) in
       exists p2 q1 q2,
         enc_deregister_user_req uid = Ok p2 /\
         handle_conn lib_text addr0
           [mkFrame MsgType.REGISTER_USER_REQ t1 p1;
            mkFrame MsgType.DEREGISTER_USER_REQ t2 p2] w
         = (mkWorld
              (mkRegistry (uid + 1) (next_disk_id (reg w)) (next_dss_id (reg w))
                 (users (reg w)) (disks (reg w)))
              (sent w ++ [mkFrame MsgType.REGISTER_USER_RESP t1 q1;
                          mkFrame MsgType.DEREGISTER_USER_RESP t2 q2]),
            Bye) /\
         dec_register_user_resp q1 = Ok (int_of_status OK, uid) /\
         run_cursor Cursor.u8 q2 = Ok (int_of_status OK)) /\
    (forall p1,
       next_disk_id (reg w) < 2 ^ 32 ->
       enc_register_disk_req name port cap zone = Ok p1 ->
       let did := next_disk_id (reg w) in
       exists p2 q1 q2,
         enc_deregister_disk_req did = Ok p2 /\
         handle_conn lib_text addr0
           [mkFrame MsgType.REGISTER_DISK_REQ t1 p1;
            mkFrame MsgType.DEREGISTER_DISK_REQ t2 p2] w
         = (mkWorld
              (mkRegistry (next_user_id (reg w)) (did + 1) (next_dss_id (reg w))
                 (users (reg w)) (disks (reg w)))
              (sent w ++ [mkFrame MsgType.REGISTER_DISK_RESP t1 q1;
                          mkFrame MsgType.DEREGISTER_DISK_RESP t2 q2]),
            Bye) /\
         dec_register_disk_resp q1 = Ok (int_of_status OK, did) /\
         run_cursor Cursor.u8 q2 = Ok (int_of_status OK)).
Proof.
  intros lib_text addr0 w name port cap zone t1 t2 I Hname Hport Hcap.
  destruct (register_appends (reg w) name addr0 port cap zone I) as [Ru Rd].
  assert (Np : py_not name = false) by (destruct name; [congruence | reflexivity]).
  assert (Pp : (port <=? 0) = false) by (apply Z.leb_gt; lia).
  assert (Pc : (cap <=? 0) = false) by (apply Z.leb_gt; lia).
  split.
  - intros p1 Hlt Hp1 uid.
    assert (Hu : 0 <= uid < 2 ^ 32)
      by (pose proof (inv_next_user (reg w) I); unfold uid; lia).
    destruct (enc_id_resp_ok uid Hu) as [Eq1 _].
    exists (be_bytes 4 uid), (status_byte OK ++ be_bytes 4 uid), (status_byte OK).
    split; [now apply pack_u32_ok|]. split; [|split].
    + rewrite (handle_conn_continue lib_text addr0 _ _ w
                 (mkWorld (snd (register_user name addr0 port (reg w)))
                    (sent w ++ [mkFrame MsgType.REGISTER_USER_RESP t1
                                  (status_byte OK ++ be_bytes 4 uid)]))).
      2:{ change (handle_msg lib_text addr0 (mkFrame MsgType.REGISTER_USER_REQ t1 p1))
            with (handle_register_user lib_text addr0 t1 p1).
          rewrite handle_register_user_unfold.
          rewrite <- (app_nil_r p1), (register_user_req_ext _ _ _ [] Hp1).
          rewrite Np, Pp. cbn [orb]. fold uid. rewrite Eq1. reflexivity. }
      rewrite (handle_conn_continue lib_text addr0 _ _ _
                 (mkWorld
                    (mkRegistry (uid + 1) (next_disk_id (reg w))
                       (next_dss_id (reg w)) (users (reg w)) (disks (reg w)))
                    ((sent w ++ [mkFrame MsgType.REGISTER_USER_RESP t1
                                   (status_byte OK ++ be_bytes 4 uid)])
                       ++ [mkFrame MsgType.DEREGISTER_USER_RESP t2
                             (status_byte OK)]))).
      2:{ change (handle_msg lib_text addr0
                    (mkFrame MsgType.DEREGISTER_USER_REQ t2 (be_bytes 4 uid)))
            with (handle_deregister_user t2 (be_bytes 4 uid)).
          rewrite (handle_deregister_user_ok t2 _ uid).
          2:{ rewrite <- (app_nil_r (be_bytes 4 uid)).
              apply u32_req_ext. now apply pack_u32_ok. }
          cbn [reg sent]. rewrite Ru. cbn [snd]. unfold deregister_user.
          cbn [users disks next_user_id next_disk_id next_dss_id].
          fold uid. rewrite (dict_pop_snoc _ _ _ (fresh_user_id (reg w) I)).
          reflexivity. }
      unfold handle_conn. cbn [serve_loop hraise is_OSError].
      now rewrite <- app_assoc.
    + rewrite <- (app_nil_r (status_byte OK ++ be_bytes 4 uid)).
      exact (proj1 (id_resp_ext OK uid _ [] Eq1)).
    + reflexivity.
  - intros p1 Hlt Hp1 did.
    assert (Hu : 0 <= did < 2 ^ 32)
      by (pose proof (inv_next_disk (reg w) I); unfold did; lia).
    destruct (enc_id_resp_ok did Hu) as [_ Eq1].
    exists (be_bytes 4 did), (status_byte OK ++ be_bytes 4 did), (status_byte OK).
    split; [now apply pack_u32_ok|]. split; [|split].
    + rewrite (handle_conn_continue lib_text addr0 _ _ w
                 (mkWorld (snd (register_disk name addr0 port cap zone (reg w)))
                    (sent w ++ [mkFrame MsgType.REGISTER_DISK_RESP t1
                                  (status_byte OK ++ be_bytes 4 did)]))).
      2:{ change (handle_msg lib_text addr0 (mkFrame MsgType.REGISTER_DISK_REQ t1 p1))
            with (handle_register_disk lib_text addr0 t1 p1).
          rewrite handle_register_disk_unfold.
          rewrite <- (app_nil_r p1), (register_disk_req_ext _ _ _ _ _ [] Hp1).
          rewrite Np, Pp, Pc. cbn [orb]. fold did. rewrite Eq1. reflexivity. }
      rewrite (handle_conn_continue lib_text addr0 _ _ _
                 (mkWorld
                    (mkRegistry (next_user_id (reg w)) (did + 1)
                       (next_dss_id (reg w)) (users (reg w)) (disks (reg w)))
                    ((sent w ++ [mkFrame MsgType.REGISTER_DISK_RESP t1
                                   (status_byte OK ++ be_bytes 4 did)])
                       ++ [mkFrame MsgType.DEREGISTER_DISK_RESP t2
                             (status_byte OK)]))).
      2:{ change (handle_msg lib_text addr0
                    (mkFrame MsgType.DEREGISTER_DISK_REQ t2 (be_bytes 4 did)))
            with (handle_deregister_disk t2 (be_bytes 4 did)).
          rewrite (handle_deregister_disk_ok t2 _ did).
          2:{ rewrite <- (app_nil_r (be_bytes 4 did)).
              apply u32_req_ext. now apply pack_u32_ok. }
          cbn [reg sent]. rewrite Rd. cbn [snd]. unfold deregister_disk.
          cbn [users disks next_user_id next_disk_id next_dss_id].
          fold did. rewrite (dict_pop_snoc _ _ _ (fresh_disk_id (reg w) I)).
          reflexivity. }
      unfold handle_conn. cbn [serve_loop hraise is_OSError].
      now rewrite <- app_assoc.
    + rewrite <- (app_nil_r (status_byte OK ++ be_bytes 4 did)).
      exact (proj2 (id_resp_ext OK did _ [] Eq1)).
    + reflexivity.
Qed.

Lemma X17_witness :
  let w := mkWorld new_Registry [] in
  exists p2 q1 q2,
    enc_deregister_user_req 1 = Ok p2 /\
    handle_conn (fun _ => []) (lit "h")
      [mkFrame MsgType.REGISTER_USER_REQ 1 [x00; x02; x61; x6c; x1b; x58];
       mkFrame MsgType.DEREGISTER_USER_REQ 2 p2] w
    = (mkWorld (mkRegistry 2 1 1 [] [])
         [mkFrame MsgType.REGISTER_USER_RESP 1 q1;
          mkFrame MsgType.DEREGISTER_USER_RESP 2 q2],
       Bye) /\
    dec_register_user_resp q1 = Ok (0, 1) /\
    run_cursor Cursor.u8 q2 = Ok 0.
Proof.
  intros w.
  apply (proj1 (X17_register_deregister_session (fun _ => []) (lit "h") w
                  (lit "al") 7000 1 [] 1 2 new_Registry_inv
                  ltac:(vm_compute; discriminate) ltac:(lia) ltac:(lia))
           [x00; x02; x61; x6c; x1b; x58]).
  - vm_compute. reflexivity.
  - vm_compute. reflexivity.
Defined.

(** ** Every reply can be decoded *)

Lemma error_reply_decodes (txn : Z) (msg : pystr) (out : bytes) :
  enc_error INVALID_ARGUMENT msg = Ok out ->
  reply_decodes (mkFrame MsgType.ERROR_RESP txn out).
Proof.
  intros E. unfold reply_decodes. cbn [msg_type payload].
  change (MsgType.ERROR_RESP =? MsgType.ERROR_RESP) with true. cbv iota.
  exists msg. rewrite <- (app_nil_r out). now apply error_resp_ext.
Qed.

Lemma reply_error_decodable (lib_text : exn -> pystr) (txn : Z) (e : exn)
    (w : world) (r : Registry) :
  decodable_reply w (reply_error lib_text txn e (mkWorld r (sent w))).
Proof.
  unfold reply_error, hbind, hlift, send_msg.
  destruct (enc_error INVALID_ARGUMENT (exn_str lib_text e)) as [out|e'] eqn:E;
    cbn [reg sent]; [|exact I].
  eexists. split; [reflexivity|]. now apply (error_reply_decodes _ _ _ E).
Qed.

Lemma deregister_reply_decodes (mt txn : Z) (ok : bool) :
  mt = MsgType.DEREGISTER_USER_RESP \/ mt = MsgType.DEREGISTER_DISK_RESP ->
  reply_decodes (mkFrame mt txn (status_byte (if ok then OK else NOT_REGISTERED))).
Proof.
  intros [-> | ->]; unfold reply_decodes; cbn [msg_type payload];
    exists (if ok then OK else NOT_REGISTERED);
    destruct ok; (split; [cbn; tauto | split; reflexivity]).
Qed.

Lemma configure_failure_decodes (txn : Z) (s : Status) :
  In s [INVALID_ARGUMENT; INSUFFICIENT_RESOURCES] ->
  reply_decodes (mkFrame MsgType.CONFIGURE_DSS_RESP txn (configure_failure s)).
Proof.
  intros Hs. unfold reply_decodes. cbn [msg_type payload].
  change (MsgType.CONFIGURE_DSS_RESP =? MsgType.ERROR_RESP) with false.
  change (MsgType.CONFIGURE_DSS_RESP =? MsgType.REGISTER_USER_RESP) with false.
  change (MsgType.CONFIGURE_DSS_RESP =? MsgType.REGISTER_DISK_RESP) with false.
  change (MsgType.CONFIGURE_DSS_RESP =? MsgType.DEREGISTER_USER_RESP) with false.
  change (MsgType.CONFIGURE_DSS_RESP =? MsgType.DEREGISTER_DISK_RESP) with false.
  change (MsgType.CONFIGURE_DSS_RESP =? MsgType.CONFIGURE_DSS_RESP) with true.
  cbv iota. cbn [orb].
  exists s, 0, []. split; [apply dec_configure_failure|]. right. auto.
Qed.

Lemma handle_msg_decodable (lib_text : exn -> pystr) (addr0 : pystr) (f : frame)
    (w : world) :
  decodable_reply w (handle_msg lib_text addr0 f w).
Proof.
  unfold handle_msg.
  destruct (msg_type f =? MsgType.REGISTER_USER_REQ).
  { rewrite handle_register_user_unfold.
    destruct (dec_register_user_req (payload f)) as [[name port]|e].
    - destruct (py_not name || (port <=? 0)).
      + rewrite <- (world_eta w) at 2. apply reply_error_decodable.
      + cbv zeta. cbn [reg sent].
        destruct (enc_register_user_resp OK (next_user_id (reg w))) as [out|e] eqn:E.
        * eexists. split; [reflexivity|]. unfold reply_decodes.
          cbn [msg_type payload]. exists (next_user_id (reg w)).
          exact (proj1 (dec_id_resp_enc OK _ _ E)).
        * apply reply_error_decodable.
    - rewrite <- (world_eta w) at 2. apply reply_error_decodable. }
  destruct (msg_type f =? MsgType.DEREGISTER_USER_REQ).
  { destruct (dec_deregister_user_req (payload f)) as [uid|e] eqn:Hd.
    - rewrite (handle_deregister_user_ok _ _ _ _ Hd).
      eexists. split; [reflexivity|]. apply deregister_reply_decodes. now left.
    - rewrite (handle_deregister_user_err _ _ _ _ Hd). exact I. }
  destruct (msg_type f =? MsgType.REGISTER_DISK_REQ).
  { rewrite handle_register_disk_unfold.
    destruct (dec_register_disk_req (payload f)) as [[[[name port] cap] zone]|e].
    - destruct (py_not name || (port <=? 0) || (cap <=? 0)).
      + rewrite <- (world_eta w) at 2. apply reply_error_decodable.
      + cbv zeta. cbn [reg sent].
        destruct (enc_register_disk_resp OK (next_disk_id (reg w))) as [out|e] eqn:E.
        * eexists. split; [reflexivity|]. unfold reply_decodes.
          cbn [msg_type payload]. exists (next_disk_id (reg w)).
          exact (proj2 (dec_id_resp_enc OK _ _ E)).
        * apply reply_error_decodable.
    - rewrite <- (world_eta w) at 2. apply reply_error_decodable. }
  destruct (msg_type f =? MsgType.DEREGISTER_DISK_REQ).
  { destruct (dec_deregister_disk_req (payload f)) as [did|e] eqn:Hd.
    - rewrite (handle_deregister_disk_ok _ _ _ _ Hd).
      eexists. split; [reflexivity|]. apply deregister_reply_decodes. now right.
    - rewrite (handle_deregister_disk_err _ _ _ _ Hd). exact I. }
  destruct (msg_type f =? MsgType.CONFIGURE_DSS_REQ).
  { destruct (dec_configure_req (payload f)) as [[[n policy] cj]|e] eqn:Hd.
    - destruct (Z.le_gt_cases n 0) as [Hn|Hn].
      + rewrite (handle_configure_invalid _ _ _ _ _ w Hd Hn).
        eexists. split; [reflexivity|]. apply configure_failure_decodes. now left.
      + destruct (Z.lt_ge_cases (len (disks (reg w))) n) as [Hm|Hm].
        * rewrite (handle_configure_insufficient _ _ _ _ _ w Hd Hn Hm).
          eexists. split; [reflexivity|]. apply configure_failure_decodes.
          right. now left.
        * rewrite (handle_configure_enough _ _ _ _ _ w Hd Hn Hm).
          destruct (enc_configure_resp OK (next_dss_id (reg w))
                      (Some (first_disks n (reg w)))) as [out|e] eqn:E; [|exact I].
          eexists. split; [reflexivity|]. unfold reply_decodes.
          cbn [msg_type payload].
          exists OK, (next_dss_id (reg w)), (first_disks n (reg w)).
          split; [now apply dec_configure_resp_enc|]. left. split; [reflexivity|].
          destruct (allocate_disks_enough n (reg w) Hn Hm) as (_ & _ & Hne).
          intros Z0. rewrite Z0 in Hne. discriminate Hne.
    - rewrite (handle_configure_err _ _ _ _ Hd). exact I. }
  unfold hbind, hlift, send_msg.
  destruct (enc_error INVALID_ARGUMENT _) as [out|e] eqn:E; [|exact I].
  eexists. split; [reflexivity|]. now apply (error_reply_decodes _ _ _ E).
Qed.

(** X18. Every reply of the manager can be decoded by the client it goes
    to, and carries one of four statuses.  Whenever an iteration of
    [handle_conn] ends normally it has sent exactly one frame, and that
    frame is: an ERROR_RESP that decodes to INVALID_ARGUMENT and a text; or
    a REGISTER_USER_RESP / REGISTER_DISK_RESP that decodes to OK and an id;
    or a DEREGISTER response that is the single byte OK or NOT_REGISTERED;
    or a CONFIGURE_DSS_RESP that decodes to OK with at least one disk id, or
    to INVALID_ARGUMENT or INSUFFICIENT_RESOURCES with DSS id 0 and no
    disks.  ALREADY_REGISTERED and INTERNAL_ERROR are never sent, and a
    register response never carries a failure status. *)
Theorem X18_replies_decode :
  forall (lib_text : exn -> pystr) (addr0 : pystr) (f : frame) (w w' : world),
    handle_msg lib_text addr0 f w = (w', Ok tt) ->
    exists fr, sent w' = sent w ++ [fr] /\ reply_decodes fr.
Proof.
  intros lib_text addr0 f w w' E.
  pose proof (handle_msg_decodable lib_text addr0 f w) as D.
  rewrite E in D. exact D.
Qed.

Lemma X18_witness :
  let w := mkWorld new_Registry [] in
  exists fr,
    sent (mkWorld new_Registry
            [mkFrame MsgType.CONFIGURE_DSS_RESP 4
               (configure_failure INSUFFICIENT_RESOURCES)])
    = sent w ++ [fr] /\ reply_decodes fr.
Proof.
  intros w.
  apply (X18_replies_decode (fun _ => []) (lit "h")
           (mkFrame MsgType.CONFIGURE_DSS_REQ 4 [x00; x02; x00; x00; x00; x00]) w).
  vm_compute. reflexivity.
Defined.

(** ** Configuring twice *)

Lemma In_firstn {A} (n : nat) (l : list A) (x : A) : In x (firstn n l) -> In x l.
Proof.
  intros H. rewrite <- (firstn_skipn n l). apply in_or_app. now left.
Qed.

Lemma first_disks_range (n : Z) (r : Registry) :
  registry_inv r -> next_disk_id r <= 2 ^ 32 ->
  first_disks n r = firstn (Z.to_nat n) (dict_keys (disks r)) /\
  Forall (fun x => 0 <= x < 2 ^ 32) (first_disks n r).
Proof.
  intros I Hn. unfold first_disks.
  rewrite (ready_is_keys _ (inv_disk_key r I)). split; [reflexivity|].
  apply Forall_forall. intros x Hx. apply In_firstn in Hx.
  pose proof (inv_disks_below r I) as B. rewrite Forall_forall in B.
  specialize (B x Hx). lia.
Qed.

Lemma configure_step (lib_text : exn -> pystr) (addr0 : pystr) (w : world)
    (n : Z) (policy cj : pystr) (p : bytes) (t : Z) :
  0 <= next_dss_id (reg w) < 2 ^ 32 ->
  Forall (fun x => 0 <= x < 2 ^ 32) (first_disks n (reg w)) ->
  1 <= n <= len (disks (reg w)) ->
  enc_configure_req n policy cj = Ok p ->
  exists q,
    handle_msg lib_text addr0 (mkFrame MsgType.CONFIGURE_DSS_REQ t p) w
    = (mkWorld (snd (mint_dss_id (reg w)))
         (sent w ++ [mkFrame MsgType.CONFIGURE_DSS_RESP t q]), Ok tt) /\
    dec_configure_resp q
    = Ok (int_of_status OK, next_dss_id (reg w), first_disks n (reg w)).
Proof.
  intros Hdss HF Hn Hp.
  assert (Hd : dec_configure_req p = Ok (n, policy, cj)).
  { rewrite <- (app_nil_r p). now apply configure_req_ext. }
  assert (Hn16 : n < 65536).
  { unfold enc_configure_req in Hp.
    destruct (radd_inv _ _ _ Hp) as (b1 & r1 & H1 & _ & _).
    apply struct_pack_inv in H1. destruct H1 as [H1 _]. pow_consts. lia. }
  destruct (allocate_disks_enough n (reg w) ltac:(lia) ltac:(lia)) as (_ & Hl & _).
  pose proof (enc_configure_resp_ok OK (next_dss_id (reg w)) (first_disks n (reg w))
                Hdss ltac:(lia) HF) as Eq.
  eexists. split.
  - change (handle_msg lib_text addr0 (mkFrame MsgType.CONFIGURE_DSS_REQ t p))
      with (handle_configure_dss t p).
    rewrite (handle_configure_enough _ _ _ _ _ w Hd ltac:(lia) ltac:(lia)).
    rewrite Eq. reflexivity.
  - now apply dec_configure_resp_enc.
Qed.

(** X19. Configuring reserves nothing.  [allocate_disks] only reads the
    registry, and the policy and constraints of a request are decoded and
    not used.  So in a well-formed registry with at least [n >= 1] disks,
    two CONFIGURE_DSS_REQ for [n] disks, whatever their policy and
    constraints, are both answered OK with the same disks, the [n] smallest
    registered disk ids in ascending order, under two consecutive DSS ids;
    afterwards the registry differs only in [next_dss_id], which is two
    higher.  (The ids are assumed to fit the 32-bit fields.) *)
Theorem X19_configure_reserves_no_disk :
  forall (lib_text : exn -> pystr) (addr0 : pystr) (w : world) (n : Z)
         (policy1 cj1 policy2 cj2 : pystr) (p1 p2 : bytes) (t1 t2 : Z),
    registry_inv (reg w) ->
    next_disk_id (reg w) <= 2 ^ 32 -> next_dss_id (reg w) + 1 < 2 ^ 32 ->
    1 <= n <= len (disks (reg w)) ->
    enc_configure_req n policy1 cj1 = Ok p1 ->
    enc_configure_req n policy2 cj2 = Ok p2 ->
    let dss := next_dss_id (reg w) in
    let ids := firstn (Z.to_nat n) (dict_keys (disks (reg w))) in
    exists q1 q2,
      handle_conn lib_text addr0
        [mkFrame MsgType.CONFIGURE_DSS_REQ t1 p1;
         mkFrame MsgType.CONFIGURE_DSS_REQ t2 p2] w
      = (mkWorld
           (mkRegistry (next_user_id (reg w)) (next_disk_id (reg w)) (dss + 2)
              (users (reg w)) (disks (reg w)))
           (sent w ++ [mkFrame MsgType.CONFIGURE_DSS_RESP t1 q1;
                       mkFrame MsgType.CONFIGURE_DSS_RESP t2 q2]),
         Bye) /\
      dec_configure_resp q1 = Ok (int_of_status OK, dss, ids) /\
      dec_configure_resp q2 = Ok (int_of_status OK, dss + 1, ids) /\
      StronglySorted Z.lt ids.
Proof.
  intros lib_text addr0 w n policy1 cj1 policy2 cj2 p1 p2 t1 t2
         I Hdisk Hdss Hn Hp1 Hp2 dss ids.
  pose proof (inv_next_dss (reg w) I) as Hd1.
  destruct (first_disks_range n (reg w) I Hdisk) as [Ef HF].
  destruct (configure_step lib_text addr0 w n policy1 cj1 p1 t1
              ltac:(lia) HF Hn Hp1) as (q1 & S1 & D1).
  set (w1 := mkWorld (snd (mint_dss_id (reg w)))
               (sent w ++ [mkFrame MsgType.CONFIGURE_DSS_RESP t1 q1])) in *.
  assert (F1 : first_disks n (reg w1) = first_disks n (reg w)) by reflexivity.
  destruct (configure_step lib_text addr0 w1 n policy2 cj2 p2 t2
              ltac:(cbn; lia) ltac:(now rewrite F1) Hn Hp2) as (q2 & S2 & D2).
  exists q1, q2. split; [|split; [|split]].
  - rewrite (handle_conn_continue _ _ _ _ _ _ S1).
    rewrite (handle_conn_continue _ _ _ _ _ _ S2).
    unfold handle_conn. cbn [serve_loop hraise is_OSError].
    unfold w1. cbn [reg sent snd mint_dss_id next_user_id next_disk_id
                    next_dss_id users disks].
    rewrite <- app_assoc. cbn [app]. do 3 f_equal. fold dss. lia.
  - rewrite D1, Ef. reflexivity.
  - rewrite D2, F1, Ef. reflexivity.
  - unfold ids. pose proof (inv_disks_sorted (reg w) I) as Srt.
    rewrite <- (firstn_skipn (Z.to_nat n) (dict_keys (disks (reg w)))) in Srt.
    revert Srt. generalize (firstn (Z.to_nat n) (dict_keys (disks (reg w)))).
    intros l. induction l as [|x l IH]; intros Srt; [constructor|].
    cbn [app] in Srt. inversion Srt as [|? ? Hs Hf]; subst.
    constructor; [now apply IH|].
    apply Forall_app in Hf. tauto.
Qed.

Lemma X19_witness :
  let r := run_ops [RegisterDisk (lit "a") (lit "h") 1 10 [];
                    RegisterDisk (lit "b") (lit "h") 2 10 [];
                    RegisterDisk (lit "c") (lit "h") 3 10 [];
                    DeregisterDisk 2] new_Registry in
  let w := mkWorld r [] in
  exists q1 q2,
    handle_conn (fun _ => []) (lit "h")
      [mkFrame MsgType.CONFIGURE_DSS_REQ 1
         [x00; x02; x00; x05; x52; x41; x49; x44; x30; x00; x00];
       mkFrame MsgType.CONFIGURE_DSS_REQ 2 [x00; x02; x00; x00; x00; x00]] w
    = (mkWorld (mkRegistry 1 4 3 (users r) (disks r))
         [mkFrame MsgType.CONFIGURE_DSS_RESP 1 q1;
          mkFrame MsgType.CONFIGURE_DSS_RESP 2 q2],
       Bye) /\
    dec_configure_resp q1 = Ok (0, 1, [1; 3]) /\
    dec_configure_resp q2 = Ok (0, 2, [1; 3]) /\
    StronglySorted Z.lt [1; 3].
Proof.
  intros r w.
  apply (X19_configure_reserves_no_disk (fun _ => []) (lit "h") w 2
           (lit "RAID0") [] [] [] _ _ 1 2
           ltac:(apply run_ops_inv, new_Registry_inv)
           ltac:(vm_compute; discriminate) ltac:(vm_compute; reflexivity)
           ltac:(vm_compute; split; discriminate)
           ltac:(vm_compute; reflexivity) ltac:(vm_compute; reflexivity)).
Defined.
